(** * TLS ClientHello fingerprinting: parser, encoder, deduplicator, aggregator

    A shallow embedding of [scripts/ja4_improved.py] (the hand-rolled
    ClientHello parser, the fingerprint encoder and the per-capture
    connection filter) and of [calculate_all_improved_ja4.py] (the
    grouping of the capture files by framework, the consistency
    analysis and the database update), together with the properties the
    specification states about them and further properties read off
    the code.

    Python values are modelled as follows.
    - [bytes] is [list byte]; an [int] is [Z] (unbounded, as in Python).
    - [raw_data[i]] is [getitem], which raises [IndexError] out of range;
      [raw_data[a:b]] is [slice], which clamps and never raises;
      [struct.unpack('>H', b)[0]] is [unpack_H], which raises
      [StructError] unless [b] holds exactly two bytes.
    - A piece of code that may fall through, [return None] or raise
      has type [outcome]; [try ... except (IndexError, struct.error):
      return None] is [try_except].
    - [str] is [string] (all strings built here are ASCII).
    - A dict whose order matters is an association list in insertion
      order; a CSV row is a [gmap] from column names to strings.
    - What the code gets from outside (the packets [rdpcap] reads, the
      rows of the CSV file, the date, [str.lower] and [str.title]) is a
      parameter of the model. *)

From Stdlib Require Import ZArith Lia String Ascii Strings.Byte List Bool.
From Stdlib Require Import DecimalString HexadecimalString.
From Stdlib Require HexadecimalN.
From Stdlib Require Import Floats.PrimFloat Numbers.Cyclic.Int63.Uint63.
From Equations Require Import Equations.
From stdpp Require Import gmap strings list sorting.

Open Scope Z_scope.

(** ** Python primitives *)

Module Py.

Inductive exn : Type := IndexError | StructError.

(** How a piece of a Python function body ends: it falls through with a
    value, executes [return None], or raises. *)
Inductive outcome (A : Type) : Type :=
| Val (a : A)
| ReturnNone
| Raise (e : exn).
Arguments Val {A} a.
Arguments ReturnNone {A}.
Arguments Raise {A} e.

#[global] Instance outcome_ret : MRet outcome := fun A a => Val a.

#[global] Instance outcome_bind : MBind outcome := fun A B k m =>
  match m with
  | Val a => k a
  | ReturnNone => ReturnNone
  | Raise e => Raise e
  end.

(** [len(b)]. *)
Definition len {A : Type} (l : list A) : Z := Z.of_nat (length l).

Definition byte_val (b : byte) : Z := Z.of_N (Byte.to_N b).

(** [b[i]] on a bytes object: an int in 0..255; a negative index counts
    from the end; out of range raises [IndexError]. *)
Definition getitem (b : list byte) (i : Z) : outcome Z :=
  let j := if i <? 0 then i + len b else i in
  if (0 <=? j) && (j <? len b)
  then match nth_error b (Z.to_nat j) with
       | Some x => Val (byte_val x)
       | None => Raise IndexError
       end
  else Raise IndexError.

(** A slice bound, clamped to [0, len] as Python does. *)
Definition clamp (n : Z) (i : Z) : Z :=
  if i <? 0 then Z.max 0 (i + n) else Z.min i n.

(** [b[lo:hi]]: never raises, silently shortens. *)
Definition slice {A : Type} (b : list A) (lo hi : Z) : list A :=
  let lo' := clamp (len b) lo in
  let hi' := clamp (len b) hi in
  firstn (Z.to_nat (hi' - lo')) (skipn (Z.to_nat lo') b).

(** [struct.unpack('>H', b)[0]]: big-endian unsigned 16-bit; raises
    [struct.error] unless [b] holds exactly two bytes. *)
Definition unpack_H (b : list byte) : outcome Z :=
  match b with
  | [hi; lo] => Val (byte_val hi * 256 + byte_val lo)
  | _ => Raise StructError
  end.

(** [list(range(start, stop, step))] for a positive step. *)
Definition range (start stop step : Z) : list Z :=
  map (fun k => start + step * Z.of_nat k)
      (seq 0 (Z.to_nat ((stop - start + step - 1) / step))).

(** [x in l] on a list of ints. *)
Definition contains (x : Z) (l : list Z) : bool :=
  existsb (Z.eqb x) l.

End Py.

Import Py.

(** ** The ClientHello parser ([parse_tls_client_hello]) *)

(** The dict returned on success. *)
Record TlsData : Type := mkTlsData {
  version : Z;
  cipher_suites : list Z;
  extensions : list Z;
  alpn : bool;
  sni : bool;
  valid : bool
}.

(** The body of the [try] block is a sequence of four commented blocks,
    each of which moves [offset] forward.  Each block is one definition
    below, from the entry value of [offset] to its exit value. *)

(** Lines 60-67, "Skip random" and "Session ID". *)
Definition read_session_id (raw_data : list byte) (offset : Z) : outcome Z :=
  let offset := offset + 32 in
  if len raw_data <=? offset then ReturnNone else
  session_id_len ← getitem raw_data offset;
  Val (offset + (1 + session_id_len)).

(** Lines 75-80: [for i in range(0, cipher_suites_len, 2)], threading
    [offset] and the [cipher_suites] list; [break] ends the loop. *)
Fixpoint cipher_loop (raw_data : list byte) (iters : list Z)
    (offset : Z) (ciphers : list Z) : outcome (list Z * Z) :=
  match iters with
  | [] => Val (ciphers, offset)
  | _ :: rest =>
      if len raw_data <=? offset + 1 then Val (ciphers, offset)
      else
        cipher ← unpack_H (slice raw_data offset (offset + 2));
        cipher_loop raw_data rest (offset + 2) (ciphers ++ [cipher])
  end.

(** Lines 70-80, "Cipher Suites". *)
Definition read_cipher_suites (raw_data : list byte) (offset : Z)
    : outcome (list Z * Z) :=
  if len raw_data <=? offset + 1 then ReturnNone else
  cipher_suites_len ← unpack_H (slice raw_data offset (offset + 2));
  let offset := offset + 2 in
  cipher_loop raw_data (range 0 cipher_suites_len 2) offset [].

(** Lines 83-86, "Compression methods". *)
Definition read_compression (raw_data : list byte) (offset : Z) : outcome Z :=
  if len raw_data <=? offset then ReturnNone else
  compression_len ← getitem raw_data offset;
  Val (offset + (1 + compression_len)).

(** Case analysis that keeps the equation with the scrutinee. *)
Definition inspect {A : Type} (x : A) : { y : A | x = y } := exist _ x eq_refl.

(** Lines 95-99: the [while] loop over the extensions block.  [offset] is
    the start of the block; the loop variable [ext_offset] grows by at
    least 4 on each turn, which is the termination measure. *)
Equations? ext_loop (raw_data : list byte) (offset extensions_len : Z)
    (ext_offset : Z) (exts : list Z) : outcome (list Z)
    by wf (Z.to_nat (len raw_data - ext_offset)) lt :=
  ext_loop raw_data offset extensions_len ext_offset exts
    with inspect ((ext_offset <? offset + extensions_len)
                  && (ext_offset <? len raw_data - 3)) := {
    | exist _ false _ => Val exts
    | exist _ true Hcond
        with inspect (unpack_H (slice raw_data ext_offset (ext_offset + 2))) := {
        | exist _ (Raise e) _ => Raise e
        | exist _ ReturnNone _ => ReturnNone
        | exist _ (Val ext_type) _
            with inspect (unpack_H (slice raw_data (ext_offset + 2) (ext_offset + 4))) := {
            | exist _ (Raise e) _ => Raise e
            | exist _ ReturnNone _ => ReturnNone
            | exist _ (Val ext_len) Hlen =>
                ext_loop raw_data offset extensions_len
                         (ext_offset + 4 + ext_len) (exts ++ [ext_type]) } } }.
Proof.
  assert (0 <= ext_len).
  { destruct (slice raw_data (ext_offset + 2) (ext_offset + 4))
      as [|hi [|lo [|? ?]]]; simpl in Hlen; try discriminate.
    injection Hlen as <-. unfold byte_val. lia. }
  apply andb_true_iff in Hcond as [_ Hc%Z.ltb_lt]. lia.
Qed.

(** Lines 89-99, "Extensions". *)
Definition read_extensions (raw_data : list byte) (offset : Z)
    : outcome (list Z) :=
  if len raw_data <=? offset + 1 then ReturnNone else
  extensions_len ← unpack_H (slice raw_data offset (offset + 2));
  let offset := offset + 2 in
  let ext_offset := offset in
  ext_loop raw_data offset extensions_len ext_offset [].

(** Lines 59-114: the body of the [try] block. *)
Definition parse_body (raw_data : list byte) (version : Z) (offset : Z)
    : outcome TlsData :=
  offset ← read_session_id raw_data offset;
  r ← read_cipher_suites raw_data offset;
  let '(cipher_suites, offset) := r in
  offset ← read_compression raw_data offset;
  extensions ← read_extensions raw_data offset;
  let alpn_present := contains 16 extensions in
  let sni_present := contains 0 extensions in
  Val {| version := version;
         cipher_suites := cipher_suites;
         extensions := extensions;
         alpn := alpn_present;
         sni := sni_present;
         valid := true |}.

(** [try: ... except (IndexError, struct.error): return None]. *)
Definition try_except {A : Type} (m : outcome A) : outcome A :=
  match m with
  | Val r => Val r
  | ReturnNone => ReturnNone
  | Raise IndexError => ReturnNone
  | Raise StructError => ReturnNone
  end.

(** Lines 20-116.  [Val d] is [return {...}], [ReturnNone] is
    [return None], and [Raise e] is an exception that escapes to the
    caller. *)
Definition parse_tls_client_hello (raw_data : list byte) : outcome TlsData :=
  if len raw_data <? 5 then ReturnNone else
  b0 ← getitem raw_data 0;
  if negb (b0 =? 0x16) then ReturnNone else
  version ← unpack_H (slice raw_data 1 3);
  if len raw_data <? 6 then ReturnNone else
  b5 ← getitem raw_data 5;
  if negb (b5 =? 0x01) then ReturnNone else
  let offset := 9 in
  if len raw_data <=? offset then ReturnNone else
  try_except (parse_body raw_data version offset).

(** ** String formatting *)

Module Fmt.

(** [str(n)], also [f"{n:d}"]. *)
Definition str_int (n : Z) : string :=
  DecimalString.NilZero.string_of_int (Z.to_int n).

(** [f"{n:x}"] for [n >= 0]: lowercase hexadecimal. *)
Definition hex_int (n : Z) : string :=
  HexadecimalString.NilZero.string_of_uint (N.to_hex_uint (Z.to_N n)).

(** Zero fill on the left up to a minimum width (the [0w] of a format
    spec, for a number without sign). *)
Definition zfill (width : nat) (s : string) : string :=
  String.concat "" (repeat "0"%string (width - String.length s)) ++ s.

(** [f"{n:02d}"] and [f"{n:04x}"] for [n >= 0]. *)
Definition fmt_02d (n : Z) : string := zfill 2 (str_int n).
Definition fmt_04x (n : Z) : string := zfill 4 (hex_int n).

End Fmt.

(** ** SHA-256 ([hashlib.sha256], FIPS 180-4) *)

Module Sha256.

Definition mask32 : Z := 0xffffffff.
Definition add32 (a b : Z) : Z := Z.land (a + b) mask32.
Definition rotr (n x : Z) : Z :=
  Z.lor (Z.shiftr x n) (Z.land (Z.shiftl x (32 - n)) mask32).
Definition shr (n x : Z) : Z := Z.shiftr x n.
Definition xor3 (a b c : Z) : Z := Z.lxor (Z.lxor a b) c.

Definition Ch (x y z : Z) : Z :=
  Z.lxor (Z.land x y) (Z.land (Z.lxor x mask32) z).
Definition Maj (x y z : Z) : Z :=
  xor3 (Z.land x y) (Z.land x z) (Z.land y z).
Definition bsig0 (x : Z) : Z := xor3 (rotr 2 x) (rotr 13 x) (rotr 22 x).
Definition bsig1 (x : Z) : Z := xor3 (rotr 6 x) (rotr 11 x) (rotr 25 x).
Definition ssig0 (x : Z) : Z := xor3 (rotr 7 x) (rotr 18 x) (shr 3 x).
Definition ssig1 (x : Z) : Z := xor3 (rotr 17 x) (rotr 19 x) (shr 10 x).

(** The constants are defined the way FIPS 180-4 defines them, from the
    first 64 primes: the round constants are the first 32 bits of the
    fractional parts of their cube roots, the initial hash value those
    of the square roots of the first 8. *)
Definition is_prime (n : Z) : bool :=
  (1 <? n) && forallb (fun d => negb (n mod Z.of_nat d =? 0)) (seq 2 (Z.to_nat n - 2)).

Definition first_primes (n : nat) : list Z :=
  firstn n (List.filter is_prime (map Z.of_nat (seq 2 400))).

(** Integer cube root, one bit at a time from the top. *)
Fixpoint cbrt_bits (n : Z) (bits : nat) (r : Z) : Z :=
  match bits with
  | O => r
  | S b =>
      let r' := r + 2 ^ Z.of_nat b in
      cbrt_bits n b (if r' * r' * r' <=? n then r' else r)
  end.

Definition frac_cbrt32 (p : Z) : Z := Z.land (cbrt_bits (p * 2 ^ 96) 40 0) mask32.
Definition frac_sqrt32 (p : Z) : Z := Z.land (Z.sqrt (p * 2 ^ 64)) mask32.

Definition K : list Z := Eval vm_compute in map frac_cbrt32 (first_primes 64).

Definition H0 : list Z := Eval vm_compute in map frac_sqrt32 (first_primes 8).

(** Big-endian bytes of [x], [n] of them. *)
Fixpoint be_bytes (n : nat) (x : Z) : list Z :=
  match n with
  | O => []
  | S n' => Z.land (Z.shiftr x (8 * Z.of_nat n')) 0xff :: be_bytes n' x
  end.

(** Padding: a 1 bit, zeros up to 56 mod 64, the bit length on 8 bytes. *)
Definition pad (msg : list Z) : list Z :=
  let l := Z.of_nat (length msg) in
  msg ++ [0x80] ++ repeat 0 (Z.to_nat ((55 - l) mod 64)) ++ be_bytes 8 (8 * l).

Fixpoint words (n : nat) (bs : list Z) : list Z :=
  match n, bs with
  | S n', b0 :: b1 :: b2 :: b3 :: rest =>
      (((b0 * 256 + b1) * 256 + b2) * 256 + b3) :: words n' rest
  | _, _ => []
  end.

(** The message schedule, newest word first. *)
Fixpoint extend (n : nat) (w : list Z) : list Z :=
  match n with
  | O => w
  | S n' =>
      let wt := add32 (add32 (ssig1 (nth 1 w 0)) (nth 6 w 0))
                      (add32 (ssig0 (nth 14 w 0)) (nth 15 w 0)) in
      extend n' (wt :: w)
  end.

Definition schedule (block : list Z) : list Z :=
  rev (extend 48 (rev (words 16 block))).

Definition round (s : list Z) (kw : Z * Z) : list Z :=
  match s with
  | [a; b; c; d; e; f; g; h] =>
      let t1 := add32 (add32 (add32 h (bsig1 e)) (add32 (Ch e f g) (fst kw))) (snd kw) in
      let t2 := add32 (bsig0 a) (Maj a b c) in
      [add32 t1 t2; a; b; c; add32 d t1; e; f; g]
  | _ => s
  end.

Definition compress (h : list Z) (block : list Z) : list Z :=
  let s := fold_left round (combine K (schedule block)) h in
  map (fun p => add32 (fst p) (snd p)) (combine h s).

Fixpoint blocks (n : nat) (h : list Z) (bs : list Z) : list Z :=
  match n with
  | O => h
  | S n' => blocks n' (compress h (firstn 64 bs)) (skipn 64 bs)
  end.

Definition digest_words (msg : list Z) : list Z :=
  let p := pad msg in
  blocks (length p / 64) H0 p.

(** [hashlib.sha256(b).hexdigest()]. *)
Definition hexdigest (msg : list byte) : string :=
  String.concat ""
    (map (fun w => Fmt.zfill 8 (Fmt.hex_int w))
         (digest_words (map (fun b => Z.of_N (Byte.to_N b)) msg))).

End Sha256.


(** ** The fingerprint encoder ([calculate_ja4_improved]) *)

(** [sorted(l)] on ints: a stable sort by [<=]. *)
Definition sorted (l : list Z) : list Z := merge_sort Z.le l.

(** [d.get(k, default)]. *)
Definition dict_get {V : Type} (d : gmap Z V) (k : Z) (default : V) : V :=
  match d !! k with
  | Some v => v
  | None => default
  end.

(** [s.encode()] for an ASCII string, and [s[:n]]. *)
Definition encode (s : string) : list byte := list_byte_of_string s.
Definition str_prefix (n : nat) (s : string) : string := String.substring 0 n s.

Definition version_map : gmap Z string :=
  {[ 0x0301 := "t10"; 0x0302 := "t11"; 0x0303 := "t12"; 0x0304 := "t13" ]}%string.

(** Lines 118-158. *)
Definition calculate_ja4_improved (tls_data : TlsData) : string :=
  let protocol := dict_get version_map (version tls_data) "t13"%string in
  let sni := if sni tls_data then "d"%string else "i"%string in
  let cipher_count := Z.min (len (cipher_suites tls_data)) 99 in
  let cipher_count_str := Fmt.fmt_02d cipher_count in
  let ext_count := Z.min (len (extensions tls_data)) 99 in
  let ext_count_str := Fmt.fmt_02d ext_count in
  let alpn := if alpn tls_data then "h2"%string else "00"%string in
  let part1 := (protocol ++ sni ++ cipher_count_str ++ ext_count_str ++ alpn)%string in
  let cipher_hex := map Fmt.fmt_04x (sorted (cipher_suites tls_data)) in
  let cipher_string := String.concat "," cipher_hex in
  let cipher_hash := str_prefix 12 (Sha256.hexdigest (encode cipher_string)) in
  let ext_string := String.concat "," (map Fmt.fmt_04x (sorted (extensions tls_data))) in
  let ext_hash := str_prefix 12 (Sha256.hexdigest (encode ext_string)) in
  let ja4 := (part1 ++ "_" ++ cipher_hash ++ "_" ++ ext_hash)%string in
  ja4.


(** ** The consistency analysis of [process_all_pcaps] *)

(** One entry of the [signatures] list built by [extract_ja4_from_pcap]. *)
Record SigInfo : Type := mkSigInfo {
  signature : string;
  src : string;
  dst : string;
  sport : Z;
  dport : Z;
  sig_version : Z;
  ciphers : Z;
  sig_extensions : Z
}.

(** ** The per-capture connection filter ([extract_ja4_from_pcap]) *)

(** A scapy packet, as far as the function looks at it: the IP layer
    (source and destination address), the TCP layer (source and
    destination port) and the Raw payload, each of which may be absent. *)
Record IPLayer : Type := mkIP { ip_src : string; ip_dst : string }.
Record TCPLayer : Type := mkTCP { tcp_sport : Z; tcp_dport : Z }.
Record Packet : Type := mkPacket {
  pkt_ip : option IPLayer;
  pkt_tcp : option TCPLayer;
  pkt_raw : option (list byte)
}.

Module Pcap.

Definition endpoint : Type := string * Z.

(** [a < b] on [(str, int)] tuples: lexicographic. *)
Definition endpoint_lt (a b : endpoint) : bool :=
  String.ltb a.1 b.1 || (String.eqb a.1 b.1 && (a.2 <? b.2)).

(** The order [sorted] sorts by: [a] stays before [b] unless [b < a]. *)
Definition endpoint_le (a b : endpoint) : Prop := endpoint_lt b a = false.

#[global] Instance endpoint_le_dec (a b : endpoint) : Decision (endpoint_le a b).
Proof. unfold endpoint_le. apply _. Defined.

(** [tuple(sorted([a, b]))]. *)
Definition conn_id (a b : endpoint) : list endpoint :=
  merge_sort endpoint_le [a; b].

(** The loop state: the [signatures] list and the [seen_connections] set. *)
Definition state : Type := list SigInfo * gset (list endpoint).

(** Lines 171-209: one turn of [for pkt in packets].  [Val] of the
    unchanged state is [continue] or falling through an [if]. *)
Definition process_packet (st : state) (pkt : Packet) : outcome state :=
  let '(signatures, seen_connections) := st in
  match pkt_ip pkt, pkt_tcp pkt with
  | Some ip, Some tcp =>
      if negb (tcp_dport tcp =? 443) && negb (tcp_sport tcp =? 443) then Val st
      else
        let conn_id := conn_id (ip_src ip, tcp_sport tcp) (ip_dst ip, tcp_dport tcp) in
        if decide (conn_id ∈ seen_connections) then Val st
        else
          match pkt_raw pkt with
          | Some raw_data =>
              match parse_tls_client_hello raw_data with
              | Val tls_data =>
                  if valid tls_data then
                    let seen_connections := {[conn_id]} ∪ seen_connections in
                    let ja4 := calculate_ja4_improved tls_data in
                    Val (signatures ++
                           [{| signature := ja4;
                               src := ip_src ip;
                               dst := ip_dst ip;
                               sport := tcp_sport tcp;
                               dport := tcp_dport tcp;
                               sig_version := version tls_data;
                               ciphers := len (cipher_suites tls_data);
                               sig_extensions := len (extensions tls_data) |}],
                         seen_connections)
                  else Val st
              | ReturnNone => Val st
              | Raise e => Raise e
              end
          | None => Val st
          end
  | _, _ => Val st
  end.

Fixpoint process_packets (st : state) (packets : list Packet) : outcome state :=
  match packets with
  | [] => Val st
  | pkt :: rest => st' ← process_packet st pkt; process_packets st' rest
  end.

(** Lines 168-211, given the packets read from the capture file. *)
Definition extract_ja4_from_pcap (packets : list Packet) : outcome (list SigInfo) :=
  st ← process_packets ([], ∅) packets;
  Val st.1.

End Pcap.

Module Aggregate.

(** A [defaultdict(int)] keyed by signature.  Python dicts iterate in
    insertion order, and [max] below depends on that order, so the dict
    is an association list in insertion order with unique keys. *)
Definition counts : Type := list (string * Z).

(** [d[k] += 1] on a [defaultdict(int)]: an existing key keeps its
    position, a new key goes last with value [0 + 1]. *)
Fixpoint incr (k : string) (d : counts) : counts :=
  match d with
  | [] => [(k, 0 + 1)]
  | (k', n) :: rest =>
      if String.eqb k' k then (k', n + 1) :: rest
      else (k', n) :: incr k rest
  end.

(** Lines 54-56. *)
Definition count_signatures (sigs : list SigInfo) : counts :=
  fold_left (fun d sig_info => incr (signature sig_info) d) sigs [].

(** [max(iterable, key=...)] keeps the first item whose key is maximal:
    a later item replaces the current one only when its key is strictly
    greater. *)
Definition max_by {A : Type} (key : A -> Z) (first : A) (rest : list A) : A :=
  fold_left (fun best x => if key best <? key x then x else best) rest first.

(** [a / b] on ints is true division into a binary64 float; both
    operands here are list lengths, far below 2^53, for which the
    conversion to float is exact and the quotient correctly rounded. *)
Definition truediv (a b : Z) : float :=
  PrimFloat.div (PrimFloat.of_uint63 (Uint63.of_Z a))
                (PrimFloat.of_uint63 (Uint63.of_Z b)).

(** The literal [0.67]: the binary64 value nearest to 67/100. *)
Definition threshold : float := 0x1.570a3d70a3d71p-1%float.

(** The three branches at lines 78-83 (and again at 131-136):
    "Fully consistent!", "Mostly consistent", "Low consistency". *)
Inductive consistency_class : Type := Full | Majority | Mixed.

Definition classify (unique consistent total : Z) : consistency_class :=
  if unique =? 1 then Full
  else if PrimFloat.leb threshold (truediv consistent total) then Majority
  else Mixed.

(** The entry stored in [results[framework]], with the class printed. *)
Record result_entry : Type := mkEntry {
  res_signature : string;
  res_count : Z;
  res_total : Z;
  res_consistency : string;
  res_unique : Z;
  res_all_signatures : list string;
  res_class : consistency_class
}.

(** Lines 53-85 for one framework; [None] when [sig_counts] is empty and
    the [if sig_counts:] body is skipped. *)
Definition analyze (sigs : list SigInfo) : option result_entry :=
  let sig_counts := count_signatures sigs in
  match sig_counts with
  | [] => None
  | item :: items =>
      let most_common := max_by snd item items in
      let total := len sigs in
      let consistent := snd most_common in
      Some {| res_signature := fst most_common;
              res_count := consistent;
              res_total := total;
              res_consistency := Fmt.str_int consistent ++ "/" ++ Fmt.str_int total;
              res_unique := len sig_counts;
              res_all_signatures := map fst sig_counts;
              res_class := classify (len sig_counts) consistent total |}
  end.

(** An observation carrying only a fingerprint. *)
Definition obs (fp : string) : SigInfo :=
  mkSigInfo fp "" "" 0 0 0 0 0.

End Aggregate.

(** ** Grouping the captures by framework ([process_all_pcaps]) *)

Module Batch.
Import Aggregate.

(** A capture file, as far as [process_all_pcaps] looks at it: the stem
    of its name and what [rdpcap] makes of it, the packets or, when it
    raises, nothing. *)
Record PcapFile : Type := mkFile {
  stem : string;
  packets : option (list Packet)
}.

(** [extract_ja4_from_pcap] from the file on: lines 162-166 of
    [ja4_improved.py] return the empty list when the file cannot be
    read. *)
Definition extract_from_file (pcap_file : PcapFile) : outcome (list SigInfo) :=
  match packets pcap_file with
  | None => Val []
  | Some pkts => Pcap.extract_ja4_from_pcap pkts
  end.

(** [s.split(sep)[0]] for a one-character separator: the part of [s]
    before the first [sep], all of [s] when there is none. *)
Fixpoint split_first (sep : ascii) (s : string) : string :=
  match s with
  | EmptyString => EmptyString
  | String c rest =>
      if Ascii.eqb c sep then EmptyString else String c (split_first sep rest)
  end.

(** [framework_signatures], a [defaultdict(list)] in insertion order. *)
Definition groups : Type := list (string * list SigInfo).

(** [d[k].extend(l)]: an existing key keeps its position, a new key
    goes last with the empty list extended. *)
Fixpoint group_extend (k : string) (l : list SigInfo) (d : groups) : groups :=
  match d with
  | [] => [(k, [] ++ l)]
  | (k', l') :: rest =>
      if String.eqb k' k then (k', l' ++ l) :: rest
      else (k', l') :: group_extend k l rest
  end.

(** [d[k] = v] on a dict. *)
Fixpoint dict_set {V : Type} (k : string) (v : V) (d : list (string * V))
    : list (string * V) :=
  match d with
  | [] => [(k, v)]
  | (k', v') :: rest =>
      if String.eqb k' k then (k', v) :: rest
      else (k', v') :: dict_set k v rest
  end.

(** Lines 33-44: one turn of [for pcap_file in pcap_files]; an empty
    list of signatures is falsy and leaves the dict untouched. *)
Definition group_file (framework_signatures : groups) (pcap_file : PcapFile)
    : outcome groups :=
  let framework := split_first "_" (stem pcap_file) in
  signatures ← extract_from_file pcap_file;
  match signatures with
  | [] => Val framework_signatures
  | _ :: _ => Val (group_extend framework signatures framework_signatures)
  end.

Fixpoint group_files (framework_signatures : groups) (pcap_files : list PcapFile)
    : outcome groups :=
  match pcap_files with
  | [] => Val framework_signatures
  | pcap_file :: rest =>
      d ← group_file framework_signatures pcap_file;
      group_files d rest
  end.

(** Lines 53-71: one turn of [for framework, sigs in ...items()]. *)
Definition analyze_group (results : list (string * result_entry))
    (item : string * list SigInfo) : list (string * result_entry) :=
  match analyze item.2 with
  | Some e => dict_set item.1 e results
  | None => results
  end.

(** Lines 22-87, given the capture files in the order of the sorted
    glob. *)
Definition process_all_pcaps (pcap_files : list PcapFile)
    : outcome (list (string * result_entry)) :=
  framework_signatures ← group_files [] pcap_files;
  Val (fold_left analyze_group framework_signatures []).

End Batch.

(** ** The database update ([update_database]) *)

Module Database.
Import Aggregate.

(** How the update ends: it returns, or the division at line 133
    raises [ZeroDivisionError], or [csv.DictWriter] raises [ValueError]
    at line 172 on a row with a column that is not one of its
    fieldnames; nothing catches either. *)
Inductive run (A : Type) : Type :=
| Returns (a : A)
| ZeroDivision
| ValueError.
Arguments Returns {A} a.
Arguments ZeroDivision {A}.
Arguments ValueError {A}.

#[global] Instance run_ret : MRet run := fun A a => Returns a.

#[global] Instance run_bind : MBind run := fun A B k m =>
  match m with
  | Returns a => k a
  | ZeroDivision => ZeroDivision
  | ValueError => ValueError
  end.

(** A row of the CSV file as [csv.DictReader] returns it when the row
    has as many cells as the header: a dict from the column names of
    the header to strings.  The file is the list of its rows; a file
    that does not exist reads as no row. *)
Definition entry : Type := gmap string string.

(** Lines 163-167. *)
Definition fieldnames : list string :=
  ["framework_name"; "version"; "language"; "http_library"; "tls_version";
   "ja4_signature"; "test_date"; "verified_runs"; "detection_rate";
   "false_positive_rate"; "notes"]%string.

(** [csv.DictWriter], with its default [extrasaction='raise'] and
    [restval='']: a row is refused when one of its keys is not a
    fieldname; otherwise what is written is the value of each
    fieldname, the empty string for a missing one. *)
Definition writable (rowdict : entry) : bool :=
  forallb (fun key => existsb (String.eqb key) fieldnames)
          (map_to_list rowdict).*1.

Definition written (rowdict : entry) : entry :=
  foldr (fun key row => <[key := default ""%string (rowdict !! key)]> row)
        ∅ fieldnames.

(** [writer.writerows(rowdicts)]: the rows reach the file one by one,
    up to the first one that is refused; the boolean tells whether all
    were written. *)
Fixpoint writerows (rowdicts : list entry) : list entry * bool :=
  match rowdicts with
  | [] => ([], true)
  | rowdict :: rest =>
      if writable rowdict
      then let '(rows, all_written) := writerows rest in
           (written rowdict :: rows, all_written)
      else ([], false)
  end.

(** Lines 103-115. *)
Definition name_map : gmap string string :=
  {[ "openai" := "OpenAI"; "anthropic" := "Anthropic"; "langchain" := "LangChain";
     "google_gemini" := "Google Gemini"; "google" := "Google Gemini";
     "cohere" := "Cohere"; "mistral" := "Mistral AI"; "together" := "Together AI";
     "llamaindex" := "LlamaIndex"; "crewai" := "CrewAI"; "ollama" := "Ollama" ]}%string.

Section update_database.

(** [str.lower] and [str.title], and the date that
    [datetime.now().strftime('%Y-%m-%d')] gives during the run. *)
Variables lower title : string -> string.
Variable today : string.

(** Line 121. *)
Definition framework_name (framework_key : string) : string :=
  match name_map !! framework_key with
  | Some name => name
  | None => title framework_key
  end.

(** The test of line 126. *)
Definition same_framework (e : entry) (framework_name : string) : bool :=
  String.eqb (lower (default ""%string (e !! "framework_name"%string)))
             (lower framework_name).

(** Lines 131-136. *)
Definition consistency_note (sig_data : result_entry) : run string :=
  if res_unique sig_data =? 1 then Returns "Fully consistent signature"%string
  else if res_total sig_data =? 0 then ZeroDivision
  else if PrimFloat.leb threshold (truediv (res_count sig_data) (res_total sig_data))
  then Returns ("Mostly consistent (" ++ res_consistency sig_data ++ ")")%string
  else Returns ("Multiple signatures found ("
                ++ Fmt.str_int (res_unique sig_data) ++ " unique)")%string.

(** Lines 127-138: the matching row is updated in place. *)
Definition update_entry (e : entry) (sig_data : result_entry) : run entry :=
  let e := <["ja4_signature"%string := res_signature sig_data]> e in
  let e := <["verified_runs"%string := res_consistency sig_data]> e in
  let e := <["test_date"%string := today]> e in
  consistency_note ← consistency_note sig_data;
  Returns (<["notes"%string :=
               ("Improved JA4 extraction. " ++ Fmt.str_int (res_total sig_data)
                ++ " handshake(s). " ++ consistency_note
                ++ ". Note: Improved parsing (not full JA4 spec, but better than simplified).")%string]> e).

(** Lines 124-142: [for entry in existing_entries] up to its [break];
    [None] is [found = False] at the end of the loop. *)
Fixpoint update_first (framework_name : string) (sig_data : result_entry)
    (existing_entries : list entry) : run (option (list entry)) :=
  match existing_entries with
  | [] => Returns None
  | e :: rest =>
      if same_framework e framework_name
      then e' ← update_entry e sig_data; Returns (Some (e' :: rest))
      else found ← update_first framework_name sig_data rest;
           Returns (option_map (cons e) found)
  end.

(** Lines 145-157. *)
Definition new_entry (framework_name : string) (sig_data : result_entry) : entry :=
  {[ "framework_name" := framework_name; "version" := "TBD";
     "language" := "Python"; "http_library" := "TBD"; "tls_version" := "1.3";
     "ja4_signature" := res_signature sig_data; "test_date" := today;
     "verified_runs" := res_consistency sig_data; "detection_rate" := "TBD";
     "false_positive_rate" := "TBD";
     "notes" := ("Improved JA4 extraction. " ++ Fmt.str_int (res_total sig_data)
                 ++ " handshake(s).") ]}%string.

(** The rows and the two counters [updated] and [added]. *)
Definition db_state : Type := list entry * Z * Z.

(** Lines 120-160: one turn of [for framework_key, sig_data in
    results.items()]. *)
Definition update_one (st : db_state) (item : string * result_entry) : run db_state :=
  let '(existing_entries, updated, added) := st in
  let framework_name := framework_name item.1 in
  found ← update_first framework_name item.2 existing_entries;
  match found with
  | Some entries => Returns (entries, updated + 1, added)
  | None =>
      Returns (existing_entries ++ [new_entry framework_name item.2],
               updated, added + 1)
  end.

Fixpoint update_all (st : db_state) (results : list (string * result_entry))
    : run db_state :=
  match results with
  | [] => Returns st
  | item :: rest => st' ← update_one st item; update_all st' rest
  end.

(** Lines 117-160, between reading the rows and writing them back. *)
Definition update_rows (existing_entries : list entry)
    (results : list (string * result_entry)) : run db_state :=
  update_all (existing_entries, 0, 0) results.

(** Lines 89-177: the rows are read from the file, updated, and written
    back.  The result is the rows the file holds afterwards and how the
    function ended, with the counters [updated] and [added] it prints
    when it returns.  When the loop raises, the file has not been
    opened for writing yet; [open(DB_FILE, 'w')] empties it, and it
    then gets the rows written before the exception, if any. *)
Definition update_database (file : list entry)
    (results : list (string * result_entry)) : list entry * run (Z * Z) :=
  match update_rows file results with
  | Returns (existing_entries, updated, added) =>
      match writerows existing_entries with
      | (rows, true) => (rows, Returns (updated, added))
      | (rows, false) => (rows, ValueError)
      end
  | ZeroDivision => (file, ZeroDivision)
  | ValueError => (file, ValueError)
  end.

End update_database.

End Database.

(** ** Sample buffers *)

Module Samples.

(** A well-formed ClientHello record: record version 0x0301, client
    version 0x0303, empty session id, cipher suites 0x1301..0x1304, one
    null compression method, extensions 0 (3 bytes), 16 ("h2"), 11
    (empty), 10 (1 byte).  The 32-byte random is zero except for its
    31st byte, which is 2. *)
Definition hello : list byte :=
  [x16; x03; x01; x00; x4b;  x01; x00; x00; x47;  x03; x03;
   x00; x00; x00; x00; x00; x00; x00; x00; x00; x00; x00; x00; x00; x00; x00; x00;
   x00; x00; x00; x00; x00; x00; x00; x00; x00; x00; x00; x00; x00; x00; x02; x00;
   x00;  x00; x08; x13; x01; x13; x02; x13; x03; x13; x04;  x01; x00;
   x00; x16;  x00; x00; x00; x03; x00; x01; x02;  x00; x10; x00; x02; x68; x32;
   x00; x0b; x00; x00;  x00; x0a; x00; x01; x01].

(** A well-formed ClientHello record with an all-zero random, the
    one-byte session id [ff], the cipher suite 0x1301, one null
    compression method and an empty extensions block. *)
Definition hello_session : list byte :=
  [x16; x03; x01; x00; x30;  x01; x00; x00; x2c;  x03; x03;
   x00; x00; x00; x00; x00; x00; x00; x00; x00; x00; x00; x00; x00; x00; x00; x00;
   x00; x00; x00; x00; x00; x00; x00; x00; x00; x00; x00; x00; x00; x00; x00; x00;
   x01; xff;  x00; x02; x13; x01;  x01; x00;  x00; x00].

(** As [hello] up to the session id, then a cipher-suite block whose
    declared length is 3, followed by the bytes 13 01 13 02, a
    compression block 01 00 and an empty extensions block. *)
Definition hello_odd : list byte :=
  [x16; x03; x01; x00; x31;  x01; x00; x00; x2d;  x03; x03;
   x00; x00; x00; x00; x00; x00; x00; x00; x00; x00; x00; x00; x00; x00; x00; x00;
   x00; x00; x00; x00; x00; x00; x00; x00; x00; x00; x00; x00; x00; x00; x02; x00;
   x00;  x00; x03; x13; x01; x13; x02;  x01; x00;  x00; x00].

(** As [hello] up to the session id, then the cipher suite 0x1301, a
    null compression method, an extensions block whose declared length
    is 1, and after it the six bytes of an ALPN extension. *)
Definition hello_short_block : list byte :=
  [x16; x03; x01; x00; x35;  x01; x00; x00; x31;  x03; x03;
   x00; x00; x00; x00; x00; x00; x00; x00; x00; x00; x00; x00; x00; x00; x00; x00;
   x00; x00; x00; x00; x00; x00; x00; x00; x00; x00; x00; x00; x00; x00; x02; x00;
   x00;  x00; x02; x13; x01;  x01; x00;  x00; x01;  x00; x10; x00; x02; x68; x32].

(** A parse result with 150 cipher suites and a version outside the
    version map. *)
Definition many_ciphers : TlsData :=
  {| version := 0x0305; cipher_suites := repeat 0x1301 150;
     extensions := [0; 16]; alpn := true; sni := false; valid := true |}.


(** The shortest buffer that parses: the record and handshake headers,
    32 skipped bytes, a zero session-id length, a zero cipher-suite
    length, a zero compression length and a zero extensions length. *)
Definition hello_min : list byte :=
  [x16; x03; x01; x00; x2a;  x01; x00; x00; x26] ++ repeat x00 32
  ++ [x00;  x00; x00;  x00;  x00; x00].

(** An application-data record. *)
Definition data_record : list byte := [x17; x03; x03; x00; x02; x00; x00].


(** [hello] with other bytes in the record length, the handshake length
    and the 32 skipped bytes. *)
Definition hello_other_random : list byte :=
  [x16; x03; x01; xff; xff;  x01; xaa; xbb; xcc;  x03; x04;
   x11; x22; x33; x44; x55; x66; x77; x88; x99; xaa; xbb; xcc; xdd; xee; xff; x10;
   x20; x30; x40; x50; x60; x70; x80; x90; xa0; xb0; xc0; xd0; xe0; xf0; x02; x00;
   x00;  x00; x08; x13; x01; x13; x02; x13; x03; x13; x04;  x01; x00;
   x00; x16;  x00; x00; x00; x03; x00; x01; x02;  x00; x10; x00; x02; x68; x32;
   x00; x0b; x00; x00;  x00; x0a; x00; x01; x01].

(** The extensions of [hello]: type and data. *)
Definition hello_extensions : list (Z * list byte) :=
  [(0, [x00; x01; x02]); (16, [x68; x32]); (11, []); (10, [x01])].

End Samples.

(** * Vocabulary of the statements *)

(** ** Vocabulary for the aggregation statements *)

Module AggregateSpec.
Import Aggregate.

(** Number of occurrences of a fingerprint in the supplied list. *)
Fixpoint occ (k : string) (ks : list string) : Z :=
  match ks with
  | [] => 0
  | x :: rest => (if String.eqb x k then 1 else 0) + occ k rest
  end.

(** The dict after the counting loop, as a function of the keys fed. *)
Definition tally (ks : list string) : counts :=
  fold_left (fun d k => incr k d) ks [].

(** What the counting loop establishes: keys are unique, every stored
    count is the (positive) number of occurrences, every fingerprint fed
    has a key, and keys sit in order of first occurrence. *)
Record tally_inv (ks : list string) (d : counts) : Prop := {
  inv_nodup : NoDup d.*1;
  inv_count : forall k n, (k, n) ∈ d -> n = occ k ks /\ 0 < n;
  inv_keys : forall k, k ∈ ks -> k ∈ d.*1;
  inv_order : forall k1 a k2, d.*1 = k1 ++ a :: k2 ->
      exists pre post, ks = pre ++ a :: post /\ forall x, x ∈ pre -> x ∈ k1
}.


(** The float test [consistent / total >= 0.67] against the exact test
    on integers, for one total and every count up to it. *)
Definition threshold_agrees (total : nat) : bool :=
  forallb (fun c =>
             Bool.eqb (PrimFloat.leb threshold (truediv (Z.of_nat c) (Z.of_nat total)))
                      (67 * Z.of_nat total <=? 100 * Z.of_nat c))
          (seq 0 (S total)).

End AggregateSpec.

(** ** Vocabulary for the parser statements *)

Module ParserSpec.

(** The byte at an index and the big-endian 16-bit value at an index,
    as plain functions of the buffer. *)
Definition byte_at (raw : list byte) (i : Z) : Z :=
  byte_val (nth (Z.to_nat i) raw x00).

Definition u16_at (raw : list byte) (i : Z) : Z :=
  byte_at raw i * 256 + byte_at raw (i + 1).

(** The cipher codes at [o], [o+2], ... *)
Definition codes (raw : list byte) (o : Z) (n : nat) : list Z :=
  map (fun k => u16_at raw (o + 2 * Z.of_nat k)) (seq 0 n).

(** How many turns the [for] loop completes before [break] or the end
    of the range: the smaller of the range length and the number of
    whole byte pairs left in the buffer. *)
Definition pairs_read (raw : list byte) (o : Z) (n : Z) : nat :=
  Z.to_nat (Z.min n (Z.max 0 ((len raw - o) / 2))).

(** Exit offsets of the first three blocks when entered at offset 9,
    and the number of cipher codes read. *)
Definition o1 (raw : list byte) : Z := 42 + byte_at raw 41.
Definition nc (raw : list byte) : nat :=
  pairs_read raw (o1 raw + 2) ((u16_at raw (o1 raw) + 1) / 2).
Definition o2 (raw : list byte) : Z := o1 raw + 2 + 2 * Z.of_nat (nc raw).
Definition o3 (raw : list byte) : Z := o2 raw + (1 + byte_at raw (o2 raw)).

(** All the [return None] guards of the [try] block are passed. *)
Definition reaches (raw : list byte) : bool :=
  (41 <? len raw) && (o1 raw + 1 <? len raw)
  && (o2 raw <? len raw) && (o3 raw + 1 <? len raw).

(** The extension headers the loop visits: from [eo], while the index
    is before [stop] and the four bytes of a header lie in the buffer,
    the index and the type of the header there, then on to the index
    four bytes and the declared data length further.  Every step
    advances by four bytes at least, so [length raw] steps are enough;
    [ext_headers] starts at the extensions block and stops at its
    declared end. *)
Fixpoint ext_walk (fuel : nat) (raw : list byte) (stop eo : Z) : list (Z * Z) :=
  match fuel with
  | O => []
  | S fuel' =>
      if (eo <? stop) && (eo + 4 <=? len raw)
      then (eo, u16_at raw eo)
           :: ext_walk fuel' raw stop (eo + 4 + u16_at raw (eo + 2))
      else []
  end.

Definition ext_headers (raw : list byte) : list (Z * Z) :=
  ext_walk (length raw) raw (o3 raw + 2 + u16_at raw (o3 raw)) (o3 raw + 2).

(** The first three blocks and the guard of the fourth: the index at
    which the extensions block starts. *)
Definition ext_block_start (raw : list byte) : outcome Z :=
  offset ← read_session_id raw 9;
  r ← read_cipher_suites raw offset;
  offset ← read_compression raw r.2;
  if len raw <=? offset + 1 then ReturnNone else Val (offset + 2).


(** The byte of value [z], the two big-endian bytes of a 16-bit value,
    and an extension on the wire: type, length of the data, data. *)
Definition byte_of (z : Z) : byte :=
  match Byte.of_N (Z.to_N z) with
  | Some b => b
  | None => x00
  end.

Definition be16 (v : Z) : list byte := [byte_of (v / 256); byte_of (v mod 256)].

Definition ext_wire (e : Z * list byte) : list byte :=
  be16 e.1 ++ be16 (len e.2) ++ e.2.

Definition exts_wire (es : list (Z * list byte)) : list byte :=
  concat (map ext_wire es).


(** A record laid out the way the parser reads it: the record type
    0x16, the version, two bytes, the handshake type 0x01, 35 bytes
    that are skipped, the session id after its length, the cipher codes
    after their length in bytes, the compression methods after their
    length, the extensions after the length of their block, and
    whatever follows. *)
Definition codes_wire (cs : list Z) : list byte := concat (map be16 cs).

Definition hello_wire (v : Z) (l2 l35 session_id : list byte) (cs : list Z)
    (compression : list byte) (es : list (Z * list byte)) (post : list byte)
    : list byte :=
  [x16] ++ be16 v ++ l2 ++ [x01] ++ l35
  ++ [byte_of (len session_id)] ++ session_id
  ++ be16 (2 * len cs) ++ codes_wire cs
  ++ [byte_of (len compression)] ++ compression
  ++ be16 (len (exts_wire es)) ++ exts_wire es ++ post.

End ParserSpec.

(** ** Vocabulary for the encoder statements *)

Module EncoderSpec.

(** The version tag as the specification words it. *)
Definition version_tag (v : Z) : string :=
  if v =? 0x0301 then "t10"
  else if v =? 0x0302 then "t11"
  else if v =? 0x0303 then "t12"
  else if v =? 0x0304 then "t13"
  else "t13".

(** The decimal digit [d] as a character, and a number below 100 as
    exactly two digits. *)
Definition digit (d : Z) : ascii := ascii_of_N (Z.to_N (48 + d)).

Definition two_digits (n : Z) : string :=
  String (digit (n / 10)) (String (digit (n mod 10)) EmptyString).


(** The lowercase hexadecimal digits, and strings made of them. *)
Definition is_hex (c : ascii) : bool :=
  existsb (Ascii.eqb c) (list_ascii_of_string "0123456789abcdef").

Definition all_hex (s : string) : bool :=
  forallb is_hex (list_ascii_of_string s).

(** The three parts of a fingerprint: the prefix before the first
    underscore, and for each of the two lists the string that is hashed
    and the segment kept of its hash. *)
Definition part1 (d : TlsData) : string :=
  (version_tag (version d) ++ (if sni d then "d" else "i")
   ++ two_digits (Z.min (len (cipher_suites d)) 99)
   ++ two_digits (Z.min (len (extensions d)) 99)
   ++ (if alpn d then "h2" else "00"))%string.

Definition hashed (l : list Z) : string :=
  String.concat "," (map Fmt.fmt_04x (sorted l)).

Definition segment (l : list Z) : string :=
  str_prefix 12 (Sha256.hexdigest (encode (hashed l))).

(** [k] zero digits in front of a hexadecimal number. *)
Definition lead_zeros (k : nat) (u : Hexadecimal.uint) : Hexadecimal.uint :=
  Nat.iter k Hexadecimal.D0 u.


(** What may follow an item in a comma-separated string: nothing, or a
    comma and the rest. *)
Definition sep_tail (r : string) : Prop :=
  r = ""%string \/ exists r', r = String ","%char r'.

(** A non-empty string of hexadecimal digits. *)
Definition hex_item (s : string) : Prop :=
  all_hex s = true /\ s <> ""%string.

End EncoderSpec.

(** ** Vocabulary for the connection-filter statements *)

Module PcapSpec.
Import Pcap Samples.

(** The flow a packet belongs to: the sorted pair of its endpoints.  It
    is defined for packets with an IP and a TCP layer. *)
Definition flow_key (pkt : Packet) : option (list endpoint) :=
  match pkt_ip pkt, pkt_tcp pkt with
  | Some ip, Some tcp =>
      Some (conn_id (ip_src ip, tcp_sport tcp) (ip_dst ip, tcp_dport tcp))
  | _, _ => None
  end.

(** One of the two ports is 443. *)
Definition on_443 (pkt : Packet) : bool :=
  match pkt_tcp pkt with
  | Some tcp => (tcp_dport tcp =? 443) || (tcp_sport tcp =? 443)
  | None => false
  end.

(** The observation a packet carries, taken alone: defined when the
    packet has all three layers and its payload parses as a
    ClientHello. *)
Definition observation (pkt : Packet) : option SigInfo :=
  match pkt_ip pkt, pkt_tcp pkt, pkt_raw pkt with
  | Some ip, Some tcp, Some raw_data =>
      match parse_tls_client_hello raw_data with
      | Val tls_data =>
          Some {| signature := calculate_ja4_improved tls_data;
                  src := ip_src ip; dst := ip_dst ip;
                  sport := tcp_sport tcp; dport := tcp_dport tcp;
                  sig_version := version tls_data;
                  ciphers := len (cipher_suites tls_data);
                  sig_extensions := len (extensions tls_data) |}
      | _ => None
      end
  | _, _, _ => None
  end.

(** The flow recorded in an emitted observation. *)
Definition sig_flow (s : SigInfo) : list endpoint :=
  conn_id (src s, sport s) (dst s, dport s).

(** One turn of the loop without the exception plumbing. *)
Definition step (st : state) (pkt : Packet) : state :=
  match flow_key pkt, observation pkt with
  | Some k, Some s =>
      if on_443 pkt && negb (bool_decide (k ∈ st.2))
      then (st.1 ++ [s], {[k]} ∪ st.2)
      else st
  | _, _ => st
  end.

(** Sample packets: a ClientHello from a client to a server on port
    443, a packet of the same flow in the other direction, a ClientHello
    on another flow, one on port 8443, and a packet of the first flow
    whose payload is not a handshake record. *)
Definition client_hello_pkt : Packet :=
  mkPacket (Some (mkIP "10.0.0.2" "93.184.216.34")) (Some (mkTCP 50000 443)) (Some hello).
Definition reverse_pkt : Packet :=
  mkPacket (Some (mkIP "93.184.216.34" "10.0.0.2")) (Some (mkTCP 443 50000)) (Some hello).
Definition other_flow_pkt : Packet :=
  mkPacket (Some (mkIP "10.0.0.2" "93.184.216.34")) (Some (mkTCP 50001 443)) (Some hello).
Definition port_8443_pkt : Packet :=
  mkPacket (Some (mkIP "10.0.0.2" "93.184.216.34")) (Some (mkTCP 50002 8443)) (Some hello).
Definition data_pkt : Packet :=
  mkPacket (Some (mkIP "10.0.0.2" "93.184.216.34")) (Some (mkTCP 50000 443))
           (Some [x17; x03; x03; x00; x02; x00; x00]).

(** The flow of [client_hello_pkt] and [reverse_pkt]. *)
Definition sig_flow_of_sample : list endpoint :=
  conn_id ("10.0.0.2"%string, 50000) ("93.184.216.34"%string, 443).

(** What holds of the state after the packets [pre]. *)
Record loop_inv (pre : list Packet) (st : state) : Prop := {
  seen_are_flows : forall k, k ∈ st.2 <-> k ∈ map sig_flow st.1;
  flows_nodup : NoDup (map sig_flow st.1);
  flows_origin : forall s, s ∈ st.1 ->
      exists l1 p l2, pre = l1 ++ p :: l2 /\ observation p = Some s
        /\ on_443 p = true
        /\ forall q, q ∈ l1 -> flow_key q = flow_key p -> observation q = None;
  flows_marked : forall q k s, q ∈ pre -> flow_key q = Some k ->
      observation q = Some s -> on_443 q = true -> k ∈ st.2
}.


(** The packets of the flows selected by [keep]; a packet without an IP
    or TCP layer belongs to no flow. *)
Definition of_flows (keep : list endpoint -> bool) (pkt : Packet) : bool :=
  match flow_key pkt with
  | Some k => keep k
  | None => false
  end.

(** The loop run on a capture and on its restriction to the selected
    flows: the same observations of those flows, the same seen flows
    among those selected. *)
Definition restricts (keep : list endpoint -> bool) (st st' : state) : Prop :=
  st'.1 = List.filter (fun s => keep (sig_flow s)) st.1
  /\ forall k, keep k = true -> (k ∈ st'.2 <-> k ∈ st.2).

End PcapSpec.

(** ** Vocabulary for the grouping statements *)

Module BatchSpec.
Import Aggregate Batch.

(** The framework a capture file is filed under. *)
Definition framework_of (f : PcapFile) : string := split_first "_" (stem f).

(** The observations [extract_ja4_from_pcap] returns for a file. *)
Definition observations_of (f : PcapFile) : list SigInfo :=
  match extract_from_file f with
  | Val l => l
  | _ => []
  end.

(** The observations of the files of one framework, in file order. *)
Definition framework_observations (fw : string) (files : list PcapFile)
    : list SigInfo :=
  concat (map observations_of
              (List.filter (fun f => String.eqb (framework_of f) fw) files)).

(** [d.get(k, [])]. *)
Fixpoint group_get (k : string) (d : groups) : list SigInfo :=
  match d with
  | [] => []
  | (k', l) :: rest => if String.eqb k' k then l else group_get k rest
  end.

(** One turn of the grouping loop without the exception plumbing. *)
Definition group_step (g : groups) (f : PcapFile) : groups :=
  match observations_of f with
  | [] => g
  | _ :: _ => group_extend (framework_of f) (observations_of f) g
  end.

(** What holds of [framework_signatures] after the files [files]. *)
Record group_inv (files : list PcapFile) (g : groups) : Prop := {
  groups_nodup : NoDup g.*1;
  groups_nonempty : Forall (fun kl => kl.2 <> []) g;
  groups_content : forall fw, group_get fw g = framework_observations fw files
}.

(** Sample capture files: two of one framework, one of another whose
    name has two words, one without any handshake, one unreadable. *)
Definition sample_files : list PcapFile :=
  [ mkFile "openai_20251228_120000"
           (Some [PcapSpec.client_hello_pkt; PcapSpec.reverse_pkt]);
    mkFile "google_gemini_20251228_120500" (Some [PcapSpec.other_flow_pkt]);
    mkFile "openai_20251228_121000" (Some [PcapSpec.client_hello_pkt]);
    mkFile "cohere_20251228_121500" (Some [PcapSpec.data_pkt]);
    mkFile "mistral_20251228_122000" None ].

(** A single capture file holding one handshake. *)
Definition sample_file : PcapFile :=
  mkFile "ai21_20251228_123000" (Some [PcapSpec.client_hello_pkt]).

End BatchSpec.

(** ** Vocabulary for the database statements *)

Module DatabaseSpec.
Import Aggregate Database.

(** The framework name of a row, if it has that column. *)
Definition name_of (e : entry) : option string := e !! "framework_name"%string.

(** The name in a row matches a framework name, case apart. *)
Definition matches (lower : string -> string) (framework_name : string)
    (name : option string) : Prop :=
  lower (default ""%string name) = lower framework_name.

(** The columns an update writes, and a row that differs from another
    in those columns at most. *)
Definition updated_columns : list string :=
  ["ja4_signature"; "verified_runs"; "test_date"; "notes"]%string.

Definition keeps (e e' : entry) : Prop :=
  forall col, col ∉ updated_columns -> e' !! col = e !! col.

(** What the update loop may do to a row, given the framework names
    the results are filed under: the other columns are kept, the row
    can be written exactly when it could, and a row that matches none
    of the names is left as it is. *)
Definition row_update (lower : string -> string) (names : list string)
    (e e' : entry) : Prop :=
  keeps e e'
  /\ writable e' = writable e
  /\ (Forall (fun name => same_framework lower e name = false) names -> e' = e).

(** [row.get(col, '')]: the text of a cell, empty when the row has no
    such column. *)
Definition cell (e : entry) (col : string) : string :=
  default ""%string (e !! col).

(** A row of the file before the update and the row at its place
    afterwards: the cells outside the updated columns are the same,
    and all of them when the name matches no framework of the
    results. *)
Definition row_kept (lower title : string -> string)
    (results : list (string * result_entry)) (e e' : entry) : Prop :=
  (forall col, col ∉ updated_columns -> cell e' col = cell e col)
  /\ (Forall (fun item =>
                same_framework lower e (framework_name title item.1) = false)
             results ->
      forall col, cell e' col = cell e col).

(** [str.lower] and [str.title] on ASCII strings. *)
Definition is_upper (c : ascii) : bool :=
  (65 <=? nat_of_ascii c)%nat && (nat_of_ascii c <=? 90)%nat.
Definition is_lower (c : ascii) : bool :=
  (97 <=? nat_of_ascii c)%nat && (nat_of_ascii c <=? 122)%nat.
Definition to_lower (c : ascii) : ascii :=
  if is_upper c then ascii_of_nat (nat_of_ascii c + 32) else c.
Definition to_upper (c : ascii) : ascii :=
  if is_lower c then ascii_of_nat (nat_of_ascii c - 32) else c.

Fixpoint ascii_lower (s : string) : string :=
  match s with
  | EmptyString => EmptyString
  | String c rest => String (to_lower c) (ascii_lower rest)
  end.

Fixpoint title_from (previous_is_cased : bool) (s : string) : string :=
  match s with
  | EmptyString => EmptyString
  | String c rest =>
      if is_lower c
      then String (if previous_is_cased then c else to_upper c) (title_from true rest)
      else if is_upper c
      then String (if previous_is_cased then to_lower c else c) (title_from true rest)
      else String c (title_from false rest)
  end.

Definition ascii_title (s : string) : string := title_from false s.

(** A database of two rows, and the results for three frameworks: one
    in the database under its mapped name, one under its own name in
    another case, one new. *)
Definition sample_rows : list entry :=
  [ {[ "framework_name" := "OpenAI"; "ja4_signature" := "old" ]};
    {[ "framework_name" := "COHERE"; "ja4_signature" := "old" ]} ]%string.

Definition sample_result (fp : string) (count total unique : Z) : result_entry :=
  {| res_signature := fp; res_count := count; res_total := total;
     res_consistency := (Fmt.str_int count ++ "/" ++ Fmt.str_int total)%string;
     res_unique := unique; res_all_signatures := [fp];
     res_class := classify unique count total |}.

Definition other_row : entry :=
  {[ "framework_name" := "Ollama"; "notes" := "kept" ]}%string.

(** A row with the column [simplified_ja4], which is not a fieldname of
    this script. *)
Definition legacy_row : entry :=
  {[ "framework_name" := "OpenAI"; "simplified_ja4" := "t13d_legacy" ]}%string.

Definition new_result : string * result_entry :=
  ("ai21"%string, sample_result "t13d1516h2_eeeeeeeeeeee_ffffffffffff" 1 1 1).

Definition sample_analysis : list (string * result_entry) :=
  [ ("openai", sample_result "t13d1516h2_aaaaaaaaaaaa_bbbbbbbbbbbb" 3 3 1);
    ("cohere", sample_result "t13d1516h2_cccccccccccc_dddddddddddd" 2 3 2);
    ("ai21", sample_result "t13d1516h2_eeeeeeeeeeee_ffffffffffff" 1 1 1) ]%string.

End DatabaseSpec.

(** * Properties *)

(** ** Aggregation *)

Module AggregateFacts.
Import AggregateSpec.
Import Aggregate.

Lemma occ_app k l1 l2 : occ k (l1 ++ l2) = occ k l1 + occ k l2.
Proof. induction l1 as [|x l1 IH]; simpl; lia. Qed.

Lemma occ_nonneg k l : 0 <= occ k l.
Proof. induction l as [|x l IH]; simpl; [lia|]. destruct (String.eqb x k); lia. Qed.

Lemma occ_pos k l : 0 < occ k l <-> k ∈ l.
Proof.
  induction l as [|x l IH]; simpl.
  - split; [lia|]. intros H. inversion H.
  - pose proof (occ_nonneg k l). rewrite elem_of_cons.
    destruct (String.eqb_spec x k) as [->|Hne].
    + split; [auto|lia].
    + rewrite <- IH. split; [intros; right; lia|]. intros [->|?]; [done|lia].
Qed.

Lemma occ_snoc_same k l : occ k (l ++ [k]) = occ k l + 1.
Proof. rewrite occ_app. simpl. rewrite String.eqb_refl. lia. Qed.

Lemma occ_snoc_other k k' l : k' <> k -> occ k (l ++ [k']) = occ k l.
Proof.
  intros Hne. rewrite occ_app. simpl.
  destruct (String.eqb_spec k' k); [done|lia].
Qed.

Lemma count_signatures_tally sigs :
  count_signatures sigs = tally (map signature sigs).
Proof.
  unfold count_signatures, tally. generalize (@nil (string * Z)).
  induction sigs as [|s sigs IH]; intros d; simpl; [done|apply IH].
Qed.

Lemma tally_snoc ks k : tally (ks ++ [k]) = incr k (tally ks).
Proof. unfold tally. by rewrite fold_left_app. Qed.

Lemma keys_incr k (d : counts) :
  (incr k d).*1 = if decide (k ∈ d.*1) then d.*1 else d.*1 ++ [k].
Proof.
  induction d as [|[k' n] d IH]; csimpl.
  - done.
  - destruct (String.eqb_spec k' k) as [->|Hne]; csimpl.
    + rewrite decide_True; [done|apply elem_of_cons; auto].
    + rewrite IH. destruct (decide (k ∈ d.*1)).
      * rewrite decide_True; [done|apply elem_of_cons; auto].
      * rewrite decide_False; [done|rewrite elem_of_cons; intros [->|?]; done].
Qed.

Lemma elem_incr k k' n' (d : counts) :
  NoDup d.*1 ->
  (k', n') ∈ incr k d ->
  (k' <> k /\ (k', n') ∈ d)
  \/ (k' = k /\ ((k, n' - 1) ∈ d \/ (n' = 1 /\ k ∉ d.*1))).
Proof.
  induction d as [|[k0 n0] d IH]; csimpl; intros Hnd.
  - intros H. apply list_elem_of_singleton in H as [= -> ->].
    right. split; [done|]. right. split; [done|]. intros H; inversion H.
  - apply NoDup_cons in Hnd as [Hk0 Hnd].
    destruct (String.eqb_spec k0 k) as [->|Hne].
    + intros Hin. apply elem_of_cons in Hin as [Heq|Hin]; [injection Heq as -> ->|].
      * right. split; [done|]. left. replace (n0 + 1 - 1) with n0 by lia.
        apply elem_of_cons; by left.
      * left. split; [|apply elem_of_cons; by right]. intros ->. apply Hk0.
        apply list_elem_of_fmap. by exists (k, n').
    + intros Hin. apply elem_of_cons in Hin as [Heq|Hin]; [injection Heq as -> ->|].
      * left. split; [done|]. apply elem_of_cons; by left.
      * destruct (IH Hnd Hin) as [[Hk Hd]|[-> [Hd|[-> Hd]]]].
        -- left. split; [done|]. apply elem_of_cons; by right.
        -- right. split; [done|]. left. apply elem_of_cons; by right.
        -- right. split; [done|]. right. split; [done|].
           rewrite elem_of_cons. intros [->|?]; done.
Qed.

Lemma tally_inv_step ks d k :
  tally_inv ks d -> tally_inv (ks ++ [k]) (incr k d).
Proof.
  intros [Hnd Hcnt Hkeys Hord]. split.
  - rewrite keys_incr. case_decide; [done|].
    apply NoDup_app. split; [done|]. split; [|apply NoDup_singleton].
    intros x Hx Hx'. apply list_elem_of_singleton in Hx' as ->. done.
  - intros k' n' Hin. apply elem_incr in Hin; [|done].
    destruct Hin as [[Hne Hin]|[-> [Hin|[-> Hnin]]]].
    + rewrite occ_snoc_other by done. by apply Hcnt.
    + rewrite occ_snoc_same. apply Hcnt in Hin. lia.
    + rewrite occ_snoc_same. split; [|lia].
      assert (~ 0 < occ k ks) by (rewrite occ_pos; intros ?; by apply Hnin, Hkeys).
      pose proof (occ_nonneg k ks). lia.
  - intros k' Hk'. rewrite keys_incr.
    apply elem_of_app in Hk' as [Hk'|Hk'%list_elem_of_singleton].
    + case_decide; [|apply elem_of_app; left]; by apply Hkeys.
    + subst. case_decide; [done|]. apply elem_of_app. right. apply list_elem_of_singleton. done.
  - intros k1 a k2. rewrite keys_incr. case_decide as Hin.
    + intros Heq. destruct (Hord _ _ _ Heq) as (pre & post & -> & Hpre).
      exists pre, (post ++ [k]). split; [|done]. by rewrite <- app_assoc.
    + destruct k2 as [|y k2 _] using rev_ind.
      * intros [<- <-]%app_inj_tail. exists ks, []. split; [done|]. apply Hkeys.
      * rewrite app_comm_cons, app_assoc. intros [Heq ->]%app_inj_tail.
        destruct (Hord _ _ _ Heq) as (pre & post & -> & Hpre).
        exists pre, (post ++ [y]). split; [|done]. by rewrite <- app_assoc.
Qed.

Lemma tally_inv_holds ks : tally_inv ks (tally ks).
Proof.
  induction ks as [|k ks IH] using rev_ind.
  - split; simpl.
    + apply NoDup_nil_2.
    + intros k n H. inversion H.
    + intros k H. inversion H.
    + intros k1 a k2 H. by destruct k1.
  - rewrite tally_snoc. by apply tally_inv_step.
Qed.

(** [max] returns the first item whose key is maximal. *)
Lemma max_by_first {A : Type} (key : A -> Z) (first : A) (rest : list A) :
  exists l1 l2, first :: rest = l1 ++ max_by key first rest :: l2
    /\ (forall x, x ∈ l1 -> key x < key (max_by key first rest))
    /\ (forall x, x ∈ l2 -> key x <= key (max_by key first rest)).
Proof.
  induction rest as [|y rest IH] using rev_ind.
  - exists [], []. split; [done|]. split; intros x H; inversion H.
  - destruct IH as (l1 & l2 & Heq & Hlt & Hle).
    unfold max_by in *. rewrite fold_left_app. simpl.
    set (b := fold_left _ rest first) in *.
    destruct (Z.ltb_spec (key b) (key y)) as [Hby|Hby].
    + exists (first :: rest), []. split; [done|]. split.
      * intros x Hx. rewrite Heq in Hx.
        apply elem_of_app in Hx as [Hx|Hx]; [apply Hlt in Hx; lia|].
        apply elem_of_cons in Hx as [->|Hx]; [lia|apply Hle in Hx; lia].
      * intros x H; inversion H.
    + exists l1, (l2 ++ [y]). split.
      * rewrite app_comm_cons, Heq. by rewrite <- app_assoc.
      * split; [done|]. intros x [Hx|Hx%list_elem_of_singleton]%elem_of_app; [by apply Hle|by subst].
Qed.


(** C3 (as stated, refuted): on the tie ["B","A"] the dominant
    fingerprint is "B", although "A" has the same count and is
    lexicographically smaller; on ["A","B"] it is "A", so the result
    depends on the order of supply. *)
Lemma c3_tie_not_lexicographic :
  exists e e', analyze (map obs ["B"; "A"]%string) = Some e
    /\ analyze (map obs ["A"; "B"]%string) = Some e'
    /\ occ "A" ["B"; "A"]%string = res_count e
    /\ occ "B" ["B"; "A"]%string = res_count e
    /\ String.ltb "A" (res_signature e) = true
    /\ res_signature e <> res_signature e'.
Proof.
  do 2 eexists. split; [vm_compute; reflexivity|].
  split; [vm_compute; reflexivity|].
  cbn [res_signature res_count]. repeat split; try reflexivity. discriminate.
Qed.

(** C3 (amended): for every non-empty list of fingerprints the dominant
    fingerprint has the maximum occurrence count, and among the
    fingerprints tied at the maximum it is the one that occurs first in
    the supplied list: every fingerprint supplied before its first
    occurrence has a strictly smaller count. *)
Theorem c3_dominant_is_first_maximal (sigs : list SigInfo) :
  sigs <> [] ->
  exists e pre post,
    analyze sigs = Some e
    /\ map signature sigs = pre ++ res_signature e :: post
    /\ res_count e = occ (res_signature e) (map signature sigs)
    /\ (forall x, x ∈ pre -> occ x (map signature sigs) < res_count e)
    /\ (forall x, occ x (map signature sigs) <= res_count e).
Proof.
  intros Hne. unfold analyze. rewrite count_signatures_tally.
  set (ks := map signature sigs).
  pose proof (tally_inv_holds ks) as [Hnd Hcnt Hkeys Hord].
  destruct (tally ks) as [|item items] eqn:Hd.
  { destruct sigs as [|s sigs]; [done|]. exfalso.
    assert (Hs : signature s ∈ ks) by (apply elem_of_cons; by left).
    apply Hkeys in Hs. inversion Hs. }
  destruct (max_by_first snd item items) as (l1 & l2 & Heq & Hlt & Hle).
  set (b := max_by snd item items) in *.
  assert (Hb : (b.1, b.2) ∈ item :: items).
  { rewrite Heq, <- surjective_pairing. apply elem_of_app. right.
    apply elem_of_cons. by left. }
  destruct (Hcnt _ _ Hb) as [Hbn Hbpos].
  destruct (Hord l1.*1 b.1 l2.*1) as (pre & post & Hks & Hpre).
  { by rewrite Heq, fmap_app, fmap_cons. }
  eexists; exists pre, post. split; [reflexivity|].
  cbn [res_signature res_count]. fold ks.
  split; [done|]. split; [done|]. split.
  - intros x Hx. apply Hpre, list_elem_of_fmap in Hx as ([x' n] & -> & Hx).
    specialize (Hlt _ Hx). simpl in *.
    assert (Hin : (x', n) ∈ item :: items).
    { rewrite Heq. apply elem_of_app. by left. }
    apply Hcnt in Hin as [<- _]. exact Hlt.
  - intros x. pose proof (occ_nonneg x ks) as Hx0.
    destruct (decide (occ x ks = 0)) as [->|Hx]; [fold b; lia|].
    assert (Hin : x ∈ ks) by (apply occ_pos; lia).
    apply Hkeys, list_elem_of_fmap in Hin as ([x' n] & -> & Hin).
    simpl in *. destruct (Hcnt _ _ Hin) as [<- _].
    rewrite Heq in Hin. apply elem_of_app in Hin as [Hin|Hin].
    + apply Hlt in Hin. simpl in Hin. fold b. lia.
    + apply elem_of_cons in Hin as [Hin|Hin]; [by rewrite <- Hin|].
      apply Hle in Hin. exact Hin.
Qed.

(** The amended statement at a tie: in ["B","A","A","B"] both
    fingerprints occur twice and "B", supplied first, is dominant. *)
Lemma c3_dominant_is_first_maximal_witness :
  exists e pre post,
    analyze (map obs ["B"; "A"; "A"; "B"]%string) = Some e
    /\ map signature (map obs ["B"; "A"; "A"; "B"]%string)
       = pre ++ res_signature e :: post
    /\ res_count e
       = occ (res_signature e) (map signature (map obs ["B"; "A"; "A"; "B"]%string))
    /\ (forall x, x ∈ pre ->
          occ x (map signature (map obs ["B"; "A"; "A"; "B"]%string)) < res_count e)
    /\ (forall x,
          occ x (map signature (map obs ["B"; "A"; "A"; "B"]%string)) <= res_count e).
Proof.
  apply (c3_dominant_is_first_maximal (map obs ["B"; "A"; "A"; "B"]%string)).
  simpl. discriminate.
Defined.

(** C2 (as stated, refuted): for ["A","A","B"] the analysis does not
    report the class Majority, because 2/3 is below the 0.67 threshold. *)
Lemma c2_majority_refuted :
  ~ (exists e, analyze (map obs ["A"; "A"; "B"]%string) = Some e
               /\ res_signature e = "A"%string /\ res_count e = 2
               /\ res_total e = 3 /\ res_unique e = 2
               /\ res_class e = Majority).
Proof.
  intros (e & He & _ & _ & _ & _ & Hc).
  vm_compute in He. injection He as <-. discriminate Hc.
Qed.

(** C2 (amended): for ["A","A","B"] the analysis returns dominant "A",
    dominant count 2, total 3, two distinct fingerprints, and the class
    Mixed: the test [2 / 3 >= 0.67] is false. *)
Theorem c2_aab_is_mixed :
  exists e, analyze (map obs ["A"; "A"; "B"]%string) = Some e
            /\ res_signature e = "A"%string /\ res_count e = 2
            /\ res_total e = 3 /\ res_unique e = 2
            /\ res_class e = Mixed
            /\ PrimFloat.leb threshold (truediv 2 3) = false.
Proof.
  eexists. split; [vm_compute; reflexivity|]. cbn [res_signature res_count res_total res_unique res_class].
  repeat split; reflexivity.
Qed.


(** *** Accounting of the analysis *)

Lemma occ_le_len k l : occ k l <= len l.
Proof.
  unfold len. induction l as [|x l IH]; simpl; [lia|].
  destruct (String.eqb x k); lia.
Qed.

Lemma occ_all_same k l : occ k l = len l <-> forall x, x ∈ l -> x = k.
Proof.
  induction l as [|x l IH]; simpl.
  - split; [intros _ x H; inversion H|done].
  - pose proof (occ_le_len k l). unfold len in *. simpl length.
    destruct (String.eqb_spec x k) as [->|Hne]; split.
    + intros Hocc y [->|Hy]%elem_of_cons; [done|]. apply IH; [lia|done].
    + intros Hall. assert (occ k l = Z.of_nat (length l)); [|lia].
      apply IH. intros y Hy. apply Hall, elem_of_cons. by right.
    + lia.
    + intros Hall. destruct Hne. apply Hall, elem_of_cons. by left.
Qed.

Lemma occ_perm k l1 l2 : l1 ≡ₚ l2 -> occ k l1 = occ k l2.
Proof. induction 1; simpl; lia. Qed.

(** What [analyze] returns, in terms of the dict of counts: the
    dominant entry is one of the dict with the largest count. *)
Lemma analyze_inv sigs e :
  analyze sigs = Some e ->
  exists b,
    b ∈ tally (map signature sigs)
    /\ (forall x, x ∈ tally (map signature sigs) -> x.2 <= b.2)
    /\ e = {| res_signature := b.1; res_count := b.2; res_total := len sigs;
              res_consistency := (Fmt.str_int b.2 ++ "/" ++ Fmt.str_int (len sigs))%string;
              res_unique := len (tally (map signature sigs));
              res_all_signatures := (tally (map signature sigs)).*1;
              res_class := classify (len (tally (map signature sigs))) b.2 (len sigs) |}.
Proof.
  unfold analyze. rewrite count_signatures_tally.
  destruct (tally (map signature sigs)) as [|item items]; [done|].
  intros [= <-].
  destruct (max_by_first snd item items) as (l1 & l2 & Heq & Hlt & Hle).
  exists (max_by snd item items). split; [|split; [|done]].
  - rewrite Heq. apply elem_of_app. right. apply elem_of_cons. by left.
  - intros x Hx. rewrite Heq in Hx.
    apply elem_of_app in Hx as [Hx|Hx]; [apply Hlt in Hx; lia|].
    apply elem_of_cons in Hx as [->|Hx]; [lia|by apply Hle].
Qed.

Lemma analyze_none sigs : analyze sigs = None <-> sigs = [].
Proof.
  split; [|by intros ->].
  unfold analyze. rewrite count_signatures_tally.
  pose proof (tally_inv_holds (map signature sigs)) as [_ _ Hkeys _].
  destruct (tally (map signature sigs)) as [|item items]; [|done].
  intros _. destruct sigs as [|s sigs]; [done|].
  assert (Hs : signature s ∈ map signature (s :: sigs)) by (apply elem_of_cons; by left).
  apply Hkeys in Hs. inversion Hs.
Qed.

Lemma tally_keys ks k : k ∈ (tally ks).*1 <-> k ∈ ks.
Proof.
  pose proof (tally_inv_holds ks) as [_ Hcnt Hkeys _]. split; [|apply Hkeys].
  intros ([k' n] & -> & Hin)%list_elem_of_fmap.
  destruct (Hcnt _ _ Hin) as [-> Hpos]. by apply occ_pos.
Qed.

Lemma len_fmap {A B} (f : A -> B) (l : list A) : len (f <$> l) = len l.
Proof. unfold len. by rewrite length_fmap. Qed.

Lemma len_tally_le ks : len (tally ks) <= len ks.
Proof.
  pose proof (tally_inv_holds ks) as [Hnd _ _ _].
  rewrite <- (len_fmap fst). unfold len.
  apply inj_le, submseteq_length, NoDup_submseteq; [done|].
  intros k. apply tally_keys.
Qed.

(** X10: the accounting of the analysis.  There is no result exactly
    when there is no observation.  Otherwise the total is the number of
    observations, the listed fingerprints are the distinct fingerprints
    observed, each once, [unique] is their number, and both [unique]
    and the dominant count lie between 1 and the total. *)
Theorem x_analysis_accounting (sigs : list SigInfo) :
  (analyze sigs = None <-> sigs = [])
  /\ forall e, analyze sigs = Some e ->
       res_total e = len sigs
       /\ NoDup (res_all_signatures e)
       /\ (forall k, k ∈ res_all_signatures e <-> k ∈ map signature sigs)
       /\ res_unique e = len (res_all_signatures e)
       /\ 1 <= res_unique e <= res_total e
       /\ res_count e = occ (res_signature e) (map signature sigs)
       /\ 1 <= res_count e <= res_total e.
Proof.
  split; [apply analyze_none|].
  intros e (b & Hb & _ & ->)%analyze_inv.
  cbn [res_total res_all_signatures res_unique res_count res_signature].
  set (ks := map signature sigs) in *.
  pose proof (tally_inv_holds ks) as [Hnd Hcnt _ _].
  assert (Hlen : len ks = len sigs) by apply len_fmap.
  destruct b as [k n]. destruct (Hcnt _ _ Hb) as [-> Hpos]. cbn [fst snd].
  pose proof (occ_le_len k ks). pose proof (len_tally_le ks).
  assert (0 < len (tally ks)).
  { destruct (tally ks); [inversion Hb|]. unfold len. simpl. lia. }
  split; [done|]. split; [done|]. split; [apply tally_keys|].
  split; [by rewrite len_fmap|]. split; [lia|]. split; [done|lia].
Qed.

Lemma x_analysis_accounting_witness :
  exists e, analyze (map obs ["A"; "B"; "A"]%string) = Some e
    /\ res_total e = 3 /\ res_unique e = 2 /\ res_count e = 2
    /\ res_all_signatures e = ["A"; "B"]%string.
Proof.
  destruct (x_analysis_accounting (map obs ["A"; "B"; "A"]%string)) as [_ H].
  eexists. split; [vm_compute; reflexivity|].
  destruct (H _ eq_refl) as (Ht & _ & _ & Hu & _ & Hc & _).
  split; [exact Ht|]. split; [exact Hu|]. split; [exact Hc|]. reflexivity.
Defined.

(** X11: the class is Full exactly when every observation carries the
    same fingerprint, which is exactly when the dominant count equals
    the total. *)
Theorem x_full_iff_one_fingerprint (sigs : list SigInfo) (e : result_entry) :
  analyze sigs = Some e ->
  (res_class e = Full <-> forall s, s ∈ sigs -> signature s = res_signature e)
  /\ (res_class e = Full <-> res_count e = res_total e).
Proof.
  intros (b & Hb & _ & ->)%analyze_inv.
  cbn [res_class res_signature res_count res_total].
  set (ks := map signature sigs) in *.
  pose proof (tally_inv_holds ks) as [Hnd Hcnt _ _].
  assert (Hlen : len ks = len sigs) by apply len_fmap.
  destruct b as [k n]. destruct (Hcnt _ _ Hb) as [-> Hpos]. cbn [fst snd].
  assert (Hsame : (forall s, s ∈ sigs -> signature s = k) <-> forall x, x ∈ ks -> x = k).
  { split.
    - intros H x (s & -> & Hs)%list_elem_of_fmap. by apply H.
    - intros H s Hs. apply H, list_elem_of_fmap. by exists s. }
  assert (Hfull : classify (len (tally ks)) (occ k ks) (len sigs) = Full
                  <-> len (tally ks) = 1).
  { unfold classify. destruct (Z.eqb_spec (len (tally ks)) 1); [done|].
    split; [|done]. by destruct (PrimFloat.leb _ _). }
  assert (Hone : len (tally ks) = 1 <-> forall x, x ∈ ks -> x = k).
  { split.
    - intros H1 x Hx%tally_keys.
      assert (Hk : k ∈ (tally ks).*1) by (apply list_elem_of_fmap; by exists (k, occ k ks)).
      destruct (tally ks) as [|[k0 n0] [|? ?]]; try (unfold len in H1; simpl in H1; lia).
      csimpl in *. apply list_elem_of_singleton in Hx, Hk. congruence.
    - intros Hall.
      assert (Hkeys : forall x, x ∈ (tally ks).*1 -> x = k).
      { intros x Hx. apply (proj1 (tally_keys ks x)) in Hx. by apply Hall. }
      rewrite <- (len_fmap fst). unfold len.
      destruct ((tally ks).*1) as [|k1 [|k2 rest]] eqn:Hd.
      + apply (f_equal length) in Hd. rewrite length_fmap in Hd.
        destruct (tally ks); [inversion Hb|done].
      + done.
      + apply NoDup_cons in Hnd as [Hnin _]. destruct Hnin.
        assert (k1 = k) as -> by (apply Hkeys, elem_of_cons; by left).
        assert (k2 = k) as ->
          by (apply Hkeys, elem_of_cons; right; apply elem_of_cons; by left).
        apply elem_of_cons. by left. }
  rewrite Hfull, Hone, Hsame, <- Hlen, occ_all_same. done.
Qed.

Lemma x_full_iff_one_fingerprint_witness :
  exists e, analyze (map obs ["A"; "A"]%string) = Some e
    /\ res_class e = Full /\ res_count e = res_total e.
Proof.
  eexists. split; [vm_compute; reflexivity|].
  destruct (x_full_iff_one_fingerprint (map obs ["A"; "A"]%string) _ eq_refl)
    as [_ Hc].
  split; [reflexivity|]. apply Hc. reflexivity.
Defined.

(** X12: apart from the choice among tied fingerprints, the analysis
    does not depend on the order of the observations: a permutation of
    the list gives the same dominant count, total, number of distinct
    fingerprints, consistency string and class, and the same set of
    listed fingerprints. *)
Theorem x_analysis_order_independent (sigs sigs' : list SigInfo) (e : result_entry) :
  sigs ≡ₚ sigs' ->
  analyze sigs = Some e ->
  exists e', analyze sigs' = Some e'
    /\ res_count e' = res_count e /\ res_total e' = res_total e
    /\ res_unique e' = res_unique e /\ res_consistency e' = res_consistency e
    /\ res_class e' = res_class e
    /\ res_all_signatures e' ≡ₚ res_all_signatures e.
Proof.
  intros Hperm He.
  destruct (analyze sigs') as [e'|] eqn:He'.
  2:{ apply analyze_none in He' as ->. apply Permutation_nil_r in Hperm as ->.
      done. }
  exists e'. split; [done|].
  apply analyze_inv in He as (b & Hb & Hmax & ->).
  apply analyze_inv in He' as (b' & Hb' & Hmax' & ->).
  cbn [res_count res_total res_unique res_consistency res_class res_all_signatures].
  assert (Hks : map signature sigs ≡ₚ map signature sigs') by (by apply fmap_Permutation).
  set (ks := map signature sigs) in *. set (ks' := map signature sigs') in *.
  pose proof (tally_inv_holds ks) as [Hnd Hcnt _ _].
  pose proof (tally_inv_holds ks') as [Hnd' Hcnt' _ _].
  assert (Hkeys : (tally ks').*1 ≡ₚ (tally ks).*1).
  { apply NoDup_Permutation; [done|done|]. intros k.
    rewrite !tally_keys. by rewrite Hks. }
  assert (Hlen : len sigs' = len sigs) by (unfold len; by rewrite Hperm).
  assert (Hu : len (tally ks') = len (tally ks)).
  { rewrite <- (len_fmap fst (tally ks')), <- (len_fmap fst (tally ks)).
    unfold len. by rewrite Hkeys. }
  assert (Hle : forall ks1 ks2 (b1 b2 : string * Z),
            ks1 ≡ₚ ks2 -> b1 ∈ tally ks1 ->
            (forall x, x ∈ tally ks2 -> x.2 <= b2.2) -> b1.2 <= b2.2).
  { intros ks1 ks2 [k1 n1] b2 Hp H1 Hmax2.
    pose proof (tally_inv_holds ks1) as [_ Hc1 _ _].
    pose proof (tally_inv_holds ks2) as [_ Hc2 _ _].
    destruct (Hc1 _ _ H1) as [-> Hpos]. cbn [snd].
    assert (Hin : k1 ∈ (tally ks2).*1).
    { apply tally_keys. rewrite <- Hp. by apply occ_pos. }
    apply list_elem_of_fmap in Hin as ([k2 n2] & -> & Hin).
    destruct (Hc2 _ _ Hin) as [Hn2 _]. cbn [fst] in *.
    specialize (Hmax2 _ Hin). cbn [snd] in Hmax2.
    rewrite (occ_perm _ _ _ Hp). lia. }
  assert (Hcount : b'.2 = b.2).
  { pose proof (Hle ks ks' b b' Hks Hb Hmax').
    pose proof (Hle ks' ks b' b (symmetry Hks) Hb' Hmax). lia. }
  rewrite Hcount, Hlen, Hu. done.
Qed.

Lemma x_analysis_order_independent_witness :
  exists e', analyze (map obs ["B"; "A"; "A"]%string) = Some e'
    /\ res_count e' = 2 /\ res_total e' = 3 /\ res_unique e' = 2
    /\ res_class e' = Mixed.
Proof.
  destruct (x_analysis_order_independent
              (map obs ["A"; "B"; "A"]%string) (map obs ["B"; "A"; "A"]%string)
              _ (perm_swap _ _ _) eq_refl)
    as (e' & He' & Hc & Ht & Hu & _ & Hcl & _).
  exists e'. split; [exact He'|].
  split; [exact Hc|]. split; [exact Ht|]. split; [exact Hu|exact Hcl].
Defined.


(** *** The threshold *)

Lemma threshold_agrees_upto : forallb threshold_agrees (seq 1 200) = true.
Proof. vm_compute. reflexivity. Qed.

(** X13: up to 200 observations the rounding of the float division
    and of the literal [0.67] never changes the outcome: the class is
    Majority exactly when the dominant count is at least 67 percent of
    the total, compared on integers. *)
Theorem x_threshold_is_exact (unique consistent total : Z) :
  0 < total <= 200 ->
  0 <= consistent <= total ->
  classify unique consistent total
  = if unique =? 1 then Full
    else if 67 * total <=? 100 * consistent then Majority else Mixed.
Proof.
  intros Ht Hc. unfold classify. destruct (unique =? 1); [done|].
  pose proof threshold_agrees_upto as Hall.
  rewrite forallb_forall in Hall.
  specialize (Hall (Z.to_nat total)). unfold threshold_agrees in Hall.
  rewrite forallb_forall in Hall.
  specialize (Hall ltac:(apply in_seq; lia) (Z.to_nat consistent) ltac:(apply in_seq; lia)).
  rewrite !Z2Nat.id in Hall by lia.
  apply Bool.eqb_prop in Hall. by rewrite Hall.
Qed.

Lemma x_threshold_is_exact_witness :
  classify 2 67 100 = Majority /\ classify 2 2 3 = Mixed /\ classify 3 133 200 = Mixed.
Proof.
  split; [|split].
  - apply (x_threshold_is_exact 2 67 100); lia.
  - apply (x_threshold_is_exact 2 2 3); lia.
  - apply (x_threshold_is_exact 3 133 200); lia.
Defined.

End AggregateFacts.

(** ** The parser *)

Module ParserFacts.
Import ParserSpec.
Import Samples.

Lemma len_nonneg {A} (l : list A) : 0 <= len l.
Proof. unfold len. lia. Qed.

Lemma byte_at_range raw i : 0 <= byte_at raw i < 256.
Proof.
  unfold byte_at, byte_val. pose proof (Byte.to_N_bounded (nth (Z.to_nat i) raw x00)). lia.
Qed.

Lemma u16_at_range raw i : 0 <= u16_at raw i < 65536.
Proof.
  unfold u16_at. pose proof (byte_at_range raw i). pose proof (byte_at_range raw (i + 1)). lia.
Qed.

Lemma getitem_byte_at raw i :
  0 <= i < len raw -> getitem raw i = Val (byte_at raw i).
Proof.
  intros Hi. unfold getitem, byte_at.
  destruct (Z.ltb_spec i 0) as [?|_]; [lia|].
  destruct (Z.leb_spec 0 i) as [_|?]; [|lia].
  destruct (Z.ltb_spec i (len raw)) as [_|?]; [|lia]. simpl.
  destruct (nth_error raw (Z.to_nat i)) as [x|] eqn:Hx.
  - by rewrite (nth_error_nth _ _ _ Hx).
  - apply nth_error_None in Hx. unfold len in Hi. lia.
Qed.

Lemma slice_two raw o :
  0 <= o -> o + 2 <= len raw ->
  slice raw o (o + 2)
  = [nth (Z.to_nat o) raw x00; nth (Z.to_nat (o + 1)) raw x00].
Proof.
  intros Ho Hlen. unfold slice, clamp.
  destruct (Z.ltb_spec o 0) as [?|_]; [lia|].
  destruct (Z.ltb_spec (o + 2) 0) as [?|_]; [lia|].
  rewrite !Z.min_l by lia. replace (o + 2 - o) with 2 by lia.
  replace (Z.to_nat (o + 1)) with (S (Z.to_nat o)) by lia.
  assert (Hn : (S (Z.to_nat o) < length raw)%nat) by (unfold len in Hlen; lia).
  revert Hn. generalize (Z.to_nat o). clear. intros n. revert n.
  induction raw as [|b raw IH]; intros n Hn; simpl in Hn; [lia|].
  destruct n as [|n].
  - destruct raw as [|b' raw]; simpl in *; [lia|done].
  - simpl. apply IH. lia.
Qed.

Lemma unpack_slice raw o :
  0 <= o -> o + 2 <= len raw ->
  unpack_H (slice raw o (o + 2)) = Val (u16_at raw o).
Proof. intros Ho Hlen. by rewrite slice_two. Qed.

(** *** The four blocks in closed form *)

Lemma read_session_id_spec raw off :
  0 <= off ->
  read_session_id raw off
  = if len raw <=? off + 32 then ReturnNone
    else Val (off + 32 + (1 + byte_at raw (off + 32))).
Proof.
  intros Hoff. unfold read_session_id.
  destruct (Z.leb_spec (len raw) (off + 32)); [done|].
  by rewrite getitem_byte_at by lia.
Qed.

Lemma read_compression_spec raw off :
  0 <= off ->
  read_compression raw off
  = if len raw <=? off then ReturnNone
    else Val (off + (1 + byte_at raw off)).
Proof.
  intros Hoff. unfold read_compression.
  destruct (Z.leb_spec (len raw) off); [done|].
  by rewrite getitem_byte_at by lia.
Qed.

Lemma codes_S raw o n : codes raw o (S n) = u16_at raw o :: codes raw (o + 2) n.
Proof.
  unfold codes. simpl. rewrite Z.add_0_r. f_equal.
  rewrite <- seq_shift, map_map. apply map_ext. intros k. f_equal. lia.
Qed.

Lemma codes_length raw o n : length (codes raw o n) = n.
Proof. unfold codes. by rewrite length_map, length_seq. Qed.

Lemma codes_nth raw o n k :
  (k < n)%nat -> nth k (codes raw o n) 0 = u16_at raw (o + 2 * Z.of_nat k).
Proof.
  revert o n. induction k as [|k IH]; intros o [|n] Hk; try lia; rewrite codes_S; simpl.
  - f_equal. lia.
  - rewrite IH by lia. f_equal. lia.
Qed.

Lemma cipher_loop_spec raw iters o acc :
  0 <= o ->
  cipher_loop raw iters o acc
  = Val (acc ++ codes raw o (pairs_read raw o (len iters)),
         o + 2 * Z.of_nat (pairs_read raw o (len iters))).
Proof.
  revert o acc. induction iters as [|i iters IH]; intros o acc Ho.
  - simpl. unfold pairs_read, len. simpl.
    replace (Z.to_nat _) with 0%nat by lia. simpl. by rewrite app_nil_r, Z.add_0_r.
  - simpl. destruct (Z.leb_spec (len raw) (o + 1)) as [Hle|Hgt].
    + unfold pairs_read. replace (Z.to_nat _) with 0%nat.
      * simpl. by rewrite app_nil_r, Z.add_0_r.
      * Z.div_mod_to_equations. lia.
    + rewrite unpack_slice by lia. simpl. rewrite IH by lia.
      assert (Hk : pairs_read raw o (len (i :: iters))
                   = S (pairs_read raw (o + 2) (len iters))).
      { unfold pairs_read, len in *. simpl length. Z.div_mod_to_equations. lia. }
      rewrite Hk, codes_S, <- app_assoc. simpl. do 2 f_equal. lia.
Qed.

Lemma range_length L : 0 <= L -> len (range 0 L 2) = (L + 1) / 2.
Proof.
  intros HL. unfold range, len. rewrite length_map, length_seq.
  replace (L - 0 + 2 - 1) with (L + 1) by lia.
  Z.div_mod_to_equations. lia.
Qed.

Lemma read_cipher_suites_spec raw off :
  0 <= off ->
  read_cipher_suites raw off
  = if len raw <=? off + 1 then ReturnNone
    else let k := pairs_read raw (off + 2) ((u16_at raw off + 1) / 2) in
         Val (codes raw (off + 2) k, off + 2 + 2 * Z.of_nat k).
Proof.
  intros Hoff. unfold read_cipher_suites.
  destruct (Z.leb_spec (len raw) (off + 1)); [done|].
  rewrite unpack_slice by lia. simpl.
  rewrite cipher_loop_spec by lia.
  rewrite range_length by apply u16_at_range. done.
Qed.

(** *** The extensions loop *)

(** One turn of the [while] loop. *)
Lemma ext_loop_turn raw off E eo exts :
  ext_loop raw off E eo exts
  = if (eo <? off + E) && (eo <? len raw - 3)
    then ext_type ← unpack_H (slice raw eo (eo + 2));
         ext_len ← unpack_H (slice raw (eo + 2) (eo + 4));
         ext_loop raw off E (eo + 4 + ext_len) (exts ++ [ext_type])
    else Val exts.
Proof.
  funelim (ext_loop raw off E eo exts);
    repeat match goal with
    | H : ?c = _ |- context [if ?c then _ else _] => rewrite H
    | H : unpack_H ?b = _ |- context [unpack_H ?b] => rewrite H; simpl
    end; done.
Qed.

Lemma ext_loop_step raw off E eo exts :
  0 <= eo -> eo < off + E -> eo + 4 <= len raw ->
  ext_loop raw off E eo exts
  = ext_loop raw off E (eo + 4 + u16_at raw (eo + 2)) (exts ++ [u16_at raw eo]).
Proof.
  intros Heo Hblock Hbuf. rewrite ext_loop_turn.
  destruct (Z.ltb_spec eo (off + E)); [|lia].
  destruct (Z.ltb_spec eo (len raw - 3)); [|lia]. simpl.
  rewrite unpack_slice by lia. simpl.
  replace (eo + 4) with (eo + 2 + 2) at 1 by lia.
  rewrite unpack_slice by lia. done.
Qed.

Lemma ext_loop_stop raw off E eo exts :
  off + E <= eo \/ len raw < eo + 4 ->
  ext_loop raw off E eo exts = Val exts.
Proof.
  intros Hstop. rewrite ext_loop_turn.
  destruct (Z.ltb_spec eo (off + E)), (Z.ltb_spec eo (len raw - 3)); simpl; try done; lia.
Qed.

(** The loop never raises and never discards what it has collected. *)
Lemma ext_loop_total raw off E eo exts :
  0 <= eo -> exists more, ext_loop raw off E eo exts = Val (exts ++ more).
Proof.
  intros Heo.
  remember (Z.to_nat (len raw - eo)) as m eqn:Hm.
  revert eo exts Heo Hm. induction m as [m IH] using lt_wf_ind.
  intros eo exts Heo Hm.
  destruct (decide (eo < off + E /\ eo + 4 <= len raw)) as [[Hblock Hbuf]|Hstop].
  - rewrite ext_loop_step by done.
    pose proof (u16_at_range raw (eo + 2)).
    destruct (IH (Z.to_nat (len raw - (eo + 4 + u16_at raw (eo + 2)))) ltac:(lia)
                 (eo + 4 + u16_at raw (eo + 2)) (exts ++ [u16_at raw eo])
                 ltac:(lia) eq_refl) as [more Hmore].
    exists (u16_at raw eo :: more). rewrite Hmore. by rewrite <- app_assoc.
  - exists []. rewrite app_nil_r. apply ext_loop_stop. lia.
Qed.

Lemma read_extensions_spec raw off :
  0 <= off ->
  read_extensions raw off
  = if len raw <=? off + 1 then ReturnNone
    else ext_loop raw (off + 2) (u16_at raw off) (off + 2) [].
Proof.
  intros Hoff. unfold read_extensions.
  destruct (Z.leb_spec (len raw) (off + 1)); [done|].
  by rewrite unpack_slice by lia.
Qed.


(** *** Session id *)

(** The session-id length is the byte at index 41 of the record: the
    entry offset 9 plus the 32 bytes skipped. *)
Lemma session_id_length_offset raw :
  read_session_id raw 9
  = if len raw <=? 41 then ReturnNone else Val (42 + byte_at raw 41).
Proof.
  rewrite read_session_id_spec by lia.
  change (9 + 32) with 41.
  destruct (len raw <=? 41); [done|]. f_equal. lia.
Qed.

(** C1 (code defect): on a well-formed ClientHello whose session-id
    length byte, at index 43 of the record, is 1, the parser takes the
    session-id length from index 41 (the last but one byte of the
    random, here 0): the two bytes of the client version at indices 9
    and 10 are never skipped.  The cipher-suite block is therefore read
    two bytes early and the result reports the cipher suite 0xff00
    where the message offers 0x1301. *)
Theorem c1_session_id_length_read_at_41 :
  getitem hello_session 43 = Val 1
  /\ getitem hello_session 41 = Val 0
  /\ read_session_id hello_session 9 = Val (42 + 0)
  /\ parse_tls_client_hello hello_session
     = Val {| version := 0x0301; cipher_suites := [0xff00]; extensions := [];
              alpn := false; sni := false; valid := true |}.
Proof. repeat split; vm_compute; reflexivity. Qed.

(** *** Cipher suites *)

(** C4 (as stated, refuted): with the declared length 3 the parser
    reads two cipher codes, not one; the third byte of the block (index
    48) is the high byte of the second code, and the next field is read
    at index 50, four bytes after the length field. *)
Lemma c4_odd_length_reads_two_codes :
  u16_at hello_odd 44 = 3
  /\ read_cipher_suites hello_odd 44 = Val ([0x1301; 0x1302], 50)
  /\ len [0x1301; 0x1302] <> 3 / 2
  /\ 0x1302 = byte_at hello_odd 48 * 256 + byte_at hello_odd 49
  /\ 50 <> 44 + 2 + 3
  /\ exists d, parse_tls_client_hello hello_odd = Val d
               /\ cipher_suites d = [0x1301; 0x1302].
Proof.
  repeat split; try (vm_compute; reflexivity); try (vm_compute; discriminate).
  eexists. split; vm_compute; reflexivity.
Qed.

(** C4 (amended): when the declared cipher-suite length [L] is odd and
    at least [L + 1] bytes follow the length field, the parser reads
    [L / 2 + 1] big-endian 16-bit codes; the last code is made of the
    trailing odd byte and the byte after the block, and the next field
    is read [L + 1] bytes after the length field. *)
Theorem c4_odd_length_reads_one_more (raw : list byte) (offset L : Z) :
  0 <= offset ->
  u16_at raw offset = L ->
  Z.odd L = true ->
  offset + 2 + L + 1 <= len raw ->
  exists cs,
    read_cipher_suites raw offset = Val (cs, offset + 2 + L + 1)
    /\ len cs = L / 2 + 1
    /\ (forall k, 0 <= k <= L / 2 ->
          nth (Z.to_nat k) cs 0 = u16_at raw (offset + 2 + 2 * k))
    /\ nth (Z.to_nat (L / 2)) cs 0
       = byte_at raw (offset + 2 + L - 1) * 256 + byte_at raw (offset + 2 + L).
Proof.
  intros Hoff HL Hodd Hlen.
  pose proof (u16_at_range raw offset) as HLr. rewrite HL in HLr.
  rewrite Z.odd_spec in Hodd. destruct Hodd as [h Hh].
  assert (Hdiv : L / 2 = h) by (Z.div_mod_to_equations; lia).
  assert (Hn : (L + 1) / 2 = h + 1) by (Z.div_mod_to_equations; lia).
  rewrite read_cipher_suites_spec by done.
  destruct (Z.leb_spec (len raw) (offset + 1)); [lia|]. cbv zeta.
  rewrite HL, Hn, Hdiv.
  assert (Hk : pairs_read raw (offset + 2) (h + 1) = Z.to_nat (h + 1)).
  { unfold pairs_read. f_equal. Z.div_mod_to_equations. lia. }
  rewrite Hk. eexists. split; [f_equal; f_equal; lia|].
  assert (Hnth : forall k, 0 <= k <= h ->
            nth (Z.to_nat k) (codes raw (offset + 2) (Z.to_nat (h + 1))) 0
            = u16_at raw (offset + 2 + 2 * k)).
  { intros k Hk'. rewrite codes_nth by lia. f_equal. lia. }
  split; [|split].
  - unfold len. rewrite codes_length. lia.
  - exact Hnth.
  - rewrite Hnth by lia. unfold u16_at.
    replace (offset + 2 + L - 1) with (offset + 2 + 2 * h) by lia.
    replace (offset + 2 + L) with (offset + 2 + 2 * h + 1) by lia. done.
Qed.

Lemma c4_odd_length_reads_one_more_witness :
  exists cs,
    read_cipher_suites hello_odd 44 = Val (cs, 44 + 2 + 3 + 1)
    /\ len cs = 3 / 2 + 1
    /\ (forall k, 0 <= k <= 3 / 2 ->
          nth (Z.to_nat k) cs 0 = u16_at hello_odd (44 + 2 + 2 * k))
    /\ nth (Z.to_nat (3 / 2)) cs 0
       = byte_at hello_odd (44 + 2 + 3 - 1) * 256 + byte_at hello_odd (44 + 2 + 3).
Proof.
  apply (c4_odd_length_reads_one_more hello_odd 44 3).
  - lia.
  - reflexivity.
  - reflexivity.
  - vm_compute. discriminate.
Defined.

(** C5 (as stated, refuted): the declared extensions block is one byte
    long, so no 4-byte header fits in it, yet the parser records the
    extension type 16 found at the start of the block. *)
Lemma c5_header_beyond_block_recorded :
  u16_at hello_short_block 50 = 1
  /\ ~ (52 + 4 <= 52 + 1)
  /\ read_extensions hello_short_block 50 = Val [16]
  /\ exists d, parse_tls_client_hello hello_short_block = Val d
               /\ extensions d = [16] /\ alpn d = true.
Proof.
  split; [reflexivity|]. split; [lia|]. split; [vm_compute; reflexivity|].
  eexists. split; [vm_compute; reflexivity|]. split; reflexivity.
Qed.

(** C5 (amended): the extensions loop records an extension type exactly
    when the first byte of its header lies inside the declared block
    ([ext_offset < offset + E]) and the whole 4-byte header lies inside
    the buffer; otherwise it stops.  It never raises, and what it
    returns starts with the types collected so far. *)
Theorem c5_extension_loop_bounds (raw : list byte) (offset E ext_offset : Z)
    (exts : list Z) :
  0 <= ext_offset ->
  (ext_offset < offset + E /\ ext_offset + 4 <= len raw ->
     ext_loop raw offset E ext_offset exts
     = ext_loop raw offset E (ext_offset + 4 + u16_at raw (ext_offset + 2))
                (exts ++ [u16_at raw ext_offset]))
  /\ (offset + E <= ext_offset \/ len raw < ext_offset + 4 ->
        ext_loop raw offset E ext_offset exts = Val exts)
  /\ exists more, ext_loop raw offset E ext_offset exts = Val (exts ++ more).
Proof.
  intros Heo. split; [|split].
  - intros [Hblock Hbuf]. by apply ext_loop_step.
  - apply ext_loop_stop.
  - by apply ext_loop_total.
Qed.

Lemma c5_extension_loop_bounds_witness :
  (58 < 58 + 22 /\ 58 + 4 <= len hello ->
     ext_loop hello 58 22 58 []
     = ext_loop hello 58 22 (58 + 4 + u16_at hello (58 + 2))
                ([] ++ [u16_at hello 58]))
  /\ (58 + 22 <= 58 \/ len hello < 58 + 4 ->
        ext_loop hello 58 22 58 [] = Val [])
  /\ exists more, ext_loop hello 58 22 58 [] = Val ([] ++ more).
Proof.
  apply (c5_extension_loop_bounds hello 58 22 58 []). lia.
Defined.

(** *** The whole parser in closed form *)

Lemma o1_bounds raw : 42 <= o1 raw.
Proof. unfold o1. pose proof (byte_at_range raw 41). lia. Qed.

Lemma o2_bounds raw : o1 raw + 2 <= o2 raw.
Proof. unfold o2. lia. Qed.

Lemma o3_bounds raw : o2 raw + 1 <= o3 raw.
Proof. unfold o3. pose proof (byte_at_range raw (o2 raw)). lia. Qed.

Lemma reaches_true raw :
  reaches raw = true
  <-> 41 < len raw /\ o1 raw + 1 < len raw /\ o2 raw < len raw /\ o3 raw + 1 < len raw.
Proof. unfold reaches. rewrite !andb_true_iff, !Z.ltb_lt. tauto. Qed.

Lemma ext_block_start_spec raw :
  ext_block_start raw = if reaches raw then Val (o3 raw + 2) else ReturnNone.
Proof.
  pose proof (o1_bounds raw). pose proof (o2_bounds raw). pose proof (o3_bounds raw).
  unfold ext_block_start. rewrite session_id_length_offset.
  unfold reaches.
  destruct (Z.leb_spec (len raw) 41), (Z.ltb_spec 41 (len raw)); try lia; [done|].
  cbn -[Z.add Z.mul]. fold (o1 raw).
  rewrite read_cipher_suites_spec by lia.
  destruct (Z.leb_spec (len raw) (o1 raw + 1)), (Z.ltb_spec (o1 raw + 1) (len raw));
    try lia; [done|].
  cbn -[Z.add Z.mul]. fold (nc raw). fold (o2 raw).
  rewrite read_compression_spec by lia.
  destruct (Z.leb_spec (len raw) (o2 raw)), (Z.ltb_spec (o2 raw) (len raw));
    try lia; [done|].
  cbn -[Z.add Z.mul]. fold (o3 raw).
  destruct (Z.leb_spec (len raw) (o3 raw + 1)), (Z.ltb_spec (o3 raw + 1) (len raw));
    try lia; done.
Qed.

Lemma parse_body_spec raw v :
  parse_body raw v 9
  = if reaches raw
    then exts ← ext_loop raw (o3 raw + 2) (u16_at raw (o3 raw)) (o3 raw + 2) [];
         Val {| version := v; cipher_suites := codes raw (o1 raw + 2) (nc raw);
                extensions := exts; alpn := contains 16 exts;
                sni := contains 0 exts; valid := true |}
    else ReturnNone.
Proof.
  pose proof (o1_bounds raw). pose proof (o2_bounds raw). pose proof (o3_bounds raw).
  unfold parse_body. rewrite session_id_length_offset.
  unfold reaches.
  destruct (Z.leb_spec (len raw) 41), (Z.ltb_spec 41 (len raw)); try lia; [done|].
  cbn -[Z.add Z.mul]. fold (o1 raw).
  rewrite read_cipher_suites_spec by lia.
  destruct (Z.leb_spec (len raw) (o1 raw + 1)), (Z.ltb_spec (o1 raw + 1) (len raw));
    try lia; [done|].
  cbn -[Z.add Z.mul]. fold (nc raw). fold (o2 raw).
  rewrite read_compression_spec by lia.
  destruct (Z.leb_spec (len raw) (o2 raw)), (Z.ltb_spec (o2 raw) (len raw));
    try lia; [done|].
  cbn -[Z.add Z.mul]. fold (o3 raw).
  rewrite read_extensions_spec by lia.
  destruct (Z.leb_spec (len raw) (o3 raw + 1)), (Z.ltb_spec (o3 raw + 1) (len raw));
    try lia; done.
Qed.

(** Nothing inside the [try] block raises: every read is guarded. *)
Lemma parse_body_no_raise raw v e : parse_body raw v 9 <> Raise e.
Proof.
  pose proof (o3_bounds raw). pose proof (o2_bounds raw). pose proof (o1_bounds raw).
  rewrite parse_body_spec. destruct (reaches raw); [|done].
  destruct (ext_loop_total raw (o3 raw + 2) (u16_at raw (o3 raw)) (o3 raw + 2) [])
    as [more ->]; [lia|]. done.
Qed.

Lemma parse_spec raw :
  parse_tls_client_hello raw
  = if (len raw <? 5) || negb (byte_at raw 0 =? 0x16)
       || (len raw <? 6) || negb (byte_at raw 5 =? 0x01) || (len raw <=? 9)
    then ReturnNone
    else parse_body raw (u16_at raw 1) 9.
Proof.
  unfold parse_tls_client_hello.
  destruct (Z.ltb_spec (len raw) 5); [done|].
  rewrite (getitem_byte_at raw 0) by lia. cbn -[Z.add Z.mul parse_body].
  destruct (negb (byte_at raw 0 =? 22)); [done|].
  change 3 with (1 + 2). rewrite unpack_slice by lia. cbn -[Z.add Z.mul parse_body].
  destruct (Z.ltb_spec (len raw) 6); [done|].
  rewrite (getitem_byte_at raw 5) by lia. cbn -[Z.add Z.mul parse_body].
  destruct (negb (byte_at raw 5 =? 1)); [done|].
  destruct (Z.leb_spec (len raw) 9); [done|]. cbn -[Z.add Z.mul parse_body].
  pose proof (parse_body_no_raise raw (u16_at raw 1)) as Hnr.
  destruct (parse_body raw (u16_at raw 1) 9) as [d| |e]; [done|done|].
  by destruct (Hnr e).
Qed.

(** *** Truncated buffers *)

Lemma len_take {A} (n : nat) (l : list A) :
  len (take n l) = Z.min (Z.of_nat n) (len l).
Proof. unfold len. rewrite length_take. lia. Qed.

Lemma byte_at_take n raw i :
  0 <= i < Z.of_nat n -> byte_at (take n raw) i = byte_at raw i.
Proof.
  intros Hi. unfold byte_at. f_equal. rewrite nth_firstn.
  destruct (Nat.ltb_spec (Z.to_nat i) n); [done|lia].
Qed.

Lemma u16_at_take n raw i :
  0 <= i -> i + 1 < Z.of_nat n -> u16_at (take n raw) i = u16_at raw i.
Proof. intros Hi Hn. unfold u16_at. by rewrite !byte_at_take by lia. Qed.

Lemma codes_take n raw o k :
  0 <= o -> o + 2 * Z.of_nat k <= Z.of_nat n ->
  codes (take n raw) o k = codes raw o k.
Proof.
  revert o. induction k as [|k IH]; intros o Ho Hk; [done|].
  rewrite !codes_S, IH by lia. by rewrite u16_at_take by lia.
Qed.

Lemma o1_take n raw : 41 < Z.of_nat n -> o1 (take n raw) = o1 raw.
Proof. intros Hn. unfold o1. by rewrite byte_at_take by lia. Qed.

Lemma nc_take n raw :
  41 < Z.of_nat n -> o1 raw + 1 < Z.of_nat n -> Z.of_nat n <= len raw ->
  nc (take n raw)
  = Z.to_nat (Z.min ((u16_at raw (o1 raw) + 1) / 2)
                    (Z.max 0 ((Z.of_nat n - (o1 raw + 2)) / 2))).
Proof.
  intros H41 Ho1 Hn. pose proof (o1_bounds raw).
  unfold nc, pairs_read. rewrite o1_take, u16_at_take, len_take by lia.
  by rewrite (Z.min_l (Z.of_nat n) (len raw)) by lia.
Qed.

(** A cut before the start of the extensions block trips one of the
    [return None] guards. *)
Lemma reaches_cut_before n raw :
  reaches raw = true -> Z.of_nat n < o3 raw + 2 -> reaches (take n raw) = false.
Proof.
  intros Hr Hn. apply reaches_true in Hr as (H41 & Ho1 & Ho2 & Ho3).
  destruct (reaches (take n raw)) eqn:Hr'; [exfalso|done].
  apply reaches_true in Hr' as (H41' & Ho1' & Ho2' & Ho3').
  assert (Hlen : len (take n raw) = Z.of_nat n) by (rewrite len_take; lia).
  rewrite Hlen in *.
  pose proof (o1_bounds raw) as Hb1.
  rewrite o1_take in Ho1' by lia.
  unfold o3 in Ho3'. unfold o2 in Ho2', Ho3'.
  rewrite o1_take, nc_take in Ho2', Ho3' by lia.
  rewrite byte_at_take in Ho3' by lia.
  unfold o3, o2, nc, pairs_read in Hn, Ho2, Ho3.
  revert Hn Ho2 Ho3 Ho2' Ho3'.
  generalize ((u16_at raw (o1 raw) + 1) / 2). intros c.
  set (m' := Z.to_nat (Z.min c (Z.max 0 ((Z.of_nat n - (o1 raw + 2)) / 2)))).
  set (m := Z.to_nat (Z.min c (Z.max 0 ((len raw - (o1 raw + 2)) / 2)))).
  intros Hn Ho2 Ho3 Ho2' Ho3'.
  pose proof (byte_at_range raw (o1 raw + 2 + 2 * Z.of_nat m')) as Hb.
  destruct (decide (m' = m)) as [Heq|Hne].
  - rewrite Heq in *. lia.
  - subst m m'. Z.div_mod_to_equations. lia.
Qed.

(** A cut at or after the start of the extensions block changes none of
    the first three blocks. *)
Lemma reaches_cut_after n raw :
  reaches raw = true -> o3 raw + 2 <= Z.of_nat n ->
  reaches (take n raw) = true
  /\ o1 (take n raw) = o1 raw /\ nc (take n raw) = nc raw
  /\ o3 (take n raw) = o3 raw.
Proof.
  intros Hr Hn. apply reaches_true in Hr as (H41 & Ho1 & Ho2 & Ho3).
  destruct (Z.le_gt_cases (len raw) (Z.of_nat n)) as [Hge|Hlt].
  { rewrite take_ge by (unfold len in Hge; lia).
    split; [|done]. apply reaches_true. done. }
  pose proof (o1_bounds raw) as Hb1. pose proof (o2_bounds raw) as Hb2.
  pose proof (o3_bounds raw) as Hb3.
  assert (Hlen : len (take n raw) = Z.of_nat n) by (rewrite len_take; lia).
  assert (E1 : o1 (take n raw) = o1 raw) by (apply o1_take; lia).
  assert (Ec : nc (take n raw) = nc raw).
  { rewrite nc_take by lia. unfold o2, nc, pairs_read in *.
    revert Ho2 Ho3 Hb2 Hb3 Hn. unfold o3, o2, nc, pairs_read.
    generalize ((u16_at raw (o1 raw) + 1) / 2). intros c.
    set (m := Z.to_nat (Z.min c (Z.max 0 ((len raw - (o1 raw + 2)) / 2)))).
    intros Ho2 Ho3 Hb2 Hb3 Hn.
    pose proof (byte_at_range raw (o1 raw + 2 + 2 * Z.of_nat m)) as Hb.
    subst m. Z.div_mod_to_equations. lia. }
  assert (E2 : o2 (take n raw) = o2 raw) by (unfold o2; by rewrite E1, Ec).
  assert (E3 : o3 (take n raw) = o3 raw).
  { unfold o3. rewrite E2, byte_at_take by lia. done. }
  split; [|done]. apply reaches_true. rewrite Hlen, E1, E2, E3. lia.
Qed.

Lemma parse_val_inv raw d :
  parse_tls_client_hello raw = Val d ->
  5 <= len raw /\ byte_at raw 0 = 0x16 /\ byte_at raw 5 = 0x01
  /\ reaches raw = true
  /\ version d = u16_at raw 1
  /\ cipher_suites d = codes raw (o1 raw + 2) (nc raw).
Proof.
  rewrite parse_spec, parse_body_spec.
  destruct (Z.ltb_spec (len raw) 5); [done|].
  destruct (Z.eqb_spec (byte_at raw 0) 22); [|done].
  destruct (Z.ltb_spec (len raw) 6); [done|].
  destruct (Z.eqb_spec (byte_at raw 5) 1); [|done].
  destruct (Z.leb_spec (len raw) 9); [done|]. cbn [orb negb].
  destruct (reaches raw); [|done].
  destruct (ext_loop raw _ _ _ _) as [exts| |ex]; [|done|done].
  intros [= <-]. done.
Qed.

Lemma parse_no_raise raw e : parse_tls_client_hello raw <> Raise e.
Proof.
  rewrite parse_spec. destruct (_ || _); [done|]. apply parse_body_no_raise.
Qed.

Lemma parse_valid raw d : parse_tls_client_hello raw = Val d -> valid d = true.
Proof.
  rewrite parse_spec, parse_body_spec.
  destruct (_ || _); [done|]. destruct (reaches raw); [|done].
  destruct (ext_loop raw _ _ _ _) as [exts| |ex]; [|done|done].
  intros [= <-]. done.
Qed.

(** The loop returns the types of the headers it visits. *)
Lemma ext_loop_walk raw off E (fuel : nat) : forall eo exts,
  0 <= eo -> (Z.to_nat (len raw - eo) <= fuel)%nat ->
  ext_loop raw off E eo exts
  = Val (exts ++ map snd (ext_walk fuel raw (off + E) eo)).
Proof.
  induction fuel as [|fuel IH]; intros eo exts Heo Hfuel.
  - simpl. rewrite app_nil_r. apply ext_loop_stop. lia.
  - cbn [ext_walk].
    destruct (Z.ltb_spec eo (off + E)), (Z.leb_spec (eo + 4) (len raw));
      cbn [andb]; try (simpl; rewrite app_nil_r; apply ext_loop_stop; lia).
    pose proof (u16_at_range raw (eo + 2)).
    rewrite ext_loop_step, IH by lia. simpl. by rewrite <- app_assoc.
Qed.

(** Every header visited lies in the buffer. *)
Lemma ext_walk_fits raw stop (fuel : nat) h : forall eo,
  In h (ext_walk fuel raw stop eo) -> h.1 + 4 <= len raw.
Proof.
  induction fuel as [|fuel IH]; intros eo; [done|]. cbn [ext_walk].
  destruct (Z.ltb_spec eo stop), (Z.leb_spec (eo + 4) (len raw));
    cbn [andb]; try done.
  intros Hh. destruct Hh as [<-|Hh]; [simpl; lia|by eapply IH].
Qed.

(** A header that does not fit in the first [n] bytes is followed only
    by headers that do not fit either. *)
Lemma ext_walk_beyond (n : Z) raw stop (fuel : nat) : forall eo,
  n < eo + 4 ->
  List.filter (fun h : Z * Z => h.1 + 4 <=? n) (ext_walk fuel raw stop eo) = [].
Proof.
  induction fuel as [|fuel IH]; intros eo Hn; [done|].
  cbn [ext_walk]. destruct (_ && _); [|done]. cbn [List.filter fst].
  destruct (Z.leb_spec (eo + 4) n); [lia|].
  pose proof (u16_at_range raw (eo + 2)). apply IH. lia.
Qed.

(** On a cut buffer the loop visits the headers of the whole buffer
    that fit in the cut. *)
Lemma ext_walk_take (n : nat) raw stop (fuel : nat) : forall eo,
  Z.of_nat n <= len raw -> 0 <= eo ->
  ext_walk fuel (take n raw) stop eo
  = List.filter (fun h : Z * Z => h.1 + 4 <=? Z.of_nat n) (ext_walk fuel raw stop eo).
Proof.
  intros eo Hn. revert eo.
  assert (Hlen : len (take n raw) = Z.of_nat n) by (rewrite len_take; lia).
  induction fuel as [|fuel IH]; intros eo Heo; [done|].
  cbn [ext_walk]. rewrite Hlen.
  destruct (Z.ltb_spec eo stop); cbn [andb]; [|done].
  destruct (Z.leb_spec (eo + 4) (Z.of_nat n)) as [Hfit|Hcut].
  - destruct (Z.leb_spec (eo + 4) (len raw)); [|lia].
    cbn [List.filter fst]. destruct (Z.leb_spec (eo + 4) (Z.of_nat n)); [|lia].
    rewrite !u16_at_take by lia.
    pose proof (u16_at_range raw (eo + 2)). f_equal. apply IH. lia.
  - destruct (Z.leb_spec (eo + 4) (len raw)); [|done].
    cbn [List.filter fst]. destruct (Z.leb_spec (eo + 4) (Z.of_nat n)); [lia|].
    pose proof (u16_at_range raw (eo + 2)).
    symmetry. apply ext_walk_beyond. lia.
Qed.

(** C6 (as stated, refuted): [hello] cut after 77 of its 80 bytes still
    declares a 22-byte extensions block at index 58, which overruns the
    77 bytes, yet parsing succeeds with the three extensions whose
    headers are complete; cut after 58 bytes it succeeds with none. *)
Lemma c6_truncated_extensions_accepted :
  u16_at (take 77 hello) 56 = 22
  /\ len (take 77 hello) < 58 + 22
  /\ parse_tls_client_hello (take 77 hello)
     = Val {| version := 0x0301;
              cipher_suites := [0x1301; 0x1302; 0x1303; 0x1304];
              extensions := [0; 16; 11];
              alpn := true; sni := true; valid := true |}
  /\ parse_tls_client_hello (take 58 hello)
     = Val {| version := 0x0301;
              cipher_suites := [0x1301; 0x1302; 0x1303; 0x1304];
              extensions := [];
              alpn := false; sni := false; valid := true |}.
Proof. repeat split; vm_compute; reflexivity. Qed.

(** C6 (amended): a buffer shorter than 5 bytes, or whose first byte is
    not 0x16, gives [None]; no buffer makes the parser raise, and
    nothing inside its [try] block raises either (no read is out of
    bounds).  When a buffer parses, every cut of it before the start of
    its extensions block gives [None], and every cut at or after that
    start still parses, with the same version and cipher suites and
    with the extensions whose headers are complete: the extension types
    of the buffer are those of the headers the loop visits, and the cut
    keeps, in order, those whose four header bytes lie in the cut.  An
    overrun of the extensions block or of an extension length is not a
    failure. *)
Theorem c6_truncation_safety (raw : list byte) :
  (len raw < 5 -> parse_tls_client_hello raw = ReturnNone)
  /\ (byte_at raw 0 <> 0x16 -> parse_tls_client_hello raw = ReturnNone)
  /\ (forall e, parse_tls_client_hello raw <> Raise e)
  /\ (forall v e, parse_body raw v 9 <> Raise e)
  /\ (forall d, parse_tls_client_hello raw = Val d ->
        exists o, ext_block_start raw = Val o /\ o <= len raw
          /\ extensions d = map snd (ext_headers raw)
          /\ (forall n : nat, Z.of_nat n < o ->
                parse_tls_client_hello (take n raw) = ReturnNone)
          /\ (forall n : nat, o <= Z.of_nat n ->
                exists d', parse_tls_client_hello (take n raw) = Val d'
                           /\ version d' = version d
                           /\ cipher_suites d' = cipher_suites d
                           /\ extensions d'
                              = map snd (List.filter
                                           (fun h : Z * Z => h.1 + 4 <=? Z.of_nat n)
                                           (ext_headers raw)))).
Proof.
  split; [|split; [|split; [|split]]].
  - intros Hlen. rewrite parse_spec.
    destruct (Z.ltb_spec (len raw) 5); [done|lia].
  - intros Hb. rewrite parse_spec.
    destruct (Z.eqb_spec (byte_at raw 0) 22); [done|].
    by rewrite orb_true_r.
  - intros e. rewrite parse_spec.
    destruct (_ || _); [done|]. apply parse_body_no_raise.
  - intros v e. apply parse_body_no_raise.
  - intros d Hd.
    pose proof (parse_val_inv raw d Hd) as (Hlen & Hb0 & Hb5 & Hr & Hv & Hcs).
    pose proof (o1_bounds raw) as Hb1. pose proof (o2_bounds raw) as Hb2.
    pose proof (o3_bounds raw) as Hb3.
    pose proof Hr as (H41 & Ho1 & Ho2 & Ho3)%reaches_true.
    assert (Hexts : extensions d = map snd (ext_headers raw)).
    { revert Hd. rewrite parse_spec, parse_body_spec, Hr.
      destruct (_ || _); [done|].
      rewrite (ext_loop_walk raw _ _ (length raw)) by (unfold len in *; lia).
      simpl. by intros [= <-]. }
    exists (o3 raw + 2). rewrite ext_block_start_spec, Hr.
    split; [done|]. split; [lia|]. split; [done|]. split.
    + intros n Hn. rewrite parse_spec, parse_body_spec.
      rewrite (reaches_cut_before n raw Hr Hn). by destruct (_ || _).
    + intros n Hn.
      destruct (Z.le_gt_cases (len raw) (Z.of_nat n)) as [Hge|Hlt].
      { rewrite take_ge by (unfold len in Hge; lia). exists d.
        split; [done|]. split; [done|]. split; [done|]. rewrite Hexts. f_equal.
        symmetry. apply forallb_filter_id, forallb_forall. intros h Hh.
        apply Z.leb_le. apply ext_walk_fits in Hh. lia. }
      destruct (reaches_cut_after n raw Hr Hn) as (Hr' & E1 & Ec & E3).
      assert (Hlen' : len (take n raw) = Z.of_nat n) by (rewrite len_take; lia).
      rewrite parse_spec, parse_body_spec, Hr', E1, Ec, E3.
      rewrite !byte_at_take, Hb0, Hb5, Hlen' by lia.
      destruct (Z.ltb_spec (Z.of_nat n) 5); [lia|].
      destruct (Z.ltb_spec (Z.of_nat n) 6); [lia|].
      destruct (Z.leb_spec (Z.of_nat n) 9); [lia|]. cbn [orb negb Z.eqb Pos.eqb].
      rewrite (ext_loop_walk (take n raw) _ _ (length raw))
        by (rewrite ?Hlen'; unfold len in *; lia).
      rewrite !u16_at_take, ext_walk_take by lia.
      eexists. split; [reflexivity|]. cbn [version cipher_suites extensions].
      rewrite Hv, Hcs. split; [done|]. split; [|done].
      apply codes_take; [lia|]. fold (o2 raw). lia.
Qed.

Lemma c6_truncation_safety_witness :
  (len hello < 5 -> parse_tls_client_hello hello = ReturnNone)
  /\ (byte_at hello 0 <> 0x16 -> parse_tls_client_hello hello = ReturnNone)
  /\ (forall e, parse_tls_client_hello hello <> Raise e)
  /\ (forall v e, parse_body hello v 9 <> Raise e)
  /\ (forall d, parse_tls_client_hello hello = Val d ->
        exists o, ext_block_start hello = Val o /\ o <= len hello
          /\ extensions d = map snd (ext_headers hello)
          /\ (forall n : nat, Z.of_nat n < o ->
                parse_tls_client_hello (take n hello) = ReturnNone)
          /\ (forall n : nat, o <= Z.of_nat n ->
                exists d', parse_tls_client_hello (take n hello) = Val d'
                           /\ version d' = version d
                           /\ cipher_suites d' = cipher_suites d
                           /\ extensions d'
                              = map snd (List.filter
                                           (fun h : Z * Z => h.1 + 4 <=? Z.of_nat n)
                                           (ext_headers hello)))).
Proof. exact (c6_truncation_safety hello). Defined.


(** *** What a successful parse guarantees *)

(** The types the loop appends are 16-bit values, and each one accounts
    for at least four bytes of the buffer after [eo]. *)
Lemma ext_loop_result raw off E eo exts :
  0 <= eo ->
  exists more,
    ext_loop raw off E eo exts = Val (exts ++ more)
    /\ Forall (fun t => 0 <= t < 65536) more
    /\ 4 * len more <= Z.max 0 (len raw - eo).
Proof.
  intros Heo.
  remember (Z.to_nat (len raw - eo)) as m eqn:Hm.
  revert eo exts Heo Hm. induction m as [m IH] using lt_wf_ind.
  intros eo exts Heo Hm.
  destruct (decide (eo < off + E /\ eo + 4 <= len raw)) as [[Hblock Hbuf]|Hstop].
  - rewrite ext_loop_step by done.
    pose proof (u16_at_range raw (eo + 2)).
    destruct (IH (Z.to_nat (len raw - (eo + 4 + u16_at raw (eo + 2)))) ltac:(lia)
                 (eo + 4 + u16_at raw (eo + 2)) (exts ++ [u16_at raw eo])
                 ltac:(lia) eq_refl) as (more & Hmore & Hrange & Hcount).
    exists (u16_at raw eo :: more). rewrite Hmore, <- app_assoc.
    split; [done|]. split.
    + constructor; [apply u16_at_range|done].
    + unfold len in *. simpl length. lia.
  - exists []. rewrite app_nil_r. split; [apply ext_loop_stop; lia|].
    split; [constructor|]. unfold len. simpl. lia.
Qed.

Lemma codes_range raw o n : Forall (fun c => 0 <= c < 65536) (codes raw o n).
Proof.
  revert o. induction n as [|n IH]; intros o; [constructor|].
  rewrite codes_S. constructor; [apply u16_at_range|apply IH].
Qed.

Lemma contains_elem_of x l : contains x l = true <-> x ∈ l.
Proof.
  unfold contains. rewrite existsb_exists. split.
  - intros (y & Hy & ->%Z.eqb_eq). by apply list_elem_of_In.
  - intros Hx. exists x. split; [by apply list_elem_of_In|apply Z.eqb_refl].
Qed.

(** The shape of every successful result. *)
Lemma parse_val_shape raw d :
  parse_tls_client_hello raw = Val d ->
  exists exts,
    reaches raw = true
    /\ byte_at raw 0 = 0x16 /\ byte_at raw 5 = 0x01
    /\ Forall (fun t => 0 <= t < 65536) exts
    /\ 4 * len exts <= len raw - (o3 raw + 2)
    /\ ext_loop raw (o3 raw + 2) (u16_at raw (o3 raw)) (o3 raw + 2) [] = Val exts
    /\ d = {| version := u16_at raw 1;
              cipher_suites := codes raw (o1 raw + 2) (nc raw);
              extensions := exts; alpn := contains 16 exts;
              sni := contains 0 exts; valid := true |}.
Proof.
  rewrite parse_spec, parse_body_spec.
  destruct (Z.ltb_spec (len raw) 5); [done|].
  destruct (Z.eqb_spec (byte_at raw 0) 22); [|done].
  destruct (Z.ltb_spec (len raw) 6); [done|].
  destruct (Z.eqb_spec (byte_at raw 5) 1); [|done].
  destruct (Z.leb_spec (len raw) 9); [done|]. cbn [orb negb].
  destruct (reaches raw) eqn:Hr; [|done].
  pose proof Hr as (H41 & Ho1 & Ho2 & Ho3)%reaches_true.
  pose proof (o1_bounds raw). pose proof (o2_bounds raw). pose proof (o3_bounds raw).
  destruct (ext_loop_result raw (o3 raw + 2) (u16_at raw (o3 raw)) (o3 raw + 2) [])
    as (exts & Hloop & Hrange & Hcount); [lia|].
  simpl in Hloop. rewrite Hloop. cbn. intros [= <-].
  exists exts. repeat (split; [done || lia|]). done.
Qed.

(** A successful parse has read every cipher code its length field
    announces: the [break] of the cipher loop always ends in [None]. *)
Lemma reaches_all_codes raw :
  reaches raw = true -> Z.of_nat (nc raw) = (u16_at raw (o1 raw) + 1) / 2.
Proof.
  intros (H41 & Ho1 & Ho2 & Ho3)%reaches_true.
  pose proof (o1_bounds raw) as Hb1.
  pose proof (u16_at_range raw (o1 raw)) as HL.
  revert Ho2 Ho3. unfold o3, o2, nc, pairs_read.
  generalize dependent (u16_at raw (o1 raw)). intros L HL.
  set (c := (L + 1) / 2).
  assert (0 <= c) by (subst c; Z.div_mod_to_equations; lia).
  clearbody c.
  set (m := Z.to_nat (Z.min c (Z.max 0 ((len raw - (o1 raw + 2)) / 2)))).
  intros Ho2 Ho3.
  pose proof (byte_at_range raw (o1 raw + 2 + 2 * Z.of_nat m)) as Hb.
  subst m. Z.div_mod_to_equations. lia.
Qed.

(** X1: only a handshake record of type ClientHello that is at least 47
    bytes long can parse: a buffer under 47 bytes, or whose first byte
    is not 0x16, or whose sixth byte is not 0x01, gives [None]; and
    there is a 47-byte buffer that parses. *)
Theorem x_parse_requirements :
  (forall raw,
     len raw < 47 \/ byte_at raw 0 <> 0x16 \/ byte_at raw 5 <> 0x01 ->
     parse_tls_client_hello raw = ReturnNone)
  /\ exists raw d, len raw = 47 /\ parse_tls_client_hello raw = Val d.
Proof.
  split.
  - intros raw Hbad.
    destruct (parse_tls_client_hello raw) as [d| |e] eqn:Hp; [|done|].
    + exfalso. apply parse_val_shape in Hp as (exts & Hr & Hb0 & Hb5 & _).
      apply reaches_true in Hr as (H41 & Ho1 & Ho2 & Ho3).
      pose proof (o1_bounds raw). pose proof (o2_bounds raw).
      pose proof (o3_bounds raw). lia.
    + by destruct (parse_no_raise raw e).
  - exists hello_min. eexists. split; vm_compute; reflexivity.
Qed.

Lemma x_parse_requirements_witness :
  parse_tls_client_hello (take 46 hello_min) = ReturnNone
  /\ parse_tls_client_hello data_record = ReturnNone.
Proof.
  destruct x_parse_requirements as [Hreq _]. split.
  - apply Hreq. left. vm_compute. reflexivity.
  - apply Hreq. right. left. vm_compute. discriminate.
Defined.

(** X2: every successful result is well formed: [valid] is set, the
    version is the big-endian value of bytes 1-2 of the record header,
    cipher codes and extension types are 16-bit values, and the ALPN
    and SNI flags are set exactly when type 16, respectively type 0, is
    among the recorded extension types. *)
Theorem x_parse_result_well_formed (raw : list byte) (d : TlsData) :
  parse_tls_client_hello raw = Val d ->
  valid d = true
  /\ version d = u16_at raw 1
  /\ Forall (fun c => 0 <= c < 65536) (cipher_suites d)
  /\ Forall (fun t => 0 <= t < 65536) (extensions d)
  /\ (alpn d = true <-> 16 ∈ extensions d)
  /\ (sni d = true <-> 0 ∈ extensions d).
Proof.
  intros (exts & _ & _ & _ & Hrange & _ & _ & ->)%parse_val_shape.
  cbn [valid version cipher_suites extensions alpn sni].
  split; [done|]. split; [done|]. split; [apply codes_range|].
  split; [done|]. split; apply contains_elem_of.
Qed.

Lemma x_parse_result_well_formed_witness :
  exists d, parse_tls_client_hello hello = Val d
    /\ valid d = true /\ version d = u16_at hello 1
    /\ Forall (fun c => 0 <= c < 65536) (cipher_suites d)
    /\ Forall (fun t => 0 <= t < 65536) (extensions d)
    /\ (alpn d = true <-> 16 ∈ extensions d)
    /\ (sni d = true <-> 0 ∈ extensions d).
Proof.
  eexists. split; [vm_compute; reflexivity|].
  apply (x_parse_result_well_formed hello). vm_compute. reflexivity.
Defined.

(** X3: a successful result never holds a partial cipher list: with [L]
    the 16-bit value the parser takes as the cipher-suite length, the
    list has exactly ceil(L/2) codes; and the result is bounded by the
    buffer: two bytes per cipher code and four per extension type fit
    in the buffer after the 47 bytes of fixed fields. *)
Theorem x_parse_result_sizes (raw : list byte) (d : TlsData) :
  parse_tls_client_hello raw = Val d ->
  len (cipher_suites d) = (u16_at raw (42 + byte_at raw 41) + 1) / 2
  /\ 2 * len (cipher_suites d) + 4 * len (extensions d) + 47 <= len raw.
Proof.
  intros (exts & Hr & _ & _ & _ & Hcount & _ & ->)%parse_val_shape.
  cbn [cipher_suites extensions].
  pose proof (reaches_all_codes raw Hr) as Hnc. fold (o1 raw).
  assert (Hcodes : len (codes raw (o1 raw + 2) (nc raw)) = Z.of_nat (nc raw))
    by (unfold len; by rewrite codes_length).
  rewrite Hcodes. split; [done|].
  pose proof (o1_bounds raw). pose proof (o3_bounds raw).
  unfold o2 in *. lia.
Qed.

Lemma x_parse_result_sizes_witness :
  exists d, parse_tls_client_hello hello = Val d
    /\ len (cipher_suites d) = (u16_at hello (42 + byte_at hello 41) + 1) / 2
    /\ 2 * len (cipher_suites d) + 4 * len (extensions d) + 47 <= len hello.
Proof.
  eexists. split; [vm_compute; reflexivity|].
  apply (x_parse_result_sizes hello). vm_compute. reflexivity.
Defined.


(** *** Bytes the parser never looks at *)

Lemma codes_agree raw raw' o n :
  0 <= o ->
  (forall i, o <= i -> byte_at raw i = byte_at raw' i) ->
  codes raw o n = codes raw' o n.
Proof.
  revert o. induction n as [|n IH]; intros o Ho Hagree; [done|].
  rewrite !codes_S. f_equal.
  - unfold u16_at. by rewrite !Hagree by lia.
  - apply IH; [lia|]. intros i Hi. apply Hagree. lia.
Qed.

Lemma ext_loop_agree raw raw' off E eo exts :
  0 <= eo -> len raw = len raw' ->
  (forall i, eo <= i -> byte_at raw i = byte_at raw' i) ->
  ext_loop raw off E eo exts = ext_loop raw' off E eo exts.
Proof.
  intros Heo Hlen.
  remember (Z.to_nat (len raw - eo)) as m eqn:Hm.
  revert eo exts Heo Hm. induction m as [m IH] using lt_wf_ind.
  intros eo exts Heo Hm Hagree.
  destruct (decide (eo < off + E /\ eo + 4 <= len raw)) as [[Hblock Hbuf]|Hstop].
  - rewrite (ext_loop_step raw), (ext_loop_step raw') by lia.
    assert (Ht : u16_at raw eo = u16_at raw' eo)
      by (unfold u16_at; by rewrite !Hagree by lia).
    assert (Hl : u16_at raw (eo + 2) = u16_at raw' (eo + 2))
      by (unfold u16_at; by rewrite !Hagree by lia).
    rewrite <- Ht, <- Hl.
    pose proof (u16_at_range raw (eo + 2)).
    apply (IH (Z.to_nat (len raw - (eo + 4 + u16_at raw (eo + 2)))));
      [lia|lia|done|].
    intros i Hi. apply Hagree. lia.
  - rewrite (ext_loop_stop raw), (ext_loop_stop raw') by lia. done.
Qed.

(** X4: the parser never looks at the record length (bytes 3-4), the
    handshake length (bytes 6-8) or the 32 bytes it skips (bytes 9-40):
    two buffers of the same length that agree on every other byte give
    the same result. *)
Theorem x_parse_ignores_skipped_bytes (raw raw' : list byte) :
  length raw = length raw' ->
  (forall i : nat, (i < 3 \/ i = 5 \/ 41 <= i)%nat ->
     nth i raw x00 = nth i raw' x00) ->
  parse_tls_client_hello raw = parse_tls_client_hello raw'.
Proof.
  intros Hlength Hnth.
  assert (Hlen : len raw = len raw') by (unfold len; by rewrite Hlength).
  assert (Hb : forall i, (0 <= i < 3 \/ i = 5 \/ 41 <= i) ->
                 byte_at raw i = byte_at raw' i).
  { intros i Hi. unfold byte_at. f_equal. apply Hnth. lia. }
  pose proof (o1_bounds raw) as Hb1. pose proof (o2_bounds raw) as Hb2.
  pose proof (o3_bounds raw) as Hb3.
  assert (E1 : o1 raw' = o1 raw) by (unfold o1; by rewrite Hb by lia).
  assert (EL : u16_at raw' (o1 raw) = u16_at raw (o1 raw))
    by (unfold u16_at; by rewrite !Hb by lia).
  assert (Ec : nc raw' = nc raw)
    by (unfold nc, pairs_read; by rewrite E1, EL, Hlen).
  assert (E2 : o2 raw' = o2 raw) by (unfold o2; by rewrite E1, Ec).
  assert (E3 : o3 raw' = o3 raw) by (unfold o3; by rewrite E2, Hb by lia).
  assert (Er : reaches raw' = reaches raw)
    by (unfold reaches; by rewrite E1, E2, E3, Hlen).
  rewrite !parse_spec, !parse_body_spec, Er, E1, Ec, E3, <- Hlen.
  rewrite <- (Hb 0), <- (Hb 5) by lia.
  assert (Ev : u16_at raw' 1 = u16_at raw 1)
    by (unfold u16_at; by rewrite !Hb by lia).
  assert (EE : u16_at raw' (o3 raw) = u16_at raw (o3 raw))
    by (unfold u16_at; by rewrite !Hb by lia).
  rewrite Ev, EE.
  rewrite (codes_agree raw' raw) by (lia || (intros i Hi; symmetry; apply Hb; lia)).
  rewrite (ext_loop_agree raw' raw)
    by (lia || done || (intros i Hi; symmetry; apply Hb; lia)).
  done.
Qed.

Lemma x_parse_ignores_skipped_bytes_witness :
  parse_tls_client_hello hello = parse_tls_client_hello hello_other_random.
Proof.
  apply (x_parse_ignores_skipped_bytes hello hello_other_random).
  - reflexivity.
  - intros i Hi.
    do 3 (destruct i as [|i]; [reflexivity|]).
    do 2 (destruct i as [|i]; [lia|]).
    destruct i as [|i]; [reflexivity|].
    do 35 (destruct i as [|i]; [lia|]).
    reflexivity.
Defined.

(** X5: when the declared cipher-suite length [L] is even and the [L]
    bytes of the block lie in the buffer, the parser reads exactly
    [L / 2] codes, the big-endian 16-bit values of the block in wire
    order, and the next field is read right after the block. *)
Theorem x_even_length_reads_block (raw : list byte) (offset L : Z) :
  0 <= offset ->
  u16_at raw offset = L ->
  Z.even L = true ->
  offset + 2 + L <= len raw ->
  read_cipher_suites raw offset
  = Val (codes raw (offset + 2) (Z.to_nat (L / 2)), offset + 2 + L).
Proof.
  intros Hoff HL Heven Hlen.
  pose proof (u16_at_range raw offset) as HLr. rewrite HL in HLr.
  rewrite Z.even_spec in Heven. destruct Heven as [h Hh].
  assert (Hdiv : L / 2 = h) by (Z.div_mod_to_equations; lia).
  assert (Hn : (L + 1) / 2 = h) by (Z.div_mod_to_equations; lia).
  rewrite read_cipher_suites_spec by done.
  destruct (Z.leb_spec (len raw) (offset + 1)); [lia|]. cbv zeta.
  rewrite HL, Hn, Hdiv.
  assert (Hk : pairs_read raw (offset + 2) h = Z.to_nat h).
  { unfold pairs_read. f_equal. Z.div_mod_to_equations. lia. }
  rewrite Hk. do 2 f_equal. lia.
Qed.

Lemma x_even_length_reads_block_witness :
  read_cipher_suites hello 44
  = Val (codes hello (44 + 2) (Z.to_nat (8 / 2)), 44 + 2 + 8).
Proof.
  apply (x_even_length_reads_block hello 44 8).
  - lia.
  - reflexivity.
  - reflexivity.
  - vm_compute. discriminate.
Defined.

(** *** Extension blocks made of complete extensions *)

Lemma byte_val_byte_of z : 0 <= z < 256 -> byte_val (byte_of z) = z.
Proof.
  intros Hz. unfold byte_val, byte_of.
  destruct (Byte.of_N (Z.to_N z)) as [b|] eqn:Hb.
  - apply Byte.to_of_N in Hb. lia.
  - apply Byte.of_N_None_iff in Hb. lia.
Qed.

Lemma byte_at_middle pre b rest : byte_at (pre ++ b :: rest) (len pre) = byte_val b.
Proof.
  unfold byte_at, len. rewrite Nat2Z.id. f_equal. apply nth_middle.
Qed.

Lemma u16_at_be16 pre v rest :
  0 <= v < 65536 -> u16_at (pre ++ be16 v ++ rest) (len pre) = v.
Proof.
  intros Hv. unfold u16_at, be16. cbn [app].
  rewrite byte_at_middle.
  replace (pre ++ byte_of (v / 256) :: byte_of (v mod 256) :: rest)
    with ((pre ++ [byte_of (v / 256)]) ++ byte_of (v mod 256) :: rest)
    by (by rewrite <- app_assoc).
  replace (len pre + 1) with (len (pre ++ [byte_of (v / 256)]))
    by (unfold len; rewrite length_app; simpl; lia).
  rewrite byte_at_middle.
  rewrite !byte_val_byte_of by (Z.div_mod_to_equations; lia).
  Z.div_mod_to_equations. lia.
Qed.

Lemma len_app {A} (l1 l2 : list A) : len (l1 ++ l2) = len l1 + len l2.
Proof. unfold len. rewrite length_app. lia. Qed.

Lemma len_ext_wire e : len (ext_wire e) = 4 + len e.2.
Proof. unfold ext_wire, be16. rewrite !len_app. unfold len. simpl. lia. Qed.

Lemma ext_loop_wire es : forall pre post acc off E,
  off + E = len pre + len (exts_wire es) ->
  Forall (fun e => 0 <= e.1 < 65536 /\ len e.2 < 65536) es ->
  ext_loop (pre ++ exts_wire es ++ post) off E (len pre) acc
  = Val (acc ++ map fst es).
Proof.
  induction es as [|e es IH]; intros pre post acc off E HE Hok.
  - simpl. rewrite app_nil_r. apply ext_loop_stop. left.
    unfold exts_wire in HE. simpl in HE. unfold len in *. simpl in *. lia.
  - apply Forall_cons in Hok as [[Ht Hd] Hok].
    assert (Hwire : exts_wire (e :: es) = ext_wire e ++ exts_wire es) by done.
    rewrite Hwire in *. rewrite len_app, len_ext_wire in HE.
    pose proof (len_nonneg (exts_wire es)). pose proof (len_nonneg e.2).
    pose proof (len_nonneg pre).
    set (raw := pre ++ (ext_wire e ++ exts_wire es) ++ post).
    assert (Hraw : len raw = len pre + (4 + len e.2) + len (exts_wire es) + len post).
    { subst raw. rewrite !len_app, len_ext_wire. lia. }
    pose proof (len_nonneg post).
    rewrite ext_loop_step by lia.
    assert (Htype : u16_at raw (len pre) = e.1).
    { subst raw. unfold ext_wire. rewrite <- !app_assoc.
      by apply u16_at_be16. }
    assert (Hlen : u16_at raw (len pre + 2) = len e.2).
    { subst raw. unfold ext_wire. rewrite <- !app_assoc.
      rewrite (app_assoc pre (be16 e.1)).
      replace (len pre + 2) with (len (pre ++ be16 e.1))
        by (rewrite len_app; unfold be16, len; simpl; lia).
      apply u16_at_be16. lia. }
    rewrite Htype, Hlen.
    replace (len pre + 4 + len e.2) with (len (pre ++ ext_wire e))
      by (rewrite len_app, len_ext_wire; lia).
    subst raw.
    replace (pre ++ (ext_wire e ++ exts_wire es) ++ post)
      with ((pre ++ ext_wire e) ++ exts_wire es ++ post)
      by (by rewrite <- !app_assoc).
    rewrite IH; [|rewrite len_app, len_ext_wire; lia|done].
    simpl. by rewrite <- app_assoc.
Qed.

(** X6: an extensions block made of complete extensions, each a 2-byte
    type, a 2-byte length and that many bytes of data, is read back
    exactly: the loop returns the types in wire order, whatever
    precedes and follows the block in the buffer. *)
Theorem x_extension_block_round_trip
    (pre post : list byte) (es : list (Z * list byte)) :
  Forall (fun e => 0 <= e.1 < 65536 /\ len e.2 < 65536) es ->
  ext_loop (pre ++ exts_wire es ++ post) (len pre) (len (exts_wire es))
           (len pre) []
  = Val (map fst es).
Proof. intros Hok. by rewrite (ext_loop_wire es pre post []). Qed.

Lemma x_extension_block_round_trip_witness :
  ext_loop (take 58 hello ++ exts_wire hello_extensions ++ [])
           (len (take 58 hello)) (len (exts_wire hello_extensions))
           (len (take 58 hello)) []
  = Val (map fst hello_extensions)
  /\ take 58 hello ++ exts_wire hello_extensions ++ [] = hello.
Proof.
  split; [|vm_compute; reflexivity].
  apply (x_extension_block_round_trip (take 58 hello) [] hello_extensions).
  repeat constructor; vm_compute; congruence.
Defined.


(** *** The extension list of a cut buffer *)

(** On a cut buffer the loop takes the same turns as on the whole
    buffer for as long as it goes on. *)
Lemma ext_loop_cut_prefix (n : nat) raw off E eo exts :
  Z.of_nat n <= len raw -> 0 <= eo ->
  exists more more',
    ext_loop (take n raw) off E eo exts = Val (exts ++ more)
    /\ ext_loop raw off E eo exts = Val (exts ++ more ++ more').
Proof.
  intros Hn Heo.
  assert (Hlen : len (take n raw) = Z.of_nat n) by (rewrite len_take; lia).
  remember (Z.to_nat (len raw - eo)) as m eqn:Hm.
  revert eo exts Heo Hm. induction m as [m IH] using lt_wf_ind.
  intros eo exts Heo Hm.
  destruct (decide (eo < off + E /\ eo + 4 <= Z.of_nat n)) as [[Hblock Hbuf]|Hstop].
  - rewrite (ext_loop_step raw), (ext_loop_step (take n raw)) by lia.
    rewrite !u16_at_take by lia.
    pose proof (u16_at_range raw (eo + 2)).
    destruct (IH (Z.to_nat (len raw - (eo + 4 + u16_at raw (eo + 2)))) ltac:(lia)
                 (eo + 4 + u16_at raw (eo + 2)) (exts ++ [u16_at raw eo])
                 ltac:(lia) eq_refl) as (more & more' & Hcut & Hall).
    exists (u16_at raw eo :: more), more'.
    rewrite Hcut, Hall, <- !app_assoc. done.
  - destruct (ext_loop_total raw off E eo exts Heo) as [more' Hall].
    exists [], more'. rewrite app_nil_r. split; [|done].
    apply ext_loop_stop. lia.
Qed.

(** A cut three bytes or more after the end of the declared block does
    not change what the loop does. *)
Lemma ext_loop_cut_same (n : nat) raw off E eo exts :
  Z.of_nat n <= len raw -> off + E + 3 <= Z.of_nat n -> 0 <= eo ->
  ext_loop (take n raw) off E eo exts = ext_loop raw off E eo exts.
Proof.
  intros Hn Hend Heo.
  assert (Hlen : len (take n raw) = Z.of_nat n) by (rewrite len_take; lia).
  remember (Z.to_nat (len raw - eo)) as m eqn:Hm.
  revert eo exts Heo Hm. induction m as [m IH] using lt_wf_ind.
  intros eo exts Heo Hm.
  destruct (decide (eo < off + E)) as [Hblock|Hstop].
  - rewrite (ext_loop_step raw), (ext_loop_step (take n raw)) by lia.
    rewrite !u16_at_take by lia.
    pose proof (u16_at_range raw (eo + 2)).
    apply (IH (Z.to_nat (len raw - (eo + 4 + u16_at raw (eo + 2))))); lia.
  - rewrite (ext_loop_stop raw), (ext_loop_stop (take n raw)) by lia. done.
Qed.

(** X17: what a cut does to the extension list.  When a buffer parses,
    every cut of it at or after the start [o] of its extensions block
    gives a prefix of its extension list; and a cut at least three
    bytes after the declared end of the block gives the very same
    result: bytes that follow the block by three or more are never
    looked at. *)
Theorem x_extensions_under_truncation
    (raw : list byte) (d : TlsData) (o : Z) (n : nat) :
  parse_tls_client_hello raw = Val d ->
  ext_block_start raw = Val o ->
  o <= Z.of_nat n ->
  exists d', parse_tls_client_hello (take n raw) = Val d'
    /\ extensions d' `prefix_of` extensions d
    /\ (o + u16_at raw (o - 2) + 3 <= Z.of_nat n -> d' = d).
Proof.
  intros Hd Ho Hn.
  destruct (Z.le_gt_cases (len raw) (Z.of_nat n)) as [Hge|Hlt].
  { rewrite take_ge by (unfold len in Hge; lia). by exists d. }
  apply parse_val_shape in Hd as (exts & Hr & Hb0 & Hb5 & _ & _ & Hloop & ->).
  rewrite ext_block_start_spec, Hr in Ho. injection Ho as <-.
  replace (o3 raw + 2 - 2) with (o3 raw) by lia.
  pose proof (o1_bounds raw) as Hb1. pose proof (o2_bounds raw) as Hb2.
  pose proof (o3_bounds raw) as Hb3.
  pose proof Hr as (H41 & Ho1 & Ho2 & Ho3)%reaches_true.
  destruct (reaches_cut_after n raw Hr Hn) as (Hr' & E1 & Ec & E3).
  assert (Hlen' : len (take n raw) = Z.of_nat n) by (rewrite len_take; lia).
  rewrite parse_spec, parse_body_spec, Hr', E1, Ec, E3.
  rewrite !byte_at_take, Hb0, Hb5, Hlen' by lia.
  destruct (Z.ltb_spec (Z.of_nat n) 5); [lia|].
  destruct (Z.ltb_spec (Z.of_nat n) 6); [lia|].
  destruct (Z.leb_spec (Z.of_nat n) 9); [lia|]. cbn [orb negb Z.eqb Pos.eqb].
  rewrite !u16_at_take by lia.
  rewrite codes_take by (try fold (o2 raw); lia).
  destruct (ext_loop_cut_prefix n raw (o3 raw + 2) (u16_at raw (o3 raw))
              (o3 raw + 2) []) as (more & more' & Hcut & Hall); [lia|lia|].
  rewrite Hloop in Hall. simpl in Hcut, Hall. injection Hall as ->.
  rewrite Hcut. eexists. split; [reflexivity|]. cbn [extensions].
  split; [by exists more'|].
  intros Hend.
  rewrite ext_loop_cut_same, Hloop in Hcut by lia.
  injection Hcut as Hcut. by rewrite Hcut.
Qed.

Lemma x_extensions_under_truncation_witness :
  exists d', parse_tls_client_hello (take 77 hello) = Val d'
    /\ extensions d' `prefix_of` [0; 16; 11; 10]
    /\ (58 + u16_at hello (58 - 2) + 3 <= Z.of_nat 77 ->
        d' = {| version := 0x0301;
                cipher_suites := [0x1301; 0x1302; 0x1303; 0x1304];
                extensions := [0; 16; 11; 10];
                alpn := true; sni := true; valid := true |}).
Proof.
  apply (x_extensions_under_truncation hello
           {| version := 0x0301;
              cipher_suites := [0x1301; 0x1302; 0x1303; 0x1304];
              extensions := [0; 16; 11; 10];
              alpn := true; sni := true; valid := true |} 58 77).
  - vm_compute. reflexivity.
  - vm_compute. reflexivity.
  - lia.
Defined.


(** *** The layout the parser reads *)

Lemma len_codes_wire cs : len (codes_wire cs) = 2 * len cs.
Proof.
  induction cs as [|c cs IH]; [done|].
  change (codes_wire (c :: cs)) with (be16 c ++ codes_wire cs).
  rewrite len_app, IH. unfold be16, len. simpl. lia.
Qed.

Lemma codes_wire_read cs : forall pre rest,
  Forall (fun c => 0 <= c < 65536) cs ->
  codes (pre ++ codes_wire cs ++ rest) (len pre) (length cs) = cs.
Proof.
  induction cs as [|c cs IH]; intros pre rest Hcs; [done|].
  apply Forall_cons in Hcs as [Hc Hcs].
  cbn [length]. rewrite codes_S. f_equal.
  - change (codes_wire (c :: cs)) with (be16 c ++ codes_wire cs).
    rewrite <- app_assoc. by apply u16_at_be16.
  - replace (len pre + 2) with (len (pre ++ be16 c))
      by (rewrite len_app; unfold be16, len; simpl; lia).
    replace (pre ++ codes_wire (c :: cs) ++ rest)
      with ((pre ++ be16 c) ++ codes_wire cs ++ rest).
    + by apply IH.
    + change (codes_wire (c :: cs)) with (be16 c ++ codes_wire cs).
      by rewrite <- !app_assoc.
Qed.

(** X24: the parser reads back what is laid out in the order it
    expects.  For a record made of the type 0x16, a 16-bit version, two
    bytes, the type 0x01, 35 bytes, a session id, cipher codes, the
    compression methods and complete extensions, each after its length,
    the result holds that version, those cipher codes and the types of
    those extensions, whatever follows the extensions.  The 35 skipped
    bytes and the position of each field are those of the code, not of
    the TLS standard. *)
Theorem x_parse_inverts_layout (v : Z) (l2 l35 session_id : list byte)
    (cs : list Z) (compression : list byte) (es : list (Z * list byte))
    (post : list byte) :
  0 <= v < 65536 ->
  length l2 = 2%nat -> length l35 = 35%nat ->
  len session_id < 256 -> len compression < 256 ->
  Forall (fun c => 0 <= c < 65536) cs -> 2 * len cs < 65536 ->
  Forall (fun e => 0 <= e.1 < 65536 /\ len e.2 < 65536) es ->
  len (exts_wire es) < 65536 ->
  parse_tls_client_hello (hello_wire v l2 l35 session_id cs compression es post)
  = Val {| version := v; cipher_suites := cs; extensions := map fst es;
           alpn := contains 16 (map fst es); sni := contains 0 (map fst es);
           valid := true |}.
Proof.
  intros Hv Hl2 Hl35 Hsid Hcomp Hcs Hn Hes HE.
  destruct l2 as [|a [|b [|? ?]]]; try done. clear Hl2.
  set (raw := hello_wire v [a; b] l35 session_id cs compression es post).
  set (P1 := [x16] ++ be16 v ++ [a; b] ++ [x01] ++ l35).
  set (P2 := P1 ++ [byte_of (len session_id)] ++ session_id).
  set (P3 := P2 ++ be16 (2 * len cs)).
  set (P4 := P3 ++ codes_wire cs).
  set (P5 := P4 ++ [byte_of (len compression)] ++ compression).
  set (P6 := P5 ++ be16 (len (exts_wire es))).
  pose proof (len_nonneg session_id). pose proof (len_nonneg compression).
  pose proof (len_nonneg cs). pose proof (len_nonneg (exts_wire es)).
  pose proof (len_nonneg post).
  assert (L1 : len P1 = 41) by (unfold len, P1, be16 in *; simpl; lia).
  assert (L2 : len P2 = 42 + len session_id).
  { unfold P2. rewrite !len_app, L1. unfold len. simpl. lia. }
  assert (L3 : len P3 = 44 + len session_id).
  { unfold P3. rewrite len_app, L2. unfold be16, len. simpl. lia. }
  assert (L4 : len P4 = 44 + len session_id + 2 * len cs).
  { unfold P4. rewrite len_app, L3, len_codes_wire. lia. }
  assert (L5 : len P5 = 45 + len session_id + 2 * len cs + len compression).
  { unfold P5. rewrite !len_app, L4. unfold len. simpl. lia. }
  assert (L6 : len P6 = 47 + len session_id + 2 * len cs + len compression).
  { unfold P6. rewrite len_app, L5. unfold be16, len. simpl. lia. }
  assert (R1 : raw = P1 ++ byte_of (len session_id)
                 :: (session_id ++ be16 (2 * len cs) ++ codes_wire cs
                     ++ [byte_of (len compression)] ++ compression
                     ++ be16 (len (exts_wire es)) ++ exts_wire es ++ post)).
  { unfold raw, hello_wire, P1. by rewrite <- !app_assoc. }
  assert (R2 : raw = P2 ++ be16 (2 * len cs)
                 ++ (codes_wire cs ++ [byte_of (len compression)] ++ compression
                     ++ be16 (len (exts_wire es)) ++ exts_wire es ++ post)).
  { rewrite R1. unfold P2. by rewrite <- !app_assoc. }
  assert (R3 : raw = P3 ++ codes_wire cs
                 ++ ([byte_of (len compression)] ++ compression
                     ++ be16 (len (exts_wire es)) ++ exts_wire es ++ post)).
  { rewrite R2. unfold P3. by rewrite <- !app_assoc. }
  assert (R4 : raw = P4 ++ byte_of (len compression)
                 :: (compression ++ be16 (len (exts_wire es))
                     ++ exts_wire es ++ post)).
  { rewrite R3. unfold P4. by rewrite <- !app_assoc. }
  assert (R5 : raw = P5 ++ be16 (len (exts_wire es)) ++ (exts_wire es ++ post)).
  { rewrite R4. unfold P5. by rewrite <- !app_assoc. }
  assert (R6 : raw = P6 ++ exts_wire es ++ post).
  { rewrite R5. unfold P6. by rewrite <- !app_assoc. }
  assert (Hlen : len raw = 47 + len session_id + 2 * len cs + len compression
                           + len (exts_wire es) + len post).
  { rewrite R6, !len_app, L6. lia. }
  assert (B0 : byte_at raw 0 = 0x16) by done.
  assert (B5 : byte_at raw 5 = 0x01) by done.
  assert (V : u16_at raw 1 = v).
  { unfold raw, hello_wire. apply (u16_at_be16 [x16]). done. }
  assert (E1 : o1 raw = 42 + len session_id).
  { unfold o1. rewrite <- L1, R1, byte_at_middle, byte_val_byte_of; lia. }
  assert (EL : u16_at raw (o1 raw) = 2 * len cs).
  { rewrite E1, <- L2, R2. apply u16_at_be16. lia. }
  assert (Ec : nc raw = length cs).
  { unfold nc, pairs_read. rewrite EL, E1, Hlen. unfold len in *.
    Z.div_mod_to_equations. lia. }
  assert (E2 : o2 raw = 44 + len session_id + 2 * len cs).
  { unfold o2. rewrite E1, Ec. unfold len. lia. }
  assert (E3 : o3 raw = 45 + len session_id + 2 * len cs + len compression).
  { unfold o3. rewrite E2, <- L4, R4, byte_at_middle, byte_val_byte_of; lia. }
  assert (EE : u16_at raw (o3 raw) = len (exts_wire es)).
  { rewrite E3, <- L5, R5. apply u16_at_be16. lia. }
  assert (Hr : reaches raw = true) by (apply reaches_true; lia).
  assert (Hcodes : codes raw (o1 raw + 2) (nc raw) = cs).
  { rewrite Ec, E1. replace (42 + len session_id + 2) with (len P3) by lia.
    rewrite R3. by apply codes_wire_read. }
  assert (Hloop : ext_loop raw (o3 raw + 2) (u16_at raw (o3 raw)) (o3 raw + 2) []
                  = Val (map fst es)).
  { rewrite EE, E3.
    replace (45 + len session_id + 2 * len cs + len compression + 2)
      with (len P6) by lia.
    rewrite R6. by apply (ext_loop_wire es P6 post []). }
  rewrite parse_spec, parse_body_spec, Hr, B0, B5, V, Hcodes, Hloop.
  destruct (Z.ltb_spec (len raw) 5); [lia|].
  destruct (Z.ltb_spec (len raw) 6); [lia|].
  destruct (Z.leb_spec (len raw) 9); [lia|]. done.
Qed.

Lemma x_parse_inverts_layout_witness :
  parse_tls_client_hello
    (hello_wire 0x0301 [x00; x4b] (repeat x00 35) []
                [0x1301; 0x1302; 0x1303; 0x1304] [x00] hello_extensions [])
  = Val {| version := 0x0301;
           cipher_suites := [0x1301; 0x1302; 0x1303; 0x1304];
           extensions := map fst hello_extensions;
           alpn := contains 16 (map fst hello_extensions);
           sni := contains 0 (map fst hello_extensions);
           valid := true |}.
Proof.
  apply (x_parse_inverts_layout 0x0301 [x00; x4b] (repeat x00 35) []
           [0x1301; 0x1302; 0x1303; 0x1304] [x00] hello_extensions []);
    try reflexivity; try lia;
    repeat constructor; vm_compute; congruence.
Defined.

End ParserFacts.

(** ** The encoder *)

Module EncoderFacts.
Import EncoderSpec.
Import Samples.

Lemma str_app_assoc (a b c : string) :
  ((a ++ b) ++ c)%string = (a ++ (b ++ c))%string.
Proof.
  induction a as [|x a IH]; [done|].
  change (String x ((a ++ b) ++ c) = String x (a ++ (b ++ c)))%string.
  by rewrite IH.
Qed.

Lemma len_nonneg_list {A} (l : list A) : 0 <= len l.
Proof. unfold len. lia. Qed.

Lemma sorted_perm (l1 l2 : list Z) : l1 ≡ₚ l2 -> sorted l1 = sorted l2.
Proof.
  intros Hp. unfold sorted. apply (Sorted_unique Z.le).
  - apply Sorted_merge_sort; apply _.
  - apply Sorted_merge_sort; apply _.
  - by rewrite !merge_sort_Permutation.
Qed.

Lemma len_perm {A} (l1 l2 : list A) : l1 ≡ₚ l2 -> len l1 = len l2.
Proof. intros Hp. unfold len. by rewrite Hp. Qed.

Lemma version_map_lookup (v : Z) :
  dict_get version_map v "t13"%string = version_tag v.
Proof.
  unfold dict_get, version_map, version_tag.
  destruct (Z.eqb_spec v 0x0301) as [->|H1]; [vm_compute; reflexivity|].
  destruct (Z.eqb_spec v 0x0302) as [->|H2]; [vm_compute; reflexivity|].
  destruct (Z.eqb_spec v 0x0303) as [->|H3]; [vm_compute; reflexivity|].
  destruct (Z.eqb_spec v 0x0304) as [->|H4]; [vm_compute; reflexivity|].
  by rewrite !lookup_insert_ne, lookup_singleton_ne by done.
Qed.

Lemma fmt_02d_two_digits (n : Z) : 0 <= n <= 99 -> Fmt.fmt_02d n = two_digits n.
Proof.
  intros Hn. replace n with (Z.of_nat (Z.to_nat n)) by lia.
  assert (Hk : (Z.to_nat n < 100)%nat) by lia.
  revert Hk. generalize (Z.to_nat n). clear. intros k Hk.
  do 100 (destruct k as [|k]; [vm_compute; reflexivity|]). lia.
Qed.

(** C7: the fingerprint does not depend on the order of the cipher
    suites or of the extension types: two parse results that differ
    only by a permutation of each list encode to the same string. *)
Theorem c7_order_invariance (d : TlsData) (cs es : list Z) :
  cs ≡ₚ cipher_suites d ->
  es ≡ₚ extensions d ->
  calculate_ja4_improved
    {| version := version d; cipher_suites := cs; extensions := es;
       alpn := alpn d; sni := sni d; valid := valid d |}
  = calculate_ja4_improved d.
Proof.
  intros Hcs Hes. unfold calculate_ja4_improved.
  cbn [version cipher_suites extensions alpn sni].
  by rewrite (sorted_perm _ _ Hcs), (sorted_perm _ _ Hes),
             (len_perm _ _ Hcs), (len_perm _ _ Hes).
Qed.

Lemma c7_order_invariance_witness :
  calculate_ja4_improved
    {| version := 0x0303; cipher_suites := [0x1302; 0x1301; 0x1303];
       extensions := [16; 0; 10]; alpn := true; sni := true; valid := true |}
  = calculate_ja4_improved
      {| version := 0x0303; cipher_suites := [0x1301; 0x1302; 0x1303];
         extensions := [0; 16; 10]; alpn := true; sni := true; valid := true |}.
Proof.
  apply (c7_order_invariance
           {| version := 0x0303; cipher_suites := [0x1301; 0x1302; 0x1303];
              extensions := [0; 16; 10]; alpn := true; sni := true; valid := true |}
           [0x1302; 0x1301; 0x1303] [16; 0; 10]).
  - simpl. apply perm_swap.
  - simpl. apply perm_swap.
Defined.

(** C8: the fingerprint starts with the version tag ("t10", "t11",
    "t12", "t13" for 0x0301..0x0304 and "t13" for any other version),
    then "d" or "i" for SNI, then the cipher count and the extension
    count, each clamped to 99 and written as exactly two decimal digits
    (so 99 or more of either is written "99"), then "h2" or "00" for
    ALPN; the two hash segments follow, each after an underscore. *)
Theorem c8_prefix_format (d : TlsData) :
  let cipher_count := Z.min (len (cipher_suites d)) 99 in
  let ext_count := Z.min (len (extensions d)) 99 in
  (exists cipher_hash ext_hash,
     calculate_ja4_improved d
     = (version_tag (version d) ++ (if sni d then "d" else "i")
        ++ two_digits cipher_count ++ two_digits ext_count
        ++ (if alpn d then "h2" else "00")
        ++ "_" ++ cipher_hash ++ "_" ++ ext_hash)%string)
  /\ version_tag 0x0301 = "t10"%string /\ version_tag 0x0302 = "t11"%string
  /\ version_tag 0x0303 = "t12"%string /\ version_tag 0x0304 = "t13"%string
  /\ (forall v, v <> 0x0301 -> v <> 0x0302 -> v <> 0x0303 -> v <> 0x0304 ->
        version_tag v = "t13"%string)
  /\ (99 <= len (cipher_suites d) -> two_digits cipher_count = "99"%string)
  /\ (99 <= len (extensions d) -> two_digits ext_count = "99"%string)
  /\ (len (cipher_suites d) = 150 -> Fmt.fmt_02d cipher_count = "99"%string).
Proof.
  intros cipher_count ext_count.
  pose proof (@len_nonneg_list Z (cipher_suites d)) as Hc.
  pose proof (@len_nonneg_list Z (extensions d)) as He.
  split; [|split; [|split; [|split; [|split; [|split; [|split; [|split]]]]]]].
  - exists (str_prefix 12 (Sha256.hexdigest (encode (String.concat ","
              (map Fmt.fmt_04x (sorted (cipher_suites d))))))),
           (str_prefix 12 (Sha256.hexdigest (encode (String.concat ","
              (map Fmt.fmt_04x (sorted (extensions d))))))).
    unfold calculate_ja4_improved.
    rewrite version_map_lookup.
    rewrite (fmt_02d_two_digits (Z.min (len (cipher_suites d)) 99)) by lia.
    rewrite (fmt_02d_two_digits (Z.min (len (extensions d)) 99)) by lia.
    fold cipher_count ext_count.
    rewrite !str_app_assoc. reflexivity.
  - vm_compute; reflexivity.
  - vm_compute; reflexivity.
  - vm_compute; reflexivity.
  - vm_compute; reflexivity.
  - intros v H1 H2 H3 H4. unfold version_tag.
    destruct (Z.eqb_spec v 0x0301); [done|].
    destruct (Z.eqb_spec v 0x0302); [done|].
    destruct (Z.eqb_spec v 0x0303); [done|].
    destruct (Z.eqb_spec v 0x0304); [done|]. reflexivity.
  - intros H. subst cipher_count. rewrite Z.min_r by lia. vm_compute; reflexivity.
  - intros H. subst ext_count. rewrite Z.min_r by lia. vm_compute; reflexivity.
  - intros H. subst cipher_count. rewrite H. vm_compute; reflexivity.
Qed.

Lemma c8_prefix_format_witness :
  len (cipher_suites many_ciphers) = 150
  /\ Fmt.fmt_02d (Z.min (len (cipher_suites many_ciphers)) 99) = "99"%string.
Proof.
  split; [reflexivity|].
  pose proof (c8_prefix_format many_ciphers) as H. cbv zeta in H.
  apply H. reflexivity.
Defined.

(** [hashlib.sha256] on the standard test vectors: the empty message,
    a one-block message and a two-block message. *)
Example sha256_vectors :
  Sha256.K !! 0%nat = Some 0x428a2f98
  /\ Sha256.K !! 63%nat = Some 0xc67178f2
  /\ Sha256.H0 !! 7%nat = Some 0x5be0cd19
  /\ Sha256.hexdigest (encode "")
     = "e3b0c44298fc1c149afbf4c8996fb92427ae41e4649b934ca495991b7852b855"%string
  /\ Sha256.hexdigest (encode "abc")
     = "ba7816bf8f01cfea414140de5dae2223b00361a396177a9cb410ff61f20015ad"%string
  /\ Sha256.hexdigest
       (encode "abcdbcdecdefdefgefghfghighijhijkijkljklmklmnlmnomnopnopq")
     = "248d6a61d20638b8e5c026930c3e6039a33ce45964ff2167f6ecedd419db06c1"%string.
Proof. repeat split; vm_compute; reflexivity. Qed.

(** The whole fingerprint of that 150-suite input, with an unknown
    version: tag "t13", no SNI, counts 99 and 02, ALPN. *)
Example many_ciphers_fingerprint :
  calculate_ja4_improved many_ciphers
  = "t13i9902h2_45b8b1fbd496_a2cf1a00988d"%string.
Proof. vm_compute. reflexivity. Qed.

(** The end-to-end scenario of the specification: version 0x0303, four
    cipher suites in any wire order, extensions 0, 16, 11, 10. *)
Example scenario_fingerprint :
  calculate_ja4_improved
    {| version := 0x0303; cipher_suites := [0x1304; 0x1301; 0x1303; 0x1302];
       extensions := [0; 16; 11; 10]; alpn := true; sni := true; valid := true |}
  = "t12d0404h2_9caa18292e23_9df5fff9b10e"%string.
Proof. vm_compute. reflexivity. Qed.


(** *** Strings *)

Lemma app_String c a b : (String c a ++ b)%string = String c (a ++ b)%string.
Proof. reflexivity. Qed.

Lemma app_empty_r a : (a ++ "")%string = a.
Proof. induction a as [|c a IH]; [done|]. by rewrite app_String, IH. Qed.

Lemma str_length_app a b :
  String.length (a ++ b) = (String.length a + String.length b)%nat.
Proof.
  induction a as [|c a IH]; [done|].
  rewrite app_String. cbn [String.length]. by rewrite IH.
Qed.

Lemma str_app_inj a a' r r' :
  String.length a = String.length a' ->
  (a ++ r)%string = (a' ++ r')%string -> a = a' /\ r = r'.
Proof.
  revert a'. induction a as [|c a IH]; intros [|c' a']; try done.
  rewrite !app_String. cbn [String.length]. intros [= Hlen] [= -> Heq].
  destruct (IH a' Hlen Heq) as [-> ->]. done.
Qed.

Lemma all_hex_app a b : all_hex (a ++ b) = all_hex a && all_hex b.
Proof.
  induction a as [|c a IH]; [done|].
  rewrite app_String. unfold all_hex in *.
  cbn [list_ascii_of_string forallb]. by rewrite IH, andb_assoc.
Qed.

Lemma substring_length n s :
  String.length (String.substring 0 n s) = Nat.min n (String.length s).
Proof.
  revert s. induction n as [|n IH]; intros [|c s]; try done.
  cbn [String.substring String.length]. by rewrite IH.
Qed.

Lemma all_hex_substring n s :
  all_hex s = true -> all_hex (String.substring 0 n s) = true.
Proof.
  revert s. induction n as [|n IH]; intros [|c s]; try done.
  unfold all_hex in *. cbn [String.substring list_ascii_of_string forallb].
  intros [Hc Hs]%andb_true_iff. rewrite Hc. by apply IH.
Qed.

Lemma concat_empty_cons x xs :
  String.concat "" (x :: xs) = (x ++ String.concat "" xs)%string.
Proof. destruct xs as [|y xs]; [by rewrite app_empty_r|done]. Qed.

Lemma zeros_length k : String.length (String.concat "" (repeat "0"%string k)) = k.
Proof.
  induction k as [|k IH]; [done|].
  cbn [repeat]. rewrite concat_empty_cons, str_length_app, IH. done.
Qed.

Lemma zeros_all_hex k : all_hex (String.concat "" (repeat "0"%string k)) = true.
Proof.
  induction k as [|k IH]; [done|].
  cbn [repeat]. rewrite concat_empty_cons, all_hex_app, IH. done.
Qed.

Lemma zfill_length w s :
  String.length (Fmt.zfill w s) = Nat.max w (String.length s).
Proof. unfold Fmt.zfill. rewrite str_length_app, zeros_length. lia. Qed.

Lemma zfill_all_hex w s : all_hex s = true -> all_hex (Fmt.zfill w s) = true.
Proof. intros Hs. unfold Fmt.zfill. by rewrite all_hex_app, zeros_all_hex, Hs. Qed.

(** *** Hexadecimal digits *)

Lemma hex_uint_all_hex d : all_hex (HexadecimalString.NilEmpty.string_of_uint d) = true.
Proof.
  unfold all_hex.
  induction d as [|d IH|d IH|d IH|d IH|d IH|d IH|d IH|d IH|d IH|d IH|d IH|d IH
                  |d IH|d IH|d IH|d IH]; [done|..];
    cbn [HexadecimalString.NilEmpty.string_of_uint list_ascii_of_string forallb];
    by rewrite IH.
Qed.

Lemma hex_int_all_hex n : all_hex (Fmt.hex_int n) = true.
Proof.
  unfold Fmt.hex_int, HexadecimalString.NilZero.string_of_uint.
  destruct (N.to_hex_uint (Z.to_N n)); [done|..]; apply hex_uint_all_hex.
Qed.

(** *** The digest *)

Lemma round_length s kw : length s = 8%nat -> length (Sha256.round s kw) = 8%nat.
Proof. by destruct s as [|a [|b [|c [|d [|e [|f [|g [|h [|]]]]]]]]]. Qed.

Lemma fold_round_length l : forall s,
  length s = 8%nat -> length (fold_left Sha256.round l s) = 8%nat.
Proof.
  induction l as [|kw l IH]; intros s Hs; [done|].
  simpl. by apply IH, round_length.
Qed.

Lemma compress_length h block :
  length h = 8%nat -> length (Sha256.compress h block) = 8%nat.
Proof.
  intros Hh. unfold Sha256.compress.
  rewrite List.length_map, List.length_combine, fold_round_length by done. lia.
Qed.

Lemma blocks_length n : forall h bs,
  length h = 8%nat -> length (Sha256.blocks n h bs) = 8%nat.
Proof.
  induction n as [|n IH]; intros h bs Hh; [done|].
  simpl. by apply IH, compress_length.
Qed.

Lemma digest_words_length msg : length (Sha256.digest_words msg) = 8%nat.
Proof. unfold Sha256.digest_words. by apply blocks_length. Qed.

Lemma concat_words_length (f : Z -> string) ws :
  (forall w, (8 <= String.length (f w))%nat) ->
  (8 * length ws <= String.length (String.concat "" (map f ws)))%nat.
Proof.
  intros Hf. induction ws as [|w ws IH]; [done|].
  cbn [map]. rewrite concat_empty_cons, str_length_app.
  specialize (Hf w). simpl length. lia.
Qed.

Lemma concat_words_all_hex (f : Z -> string) ws :
  (forall w, all_hex (f w) = true) ->
  all_hex (String.concat "" (map f ws)) = true.
Proof.
  intros Hf. induction ws as [|w ws IH]; [done|].
  cbn [map]. by rewrite concat_empty_cons, all_hex_app, Hf, IH.
Qed.

Lemma hexdigest_length msg : (64 <= String.length (Sha256.hexdigest msg))%nat.
Proof.
  unfold Sha256.hexdigest.
  etrans; [|apply concat_words_length; intros w; rewrite zfill_length; lia].
  rewrite digest_words_length. lia.
Qed.

Lemma hexdigest_all_hex msg : all_hex (Sha256.hexdigest msg) = true.
Proof.
  unfold Sha256.hexdigest. apply concat_words_all_hex.
  intros w. apply zfill_all_hex, hex_int_all_hex.
Qed.

Lemma segment_length l : String.length (segment l) = 12%nat.
Proof.
  unfold segment, str_prefix. rewrite substring_length.
  pose proof (hexdigest_length (encode (hashed l))). lia.
Qed.

Lemma segment_all_hex l : all_hex (segment l) = true.
Proof. unfold segment, str_prefix. apply all_hex_substring, hexdigest_all_hex. Qed.

(** *** The parts of a fingerprint *)

Lemma calculate_parts d :
  calculate_ja4_improved d
  = (part1 d ++ "_" ++ segment (cipher_suites d) ++ "_" ++ segment (extensions d))%string.
Proof.
  pose proof (@len_nonneg_list Z (cipher_suites d)) as Hc.
  pose proof (@len_nonneg_list Z (extensions d)) as He.
  unfold calculate_ja4_improved, part1, segment, hashed.
  rewrite version_map_lookup.
  rewrite (fmt_02d_two_digits (Z.min (len (cipher_suites d)) 99)) by lia.
  rewrite (fmt_02d_two_digits (Z.min (len (extensions d)) 99)) by lia.
  rewrite !str_app_assoc. reflexivity.
Qed.

Lemma version_tag_length v : String.length (version_tag v) = 3%nat.
Proof. unfold version_tag. by repeat destruct (_ =? _). Qed.

Lemma part1_length d : String.length (part1 d) = 10%nat.
Proof.
  unfold part1. rewrite !str_length_app, version_tag_length.
  by destruct (sni d), (alpn d).
Qed.

(** X14: every fingerprint has the same shape: 36 characters, made of
    a 10-character prefix, an underscore, 12 lowercase hexadecimal
    digits (the start of the SHA-256 digest of the sorted cipher codes
    written as 4-digit hexadecimal numbers joined by commas), an
    underscore, and 12 lowercase hexadecimal digits for the extension
    types, computed the same way. *)
Theorem x_fingerprint_shape (d : TlsData) :
  calculate_ja4_improved d
  = (part1 d ++ "_" ++ segment (cipher_suites d) ++ "_" ++ segment (extensions d))%string
  /\ String.length (calculate_ja4_improved d) = 36%nat
  /\ String.length (part1 d) = 10%nat
  /\ String.length (segment (cipher_suites d)) = 12%nat
  /\ String.length (segment (extensions d)) = 12%nat
  /\ all_hex (segment (cipher_suites d)) = true
  /\ all_hex (segment (extensions d)) = true.
Proof.
  split; [apply calculate_parts|]. split.
  - rewrite calculate_parts, !str_length_app, part1_length, !segment_length. done.
  - split; [apply part1_length|]. split; [apply segment_length|].
    split; [apply segment_length|]. split; apply segment_all_hex.
Qed.

(** *** What a fingerprint determines *)

Lemma digit_inj a b : 0 <= a <= 9 -> 0 <= b <= 9 -> digit a = digit b -> a = b.
Proof.
  intros Ha Hb Heq. apply (f_equal N_of_ascii) in Heq. unfold digit in Heq.
  rewrite !N_ascii_embedding in Heq by lia. lia.
Qed.

Lemma two_digits_inj n m :
  0 <= n <= 99 -> 0 <= m <= 99 -> two_digits n = two_digits m -> n = m.
Proof.
  intros Hn Hm [= H1 H2].
  apply digit_inj in H1; [|Z.div_mod_to_equations; lia..].
  apply digit_inj in H2; [|Z.div_mod_to_equations; lia..].
  Z.div_mod_to_equations. lia.
Qed.

Lemma part1_inj d d' :
  part1 d = part1 d' ->
  version_tag (version d) = version_tag (version d')
  /\ sni d = sni d' /\ alpn d = alpn d'
  /\ Z.min (len (cipher_suites d)) 99 = Z.min (len (cipher_suites d')) 99
  /\ Z.min (len (extensions d)) 99 = Z.min (len (extensions d')) 99.
Proof.
  pose proof (@len_nonneg_list Z (cipher_suites d)).
  pose proof (@len_nonneg_list Z (extensions d)).
  pose proof (@len_nonneg_list Z (cipher_suites d')).
  pose proof (@len_nonneg_list Z (extensions d')).
  unfold part1.
  intros [Htag E1]%str_app_inj; [|by rewrite !version_tag_length].
  apply str_app_inj in E1 as [Hsni E2]; [|by destruct (sni d), (sni d')].
  apply str_app_inj in E2 as [Hc E3]; [|done].
  apply str_app_inj in E3 as [He Halpn]; [|done].
  apply two_digits_inj in Hc; [|lia..]. apply two_digits_inj in He; [|lia..].
  split; [done|]. split; [by destruct (sni d), (sni d')|].
  split; [by destruct (alpn d), (alpn d')|done].
Qed.

Lemma underscore_app_inj a b : ("_" ++ a)%string = ("_" ++ b)%string -> a = b.
Proof. intros [= H]. exact H. Qed.

(** X15: a fingerprint determines its inputs up to what the encoder
    keeps of them: two parse results with the same fingerprint have the
    same version tag, the same SNI and ALPN flags, the same cipher and
    extension counts (as clamped to 99), and the same two hash
    segments. *)
Theorem x_equal_fingerprints (d d' : TlsData) :
  calculate_ja4_improved d = calculate_ja4_improved d' ->
  version_tag (version d) = version_tag (version d')
  /\ sni d = sni d' /\ alpn d = alpn d'
  /\ Z.min (len (cipher_suites d)) 99 = Z.min (len (cipher_suites d')) 99
  /\ Z.min (len (extensions d)) 99 = Z.min (len (extensions d')) 99
  /\ segment (cipher_suites d) = segment (cipher_suites d')
  /\ segment (extensions d) = segment (extensions d').
Proof.
  rewrite !calculate_parts.
  intros [Hp H1]%str_app_inj; [|by rewrite !part1_length].
  apply underscore_app_inj in H1.
  apply str_app_inj in H1 as [Hc H2]; [|by rewrite !segment_length].
  apply underscore_app_inj in H2.
  apply part1_inj in Hp as (? & ? & ? & ? & ?). done.
Qed.

Lemma x_equal_fingerprints_witness :
  version_tag 0x0303 = version_tag 0x0303
  /\ true = true /\ true = true
  /\ Z.min (len [0x1302; 0x1301; 0x1303]) 99 = Z.min (len [0x1301; 0x1302; 0x1303]) 99
  /\ Z.min (len [16; 0; 10]) 99 = Z.min (len [0; 16; 10]) 99
  /\ segment [0x1302; 0x1301; 0x1303] = segment [0x1301; 0x1302; 0x1303]
  /\ segment [16; 0; 10] = segment [0; 16; 10].
Proof.
  apply (x_equal_fingerprints
           {| version := 0x0303; cipher_suites := [0x1302; 0x1301; 0x1303];
              extensions := [16; 0; 10]; alpn := true; sni := true; valid := true |}
           {| version := 0x0303; cipher_suites := [0x1301; 0x1302; 0x1303];
              extensions := [0; 16; 10]; alpn := true; sni := true; valid := true |}).
  vm_compute. reflexivity.
Defined.


(** *** The hashed string *)

Lemma nzhead_lead_zeros k u :
  Hexadecimal.nzhead (lead_zeros k u) = Hexadecimal.nzhead u.
Proof. induction k as [|k IH]; [done|]. exact IH. Qed.

Lemma unorm_lead_zeros k u :
  Hexadecimal.unorm (lead_zeros k u) = Hexadecimal.unorm u.
Proof. unfold Hexadecimal.unorm. by rewrite nzhead_lead_zeros. Qed.

Lemma string_of_lead_zeros k u :
  HexadecimalString.NilEmpty.string_of_uint (lead_zeros k u)
  = (String.concat "" (repeat "0"%string k)
     ++ HexadecimalString.NilEmpty.string_of_uint u)%string.
Proof.
  induction k as [|k IH]; [done|].
  cbn [repeat]. rewrite concat_empty_cons, str_app_assoc, <- IH. reflexivity.
Qed.

Lemma to_hex_uint_normal n :
  Hexadecimal.unorm (N.to_hex_uint n) = N.to_hex_uint n.
Proof.
  pose proof (HexadecimalN.Unsigned.to_of (N.to_hex_uint n)) as H.
  by rewrite HexadecimalN.Unsigned.of_to in H.
Qed.

Lemma to_hex_uint_nonnil n : N.to_hex_uint n <> Hexadecimal.Nil.
Proof.
  rewrite <- to_hex_uint_normal. unfold Hexadecimal.unorm.
  by destruct (Hexadecimal.nzhead _).
Qed.

(** [f"{n:04x}"] is the digits of [n] after as many zeros as needed. *)
Lemma fmt_04x_digits n :
  Fmt.fmt_04x n
  = HexadecimalString.NilEmpty.string_of_uint
      (lead_zeros (4 - String.length (Fmt.hex_int n)) (N.to_hex_uint (Z.to_N n))).
Proof.
  rewrite string_of_lead_zeros. unfold Fmt.fmt_04x, Fmt.zfill. f_equal.
  unfold Fmt.hex_int, HexadecimalString.NilZero.string_of_uint.
  pose proof (to_hex_uint_nonnil (Z.to_N n)).
  by destruct (N.to_hex_uint (Z.to_N n)).
Qed.

Lemma fmt_04x_inj n m : 0 <= n -> 0 <= m -> Fmt.fmt_04x n = Fmt.fmt_04x m -> n = m.
Proof.
  intros Hn Hm Heq. rewrite !fmt_04x_digits in Heq.
  apply (f_equal HexadecimalString.NilEmpty.uint_of_string) in Heq.
  rewrite !HexadecimalString.NilEmpty.usu in Heq. injection Heq as Heq.
  apply (f_equal Hexadecimal.unorm) in Heq.
  rewrite !unorm_lead_zeros, !to_hex_uint_normal in Heq.
  apply HexadecimalN.Unsigned.to_uint_inj in Heq. lia.
Qed.

Lemma fmt_04x_item n : hex_item (Fmt.fmt_04x n).
Proof.
  split; [apply zfill_all_hex, hex_int_all_hex|].
  intros Heq. apply (f_equal String.length) in Heq.
  unfold Fmt.fmt_04x in Heq. rewrite zfill_length in Heq. simpl in Heq. lia.
Qed.

Lemma hex_split_unique a : forall a' r r',
  all_hex a = true -> all_hex a' = true -> sep_tail r -> sep_tail r' ->
  (a ++ r)%string = (a' ++ r')%string -> a = a' /\ r = r'.
Proof.
  induction a as [|c a IH]; intros [|c' a'] r r' Ha Ha' Hr Hr'.
  - done.
  - rewrite app_String. intros Heq. exfalso.
    destruct Hr as [->|[r0 ->]]; [done|]. injection Heq as Hc _. subst c'.
    unfold all_hex in Ha'. cbn [list_ascii_of_string forallb] in Ha'.
    by apply andb_true_iff in Ha' as [Hc _].
  - rewrite app_String. intros Heq. exfalso.
    destruct Hr' as [->|[r0 ->]]; [done|]. injection Heq as Hc _. subst c.
    unfold all_hex in Ha. cbn [list_ascii_of_string forallb] in Ha.
    by apply andb_true_iff in Ha as [Hc _].
  - rewrite !app_String. intros [= -> Heq].
    unfold all_hex in Ha, Ha'. cbn [list_ascii_of_string forallb] in Ha, Ha'.
    apply andb_true_iff in Ha as [_ Ha]. apply andb_true_iff in Ha' as [_ Ha'].
    destruct (IH a' r r' Ha Ha' Hr Hr' Heq) as [-> ->]. done.
Qed.

Lemma concat_sep_cons x xs :
  String.concat "," (x :: xs)
  = (x ++ match xs with [] => "" | _ :: _ => "," ++ String.concat "," xs end)%string.
Proof. destruct xs as [|y xs]; [by rewrite app_empty_r|done]. Qed.

Lemma concat_sep_inj l : forall l',
  Forall hex_item l -> Forall hex_item l' ->
  String.concat "," l = String.concat "," l' -> l = l'.
Proof.
  induction l as [|x xs IH]; intros [|x' xs'] Hl Hl'.
  - done.
  - apply Forall_cons in Hl' as [[_ Hx'] _]. rewrite concat_sep_cons.
    destruct x' as [|c x']; [done|]. by rewrite app_String.
  - apply Forall_cons in Hl as [[_ Hx] _]. rewrite concat_sep_cons.
    destruct x as [|c x]; [done|]. by rewrite app_String.
  - apply Forall_cons in Hl as [[Hx _] Hxs].
    apply Forall_cons in Hl' as [[Hx' _] Hxs'].
    rewrite !concat_sep_cons.
    intros [-> Htail]%hex_split_unique; [|done|done|..].
    + f_equal. destruct xs as [|y xs], xs' as [|y' xs']; try done.
      injection Htail as Htail. by apply IH.
    + destruct xs; [by left|right; by eexists].
    + destruct xs'; [by left|right; by eexists].
Qed.

Lemma map_fmt_04x_inj l : forall l',
  Forall (fun c => 0 <= c) l -> Forall (fun c => 0 <= c) l' ->
  map Fmt.fmt_04x l = map Fmt.fmt_04x l' -> l = l'.
Proof.
  induction l as [|x xs IH]; intros [|x' xs'] Hl Hl'; try done.
  apply Forall_cons in Hl as [Hx Hxs]. apply Forall_cons in Hl' as [Hx' Hxs'].
  intros [= Heq Hrest]. f_equal; [by apply fmt_04x_inj|by apply IH].
Qed.

Lemma sorted_nonneg l : Forall (fun c => 0 <= c) l -> Forall (fun c => 0 <= c) (sorted l).
Proof.
  rewrite !Forall_forall. intros Hl x Hx. apply Hl.
  unfold sorted in Hx. by rewrite merge_sort_Permutation in Hx.
Qed.

(** X16: nothing is lost before hashing.  For lists of non-negative
    codes (every code the parser returns is one), the comma-separated
    hexadecimal string that is hashed is the same for two lists exactly
    when the lists are permutations of each other: two clients with
    different cipher or extension sets can only share a hash segment
    through a collision of the truncated SHA-256. *)
Theorem x_hashed_string_identifies_list (l l' : list Z) :
  Forall (fun c => 0 <= c) l ->
  Forall (fun c => 0 <= c) l' ->
  (hashed l = hashed l' <-> l ≡ₚ l').
Proof.
  intros Hl Hl'. split.
  - unfold hashed. intros Heq.
    apply concat_sep_inj in Heq;
      [|apply Forall_forall; intros s (c & -> & _)%list_elem_of_fmap;
        apply fmt_04x_item..].
    apply map_fmt_04x_inj in Heq; [|by apply sorted_nonneg..].
    unfold sorted in Heq.
    by rewrite <- (merge_sort_Permutation Z.le l), Heq, merge_sort_Permutation.
  - intros Hp. unfold hashed. by rewrite (sorted_perm _ _ Hp).
Qed.

Lemma x_hashed_string_identifies_list_witness :
  hashed [0x1302; 0x1301; 0xc02f] = hashed [0xc02f; 0x1302; 0x1301]
  <-> [0x1302; 0x1301; 0xc02f] ≡ₚ [0xc02f; 0x1302; 0x1301].
Proof.
  apply (x_hashed_string_identifies_list
           [0x1302; 0x1301; 0xc02f] [0xc02f; 0x1302; 0x1301]);
    repeat constructor; lia.
Defined.

End EncoderFacts.

(** ** The connection filter *)

Module PcapFacts.
Import PcapSpec.
Import Pcap Samples.

(** *** The endpoint order *)

Lemma string_ltb_asym s1 s2 : String.ltb s1 s2 = true -> String.ltb s2 s1 = false.
Proof.
  unfold String.ltb. rewrite (String.compare_antisym s1 s2).
  by destruct (String.compare s2 s1).
Qed.

Lemma string_ltb_irrefl s : String.ltb s s = false.
Proof.
  unfold String.ltb. pose proof (String.compare_antisym s s) as H.
  by destruct (String.compare s s).
Qed.

Lemma string_ltb_total s1 s2 :
  String.ltb s1 s2 = false -> String.ltb s2 s1 = false -> s1 = s2.
Proof.
  unfold String.ltb. rewrite (String.compare_antisym s1 s2).
  destruct (String.compare s2 s1) eqn:Hc; simpl; try done.
  intros _ _. symmetry. by apply String.compare_eq_iff.
Qed.

Lemma endpoint_lt_asym a b : endpoint_lt a b = true -> endpoint_lt b a = false.
Proof.
  destruct a as [s1 p1], b as [s2 p2]. unfold endpoint_lt. simpl.
  intros [Hlt|[Heq Hp]%andb_true_iff]%orb_true_iff.
  - rewrite (string_ltb_asym _ _ Hlt). simpl.
    destruct (String.eqb_spec s2 s1) as [->|]; [|done].
    by rewrite string_ltb_irrefl in Hlt.
  - apply String.eqb_eq in Heq as ->. rewrite string_ltb_irrefl. simpl.
    rewrite String.eqb_refl. simpl. apply Z.ltb_lt in Hp. apply Z.ltb_ge. lia.
Qed.

Lemma endpoint_lt_total a b :
  endpoint_lt a b = false -> endpoint_lt b a = false -> a = b.
Proof.
  destruct a as [s1 p1], b as [s2 p2]. unfold endpoint_lt. simpl.
  intros [H1 H1']%orb_false_iff [H2 H2']%orb_false_iff.
  pose proof (string_ltb_total _ _ H1 H2) as ->.
  rewrite String.eqb_refl in H1', H2'. simpl in *.
  apply Z.ltb_ge in H1', H2'. f_equal. lia.
Qed.

Lemma conn_id_unfold a b :
  conn_id a b = if decide (endpoint_le a b) then [a; b] else [b; a].
Proof. unfold conn_id. cbv [merge_sort merge_sort_aux merge_list_to_stack merge_stack list_merge]. by destruct (decide _). Qed.

Lemma conn_id_sym a b : conn_id a b = conn_id b a.
Proof.
  rewrite !conn_id_unfold. unfold endpoint_le.
  destruct (decide (endpoint_lt b a = false)) as [Hba|Hba],
           (decide (endpoint_lt a b = false)) as [Hab|Hab]; try done.
  - by rewrite (endpoint_lt_total _ _ Hab Hba).
  - apply not_false_is_true in Hba, Hab.
    by rewrite (endpoint_lt_asym _ _ Hba) in Hab.
Qed.

(** Equal flow keys have the same pair of endpoints, in some order. *)
Lemma conn_id_inj a b a' b' :
  conn_id a b = conn_id a' b' -> (a = a' /\ b = b') \/ (a = b' /\ b = a').
Proof.
  rewrite !conn_id_unfold.
  destruct (decide _), (decide _); intros [= -> ->]; auto.
Qed.

Lemma flow_key_on_443 p q k :
  flow_key p = Some k -> flow_key q = Some k -> on_443 q = on_443 p.
Proof.
  unfold flow_key, on_443.
  destruct (pkt_ip p) as [ip|], (pkt_tcp p) as [tcp|]; try done.
  destruct (pkt_ip q) as [ip'|], (pkt_tcp q) as [tcp'|]; try done.
  intros [= <-] [= H]. apply conn_id_inj in H as [[[= _ ->] [= _ ->]]|[[= _ ->] [= _ ->]]].
  - done.
  - apply orb_comm.
Qed.

Lemma observation_flow p k s :
  flow_key p = Some k -> observation p = Some s -> sig_flow s = k.
Proof.
  unfold flow_key, observation, sig_flow.
  destruct (pkt_ip p) as [ip|], (pkt_tcp p) as [tcp|]; try done.
  destruct (pkt_raw p) as [raw|]; [|done].
  destruct (parse_tls_client_hello raw); try done.
  by intros [= <-] [= <-].
Qed.

(** *** The loop *)

Lemma process_packet_step st pkt : process_packet st pkt = Val (step st pkt).
Proof.
  destruct st as [sigs seen]. unfold process_packet, step, flow_key, observation, on_443.
  destruct (pkt_ip pkt) as [ip|]; [|done].
  destruct (pkt_tcp pkt) as [tcp|]; [|done].
  rewrite <- negb_orb.
  destruct ((tcp_dport tcp =? 443) || (tcp_sport tcp =? 443)) eqn:H443; cbn [negb].
  2:{ destruct (pkt_raw pkt) as [raw|]; [|done].
      by destruct (parse_tls_client_hello raw). }
  cbn [fst snd andb].
  destruct (decide (_ ∈ seen)) as [Hin|Hnin].
  - rewrite bool_decide_true by done.
    destruct (pkt_raw pkt) as [raw|]; [|done].
    by destruct (parse_tls_client_hello raw).
  - rewrite bool_decide_false by done.
    destruct (pkt_raw pkt) as [raw|]; [|done].
    pose proof (ParserFacts.parse_no_raise raw) as Hnr.
    pose proof (ParserFacts.parse_valid raw) as Hv.
    destruct (parse_tls_client_hello raw) as [d| |e]; [|done|by destruct (Hnr e)].
    by rewrite (Hv d eq_refl).
Qed.

Lemma process_packets_fold st pkts :
  process_packets st pkts = Val (fold_left step pkts st).
Proof.
  revert st. induction pkts as [|p pkts IH]; intros st; [done|].
  simpl. rewrite process_packet_step. simpl. apply IH.
Qed.

Lemma loop_inv_init : loop_inv [] ([], ∅).
Proof.
  split; simpl.
  - intros k. split; intros H; [by apply not_elem_of_empty in H|inversion H].
  - apply NoDup_nil_2.
  - intros s H. inversion H.
  - intros q k s H. inversion H.
Qed.

Lemma loop_inv_step pre st p :
  loop_inv pre st -> loop_inv (pre ++ [p]) (step st p).
Proof.
  intros [Hseen Hnd Horig Hmark]. unfold step.
  destruct (flow_key p) as [k|] eqn:Hk, (observation p) as [s|] eqn:Hs.
  2,3,4: split; [done|done| |].
  2,4,6: intros s' Hs'; destruct (Horig s' Hs') as (l1 & p' & l2 & -> & ? & ? & ?);
         exists l1, p', (l2 ++ [p]); split; [by rewrite <- app_assoc|done].
  2,3,4: intros q k' s' [Hq|Hq%list_elem_of_singleton]%elem_of_app Hk' Hs' H443;
         [by eapply Hmark|subst q; congruence].
  destruct (on_443 p) eqn:H443, (bool_decide (k ∈ st.2)) eqn:Hin; cbn [andb negb].
  2: { (* emitted *)
    apply bool_decide_eq_false in Hin.
    pose proof (observation_flow _ _ _ Hk Hs) as Hflow.
    split; cbn [fst snd].
    - intros k'. rewrite map_app, elem_of_app, elem_of_union, elem_of_singleton. simpl.
      rewrite list_elem_of_singleton, Hflow, Hseen. tauto.
    - rewrite map_app. simpl. rewrite Hflow. apply NoDup_app. split; [done|].
      split; [|apply NoDup_singleton].
      intros k' Hk' ->%list_elem_of_singleton. by apply Hin, Hseen.
    - intros s' [Hs'| ->%list_elem_of_singleton]%elem_of_app.
      + destruct (Horig s' Hs') as (l1 & p' & l2 & -> & ? & ? & ?).
        exists l1, p', (l2 ++ [p]). split; [by rewrite <- app_assoc|done].
      + exists pre, p, []. split; [done|]. split; [done|]. split; [done|].
        intros q Hq Hqk. destruct (observation q) as [sq|] eqn:Hsq; [|done].
        exfalso. apply Hin. rewrite Hk in Hqk. eapply Hmark; eauto.
        rewrite <- H443. eapply flow_key_on_443; eauto.
    - intros q k' s' [Hq| ->%list_elem_of_singleton]%elem_of_app Hk' Hs' Hq443.
      + apply elem_of_union. right. by eapply Hmark.
      + apply elem_of_union. left. apply elem_of_singleton. congruence. }
  all: split; [done|done| |].
  all: try (intros s' Hs'; destruct (Horig s' Hs') as (l1 & p' & l2 & -> & ? & ? & ?);
            exists l1, p', (l2 ++ [p]); split; [by rewrite <- app_assoc|done]).
  - intros q k' s' [Hq| ->%list_elem_of_singleton]%elem_of_app Hk' Hs' Hq443.
    + by eapply Hmark.
    + apply bool_decide_eq_true in Hin. congruence.
  - intros q k' s' [Hq| ->%list_elem_of_singleton]%elem_of_app Hk' Hs' Hq443.
    + by eapply Hmark.
    + congruence.
  - intros q k' s' [Hq| ->%list_elem_of_singleton]%elem_of_app Hk' Hs' Hq443.
    + by eapply Hmark.
    + congruence.
Qed.

Lemma loop_inv_fold pre st pkts :
  loop_inv pre st -> loop_inv (pre ++ pkts) (fold_left step pkts st).
Proof.
  revert pre st. induction pkts as [|p pkts IH]; intros pre st Hinv.
  - by rewrite app_nil_r.
  - simpl. replace (pre ++ p :: pkts) with ((pre ++ [p]) ++ pkts)
      by (by rewrite <- app_assoc).
    apply IH. by apply loop_inv_step.
Qed.

Lemma extract_fold pkts :
  extract_ja4_from_pcap pkts = Val (fold_left step pkts ([], ∅)).1.
Proof. unfold extract_ja4_from_pcap. by rewrite process_packets_fold. Qed.

Lemma step_emits sigs seen p k s :
  flow_key p = Some k -> observation p = Some s -> on_443 p = true ->
  k ∉ seen -> step (sigs, seen) p = (sigs ++ [s], {[k]} ∪ seen).
Proof.
  intros Hk Hs H443 Hnin. unfold step. rewrite Hk, Hs, H443. cbn [fst snd].
  by rewrite bool_decide_false by done.
Qed.

Lemma step_no_observation st p : observation p = None -> step st p = st.
Proof. intros Hs. unfold step. rewrite Hs. by destruct (flow_key p). Qed.

Lemma step_not_443 st p : on_443 p = false -> step st p = st.
Proof.
  intros H. unfold step. rewrite H.
  by destruct (flow_key p), (observation p).
Qed.

(** C9: the flow key is the unordered pair of endpoints, an endpoint
    being an address with a port: a packet and the packet with source
    and destination swapped have the same key, and two keys are equal
    only for the same two endpoints, in either order.  The observations
    emitted for a capture have pairwise distinct flows, and each comes
    from the first packet of its flow that parses as a ClientHello;
    no flow is dropped: every packet of the capture on port 443 that
    parses has an observation with its two endpoints in the result.  A
    packet that does not parse leaves the state, seen flows included,
    unchanged, so that a later packet of the same flow is still
    emitted; and a packet on port 443 that parses is emitted whenever
    its own flow is not yet seen, whatever other flows are. *)
Theorem c9_deduplication :
  (forall a b, conn_id a b = conn_id b a)
  /\ (forall a b a' b',
        conn_id a b = conn_id a' b' <-> (a = a' /\ b = b') \/ (a = b' /\ b = a'))
  /\ (forall pkts, exists sigs,
        extract_ja4_from_pcap pkts = Val sigs
        /\ NoDup (map sig_flow sigs)
        /\ (forall s, s ∈ sigs ->
             exists l1 p l2, pkts = l1 ++ p :: l2 /\ observation p = Some s
               /\ forall q, q ∈ l1 -> flow_key q = flow_key p -> observation q = None)
        /\ (forall p s, p ∈ pkts -> observation p = Some s -> on_443 p = true ->
             exists s', s' ∈ sigs
               /\ (((src s', sport s') = (src s, sport s)
                    /\ (dst s', dport s') = (dst s, dport s))
                   \/ ((src s', sport s') = (dst s, dport s)
                       /\ (dst s', dport s') = (src s, sport s)))))
  /\ (forall st p, observation p = None -> process_packet st p = Val st)
  /\ (forall bad good k s,
        observation bad = None -> flow_key bad = Some k -> flow_key good = Some k ->
        observation good = Some s -> on_443 good = true ->
        extract_ja4_from_pcap [bad; good] = Val [s])
  /\ (forall sigs seen p k s,
        flow_key p = Some k -> observation p = Some s -> on_443 p = true ->
        k ∉ seen ->
        process_packet (sigs, seen) p = Val (sigs ++ [s], {[k]} ∪ seen)).
Proof.
  split; [exact conn_id_sym|]. split; [|split; [|split; [|split]]].
  - intros a b a' b'. split; [apply conn_id_inj|].
    intros [[-> ->]|[-> ->]]; [done|apply conn_id_sym].
  - intros pkts. eexists. split; [apply extract_fold|].
    pose proof (loop_inv_fold [] _ pkts loop_inv_init) as [Hseen Hnd Horig Hmark].
    simpl in Horig, Hmark. split; [done|]. split.
    + intros s Hs. destruct (Horig s Hs) as (l1 & p & l2 & ? & ? & _ & ?).
      by exists l1, p, l2.
    + intros p s Hp Hs H443.
      destruct (flow_key p) as [k|] eqn:Hk.
      2:{ unfold flow_key, observation in *.
          by destruct (pkt_ip p), (pkt_tcp p). }
      pose proof (Hmark p k s Hp Hk Hs H443) as Hin.
      apply Hseen, list_elem_of_fmap in Hin as (s' & Hflow & Hs').
      exists s'. split; [done|].
      rewrite <- (observation_flow p k s Hk Hs) in Hflow.
      unfold sig_flow in Hflow. symmetry in Hflow.
      apply conn_id_inj in Hflow as [[E1 E2]|[E1 E2]]; auto.
  - intros st p Hs. by rewrite process_packet_step, step_no_observation.
  - intros bad good k s Hbad _ Hk Hs H443.
    rewrite extract_fold. simpl. rewrite (step_no_observation _ bad Hbad).
    rewrite (step_emits [] ∅ good k s) by (done || apply not_elem_of_empty). done.
  - intros sigs seen p k s Hk Hs H443 Hnin.
    by rewrite process_packet_step, (step_emits sigs seen p k s).
Qed.

Lemma c9_deduplication_witness :
  flow_key reverse_pkt = flow_key client_hello_pkt
  /\ conn_id ("10.0.0.2"%string, 50000) ("93.184.216.34"%string, 443)
     <> conn_id ("10.0.0.3"%string, 50000) ("93.184.216.34"%string, 443)
  /\ process_packet ([], ∅) data_pkt = Val ([], ∅)
  /\ (exists s, extract_ja4_from_pcap [data_pkt; client_hello_pkt] = Val [s])
  /\ (exists s, process_packet ([], {[sig_flow_of_sample]}) other_flow_pkt
                = Val ([] ++ [s], {[conn_id ("10.0.0.2"%string, 50001)
                                      ("93.184.216.34"%string, 443)]}
                            ∪ {[sig_flow_of_sample]})).
Proof.
  destruct c9_deduplication as (Hsym & Hinj & _ & Hfail & Hlater & Hnew).
  split; [exact (f_equal Some (Hsym _ _))|].
  split; [intros [[[=] _]|[[=] _]]%Hinj|].
  split; [apply Hfail; vm_compute; reflexivity|]. split.
  - eexists. apply (Hlater data_pkt client_hello_pkt sig_flow_of_sample).
    + vm_compute; reflexivity.
    + vm_compute; reflexivity.
    + vm_compute; reflexivity.
    + vm_compute; reflexivity.
    + reflexivity.
  - eexists. apply Hnew.
    + reflexivity.
    + vm_compute; reflexivity.
    + reflexivity.
    + intros H%elem_of_singleton. vm_compute in H. discriminate H.
Defined.

(** C10: a packet whose TCP source and destination ports both differ
    from 443 changes neither the list of observations nor the set of
    seen flows, whatever its payload; a capture made of such packets
    yields no observation. *)
Theorem c10_non_443_ignored :
  (forall st pkt tcp,
     pkt_tcp pkt = Some tcp -> tcp_sport tcp <> 443 -> tcp_dport tcp <> 443 ->
     process_packet st pkt = Val st)
  /\ (forall pkts,
        (forall pkt tcp, pkt ∈ pkts -> pkt_tcp pkt = Some tcp ->
           tcp_sport tcp <> 443 /\ tcp_dport tcp <> 443) ->
        extract_ja4_from_pcap pkts = Val []).
Proof.
  assert (Hoff : forall pkt,
            (forall tcp, pkt_tcp pkt = Some tcp ->
               tcp_sport tcp <> 443 /\ tcp_dport tcp <> 443) ->
            on_443 pkt = false).
  { intros pkt H. unfold on_443. destruct (pkt_tcp pkt) as [tcp|]; [|done].
    destruct (H tcp eq_refl) as [Hs Hd].
    apply orb_false_iff. split; by apply Z.eqb_neq. }
  split.
  - intros st pkt tcp Htcp Hs Hd. rewrite process_packet_step, step_not_443; [done|].
    apply Hoff. intros tcp'. rewrite Htcp. by intros [= <-].
  - intros pkts Hall. rewrite extract_fold.
    assert (Hfold : fold_left step pkts ([], ∅) = ([], ∅)); [|by rewrite Hfold].
    induction pkts as [|p pkts IH]; [done|]. simpl.
    rewrite step_not_443.
    + apply IH. intros pkt tcp Hin. apply Hall. apply elem_of_cons. by right.
    + apply Hoff. intros tcp. apply Hall. apply elem_of_cons. by left.
Qed.

Lemma c10_non_443_ignored_witness :
  observation port_8443_pkt <> None
  /\ process_packet ([], ∅) port_8443_pkt = Val ([], ∅)
  /\ extract_ja4_from_pcap [port_8443_pkt; port_8443_pkt] = Val [].
Proof.
  destruct c10_non_443_ignored as [Hone Hall]. split; [|split].
  - vm_compute. discriminate.
  - apply (Hone _ port_8443_pkt (mkTCP 50002 8443)); [reflexivity|simpl; lia|simpl; lia].
  - apply Hall. intros pkt tcp Hin Htcp.
    assert (pkt = port_8443_pkt) as ->.
    { apply elem_of_cons in Hin as [->|Hin]; [done|].
      apply elem_of_cons in Hin as [->|Hin]; [done|]. inversion Hin. }
    injection Htcp as <-. simpl. lia.
Defined.

(** The four sample packets in capture order, then the port-8443 one:
    one observation per flow on port 443. *)
Example sample_capture :
  exists s1 s2,
    extract_ja4_from_pcap
      [data_pkt; client_hello_pkt; reverse_pkt; other_flow_pkt; port_8443_pkt]
    = Val [s1; s2]
    /\ (sport s1, dport s1) = (50000, 443) /\ (sport s2, dport s2) = (50001, 443)
    /\ signature s1 = "t10d0404h2_9caa18292e23_9df5fff9b10e"%string.
Proof. do 2 eexists. split; [vm_compute; reflexivity|]. repeat split. Qed.


(** *** Replays, order and independence of flows *)

(** After the loop has run over [pkts], running it again on one of
    those packets changes nothing. *)
Lemma step_replay pkts st p :
  loop_inv pkts st -> p ∈ pkts -> step st p = st.
Proof.
  intros [_ _ _ Hmark] Hp. unfold step.
  destruct (flow_key p) as [k|] eqn:Hk; [|done].
  destruct (observation p) as [s|] eqn:Hs; [|done].
  destruct (on_443 p) eqn:H443; [|done].
  by rewrite bool_decide_true by (by eapply Hmark).
Qed.

(** X7: packets that are replayed at the end of a capture, whether
    retransmissions or a second pass over part of the capture, add no
    observation and remove none. *)
Theorem x_replayed_packets_add_nothing (pkts again : list Packet) :
  (forall p, p ∈ again -> p ∈ pkts) ->
  extract_ja4_from_pcap (pkts ++ again) = extract_ja4_from_pcap pkts.
Proof.
  intros Hsub. rewrite !extract_fold, fold_left_app.
  pose proof (loop_inv_fold [] _ pkts loop_inv_init) as Hinv. simpl in Hinv.
  set (st := fold_left step pkts ([], ∅)) in *.
  assert (Hfix : fold_left step again st = st); [|by rewrite Hfix].
  induction again as [|p again IH]; [done|]. simpl.
  rewrite (step_replay pkts) by (done || apply Hsub, elem_of_cons; by left).
  apply IH. intros q Hq. apply Hsub, elem_of_cons. by right.
Qed.

Lemma x_replayed_packets_add_nothing_witness :
  extract_ja4_from_pcap
    ([client_hello_pkt; other_flow_pkt] ++ [other_flow_pkt; client_hello_pkt])
  = extract_ja4_from_pcap [client_hello_pkt; other_flow_pkt].
Proof.
  apply (x_replayed_packets_add_nothing
           [client_hello_pkt; other_flow_pkt] [other_flow_pkt; client_hello_pkt]).
  intros p Hp.
  apply elem_of_cons in Hp as [->|Hp]; [apply elem_of_cons; right; apply elem_of_cons; by left|].
  apply elem_of_cons in Hp as [->|Hp]; [apply elem_of_cons; by left|].
  inversion Hp.
Defined.

(** An emitted observation keeps the ports of its packet. *)
Lemma observation_ports p s :
  observation p = Some s -> on_443 p = true -> sport s = 443 \/ dport s = 443.
Proof.
  unfold observation, on_443.
  destruct (pkt_ip p) as [ip|]; [|done].
  destruct (pkt_tcp p) as [tcp|]; [|done].
  destruct (pkt_raw p) as [raw|]; [|done].
  destruct (parse_tls_client_hello raw); try done.
  intros [= <-] [H|H]%orb_true_iff; apply Z.eqb_eq in H; simpl; auto.
Qed.

Lemma omap_length_le {A B} (f : A -> option B) (l : list A) :
  (length (omap f l) <= length l)%nat.
Proof.
  induction l as [|x l IH]; [done|]. csimpl.
  destruct (f x); simpl; lia.
Qed.

Lemma step_sublist pre st p :
  st.1 `sublist_of` omap observation pre ->
  (step st p).1 `sublist_of` omap observation (pre ++ [p]).
Proof.
  intros Hsub. rewrite omap_app. unfold step.
  destruct (flow_key p) as [k|]; [|by apply sublist_inserts_r].
  destruct (observation p) as [s|] eqn:Hs.
  - destruct (on_443 p && negb (bool_decide (k ∈ st.2))).
    + cbn [fst]. apply sublist_app; [done|]. simpl. by rewrite Hs.
    + by apply sublist_inserts_r.
  - by apply sublist_inserts_r.
Qed.

Lemma fold_sublist pre st pkts :
  st.1 `sublist_of` omap observation pre ->
  (fold_left step pkts st).1 `sublist_of` omap observation (pre ++ pkts).
Proof.
  revert pre st. induction pkts as [|p pkts IH]; intros pre st Hsub.
  - by rewrite app_nil_r.
  - simpl. replace (pre ++ p :: pkts) with ((pre ++ [p]) ++ pkts)
      by (by rewrite <- app_assoc).
    apply IH. by apply step_sublist.
Qed.

(** X8: the observations come out in capture order: the result is a
    subsequence of the observations the packets carry, so it is never
    longer than the capture; and every observation has source or
    destination port 443. *)
Theorem x_observations_in_capture_order (pkts : list Packet) :
  exists sigs,
    extract_ja4_from_pcap pkts = Val sigs
    /\ sigs `sublist_of` omap observation pkts
    /\ (length sigs <= length pkts)%nat
    /\ Forall (fun s => sport s = 443 \/ dport s = 443) sigs.
Proof.
  eexists. split; [apply extract_fold|].
  pose proof (fold_sublist [] ([], ∅) pkts (sublist_nil_l _)) as Hsub.
  simpl in Hsub. split; [done|]. split.
  - apply sublist_length in Hsub. etrans; [exact Hsub|]. apply omap_length_le.
  - pose proof (loop_inv_fold [] _ pkts loop_inv_init) as [_ _ Horig _].
    apply Forall_forall. intros s Hs.
    destruct (Horig s Hs) as (l1 & p & l2 & _ & Hobs & H443 & _).
    by eapply observation_ports.
Qed.

(** One turn of the loop on the capture, against one turn (or none) on
    its restriction. *)
Lemma step_restricts keep st st' p :
  restricts keep st st' ->
  restricts keep (step st p) (if of_flows keep p then step st' p else st').
Proof.
  intros [Hsigs Hseen]. unfold of_flows, step.
  destruct (flow_key p) as [k|] eqn:Hk; [|done].
  destruct (observation p) as [s|] eqn:Hs; [|by destruct (keep k)].
  pose proof (observation_flow _ _ _ Hk Hs) as Hflow.
  destruct (on_443 p); cbn [andb]; [|by destruct (keep k)].
  destruct (keep k) eqn:Hkeep.
  - rewrite (bool_decide_ext _ _ (Hseen k Hkeep)).
    destruct (bool_decide (k ∈ st.2)); cbn [negb]; [done|].
    split; cbn [fst snd].
    + rewrite List.filter_app. simpl. by rewrite Hflow, Hkeep, Hsigs.
    + intros k' Hk'. rewrite !elem_of_union, (Hseen k' Hk'). done.
  - destruct (bool_decide (k ∈ st.2)); cbn [negb]; [done|].
    split; cbn [fst snd].
    + rewrite List.filter_app. simpl. by rewrite Hflow, Hkeep, app_nil_r.
    + intros k' Hk'. rewrite elem_of_union, elem_of_singleton, (Hseen k' Hk').
      split; [auto|]. intros [->|H]; [congruence|done].
Qed.

Lemma fold_restricts keep pkts : forall st st',
  restricts keep st st' ->
  restricts keep (fold_left step pkts st)
            (fold_left step (List.filter (of_flows keep) pkts) st').
Proof.
  induction pkts as [|p pkts IH]; intros st st' HR; [done|].
  simpl. pose proof (step_restricts keep st st' p HR) as HR'.
  destruct (of_flows keep p); simpl; by apply IH.
Qed.

(** X9: flows do not interfere.  Run on the packets of a chosen set of
    flows only, the extraction returns exactly the observations of
    those flows that it returns on the whole capture, in the same
    order: what is reported for a flow does not depend on the other
    traffic in the capture. *)
Theorem x_flows_do_not_interfere
    (keep : list endpoint -> bool) (pkts : list Packet) :
  exists sigs,
    extract_ja4_from_pcap pkts = Val sigs
    /\ extract_ja4_from_pcap (List.filter (of_flows keep) pkts)
       = Val (List.filter (fun s => keep (sig_flow s)) sigs).
Proof.
  eexists. split; [apply extract_fold|]. rewrite extract_fold.
  destruct (fold_restricts keep pkts ([], ∅) ([], ∅)) as [Hsigs _]; [done|].
  by rewrite Hsigs.
Qed.


(** *** Observations and their fingerprints *)

(** X18: every observation reported for a capture is consistent with
    its own fingerprint: the fingerprint has 36 characters and starts
    with the tag of the recorded version, one flag character, and the
    recorded numbers of cipher suites and of extensions, each clamped
    to 99 and written on two digits; and these numbers are not
    negative. *)
Theorem x_observations_match_fingerprint (pkts : list Packet) :
  exists sigs,
    extract_ja4_from_pcap pkts = Val sigs
    /\ Forall (fun s =>
         String.length (signature s) = 36%nat
         /\ 0 <= ciphers s /\ 0 <= sig_extensions s
         /\ exists flag rest,
              String.length flag = 1%nat
              /\ signature s
                 = (EncoderSpec.version_tag (sig_version s) ++ flag
                    ++ EncoderSpec.two_digits (Z.min (ciphers s) 99)
                    ++ EncoderSpec.two_digits (Z.min (sig_extensions s) 99)
                    ++ rest)%string) sigs.
Proof.
  eexists. split; [apply extract_fold|].
  pose proof (loop_inv_fold [] _ pkts loop_inv_init) as [_ _ Horig _].
  apply Forall_forall. intros s Hs.
  destruct (Horig s Hs) as (l1 & p & l2 & _ & Hobs & _ & _).
  unfold observation in Hobs.
  destruct (pkt_ip p) as [ip|]; [|done].
  destruct (pkt_tcp p) as [tcp|]; [|done].
  destruct (pkt_raw p) as [raw|]; [|done].
  destruct (parse_tls_client_hello raw) as [d| |]; [|done|done].
  injection Hobs as <-. cbn [signature ciphers sig_extensions sig_version].
  split; [|split; [apply EncoderFacts.len_nonneg_list|
                   split; [apply EncoderFacts.len_nonneg_list|]]].
  - rewrite EncoderFacts.calculate_parts, !EncoderFacts.str_length_app,
      EncoderFacts.part1_length, !EncoderFacts.segment_length. done.
  - exists (if sni d then "d" else "i")%string,
           ((if alpn d then "h2" else "00") ++ "_"
            ++ EncoderSpec.segment (cipher_suites d) ++ "_"
            ++ EncoderSpec.segment (extensions d))%string.
    split; [by destruct (sni d)|].
    rewrite EncoderFacts.calculate_parts. unfold EncoderSpec.part1.
    rewrite !EncoderFacts.str_app_assoc. reflexivity.
Qed.

End PcapFacts.

(** ** Grouping by framework *)

Module BatchFacts.
Import AggregateSpec BatchSpec.
Import Aggregate Batch.

Lemma extract_from_file_val f : extract_from_file f = Val (observations_of f).
Proof.
  unfold observations_of, extract_from_file.
  destruct (packets f) as [pkts|]; [|done].
  by rewrite PcapFacts.extract_fold.
Qed.

Lemma group_file_step g f : group_file g f = Val (group_step g f).
Proof.
  unfold group_file, group_step. rewrite extract_from_file_val. simpl.
  by destruct (observations_of f).
Qed.

Lemma group_files_fold files : forall g,
  group_files g files = Val (fold_left group_step files g).
Proof.
  induction files as [|f files IH]; intros g; [done|].
  simpl. rewrite group_file_step. simpl. apply IH.
Qed.

Lemma framework_observations_snoc fw files f :
  framework_observations fw (files ++ [f])
  = framework_observations fw files
    ++ (if String.eqb (framework_of f) fw then observations_of f else []).
Proof.
  unfold framework_observations. rewrite List.filter_app, map_app, concat_app.
  simpl. destruct (String.eqb _ _); simpl; by rewrite ?app_nil_r.
Qed.

Lemma group_get_extend fw k l g :
  group_get fw (group_extend k l g)
  = if String.eqb k fw then group_get fw g ++ l else group_get fw g.
Proof.
  induction g as [|[k' l'] g IH]; simpl.
  - by destruct (String.eqb k fw).
  - destruct (String.eqb_spec k' k) as [->|Hne]; simpl.
    + by destruct (String.eqb k fw).
    + destruct (String.eqb_spec k' fw) as [->|Hne']; [|apply IH].
      by destruct (String.eqb_spec k fw) as [->|].
Qed.

Lemma keys_group_extend k l (g : groups) :
  (group_extend k l g).*1 = if decide (k ∈ g.*1) then g.*1 else g.*1 ++ [k].
Proof.
  induction g as [|[k' l'] g IH]; csimpl.
  - done.
  - destruct (String.eqb_spec k' k) as [->|Hne]; csimpl.
    + rewrite decide_True; [done|apply elem_of_cons; auto].
    + rewrite IH. destruct (decide (k ∈ g.*1)).
      * rewrite decide_True; [done|apply elem_of_cons; auto].
      * rewrite decide_False; [done|rewrite elem_of_cons; intros [->|?]; done].
Qed.

Lemma group_extend_nonempty k l (g : groups) :
  l <> [] -> Forall (fun kl => kl.2 <> []) g ->
  Forall (fun kl => kl.2 <> []) (group_extend k l g).
Proof.
  intros Hl. induction 1 as [|[k' l'] g Hk Hg IH]; simpl.
  - by constructor.
  - destruct (String.eqb k' k); constructor; try done.
    simpl in *. by destruct l'.
Qed.

Lemma group_get_notin k (g : groups) : k ∉ g.*1 -> group_get k g = [].
Proof.
  induction g as [|[k' l'] g IH]; csimpl; [done|].
  rewrite elem_of_cons. intros Hk.
  destruct (String.eqb_spec k' k) as [->|Hne]; [|apply IH]; tauto.
Qed.

Lemma group_get_elem k l (g : groups) :
  NoDup g.*1 -> (k, l) ∈ g -> group_get k g = l.
Proof.
  induction g as [|[k' l'] g IH]; csimpl; intros Hnd Hin; [inversion Hin|].
  apply NoDup_cons in Hnd as [Hk' Hnd].
  apply elem_of_cons in Hin as [Heq|Hin].
  - injection Heq as -> ->. by rewrite String.eqb_refl.
  - destruct (String.eqb_spec k' k) as [->|Hne]; [|by apply IH].
    destruct Hk'. apply list_elem_of_fmap. by exists (k, l).
Qed.

Lemma group_inv_init : group_inv [] [].
Proof. split; [apply NoDup_nil_2|constructor|done]. Qed.

Lemma group_inv_step files g f :
  group_inv files g -> group_inv (files ++ [f]) (group_step g f).
Proof.
  intros [Hnd Hne Hget]. unfold group_step.
  destruct (observations_of f) as [|s l] eqn:Hobs.
  - split; [done|done|]. intros fw.
    rewrite framework_observations_snoc, Hobs, Hget.
    destruct (String.eqb _ _); by rewrite app_nil_r.
  - split.
    + rewrite keys_group_extend. case_decide; [done|].
      apply NoDup_app. split; [done|]. split; [|apply NoDup_singleton].
      intros x Hx Hx'. apply list_elem_of_singleton in Hx' as ->. done.
    + by apply group_extend_nonempty.
    + intros fw. rewrite group_get_extend, framework_observations_snoc, Hobs, Hget.
      destruct (String.eqb _ _); by rewrite ?app_nil_r.
Qed.

Lemma group_inv_fold files : forall pre g,
  group_inv pre g -> group_inv (pre ++ files) (fold_left group_step files g).
Proof.
  induction files as [|f files IH]; intros pre g Hinv.
  - by rewrite app_nil_r.
  - simpl. replace (pre ++ f :: files) with ((pre ++ [f]) ++ files)
      by (by rewrite <- app_assoc).
    apply IH. by apply group_inv_step.
Qed.

Lemma dict_set_fresh {V} k (v : V) (d : list (string * V)) :
  k ∉ d.*1 -> dict_set k v d = d ++ [(k, v)].
Proof.
  induction d as [|[k' v'] d IH]; csimpl; [done|].
  rewrite elem_of_cons. intros Hk.
  destruct (String.eqb_spec k' k) as [->|Hne]; [tauto|].
  rewrite IH; [done|tauto].
Qed.

(** The second loop turns each group into its analysis, in order. *)
Lemma analyze_groups_spec (g : groups) : forall acc,
  NoDup (acc.*1 ++ g.*1) ->
  Forall (fun kl => kl.2 <> []) g ->
  exists res,
    fold_left analyze_group g acc = acc ++ res
    /\ res.*1 = g.*1
    /\ forall k e, (k, e) ∈ res -> exists l, (k, l) ∈ g /\ analyze l = Some e.
Proof.
  induction g as [|[k l] g IH]; intros acc Hnd Hne.
  - exists []. rewrite app_nil_r. split; [done|]. split; [done|].
    intros k e H. inversion H.
  - apply Forall_cons in Hne as [Hl Hne]. simpl in Hl.
    destruct (analyze l) as [e|] eqn:He.
    2:{ by apply AggregateFacts.analyze_none in He. }
    simpl. unfold analyze_group at 2. simpl. rewrite He.
    rewrite dict_set_fresh.
    2:{ apply NoDup_app in Hnd as (_ & Hdisj & _). intros Hk.
        apply (Hdisj k Hk). csimpl. apply elem_of_cons. by left. }
    destruct (IH (acc ++ [(k, e)])) as (res & Hfold & Hkeys & Hres); [|done|].
    { rewrite fmap_app, <- app_assoc. exact Hnd. }
    exists ((k, e) :: res). rewrite Hfold, <- app_assoc.
    split; [done|]. split; [csimpl; by rewrite Hkeys|].
    intros k' e' Hin. apply elem_of_cons in Hin as [Heq|Hin].
    + injection Heq as -> ->. exists l. split; [apply elem_of_cons; by left|done].
    + destruct (Hres _ _ Hin) as (l' & Hl' & Ha). exists l'.
      split; [apply elem_of_cons; by right|done].
Qed.

Lemma split_first_no_sep sep s c :
  c ∈ list_ascii_of_string (split_first sep s) -> c <> sep.
Proof.
  induction s as [|a s IH]; simpl; [intros H; inversion H|].
  destruct (Ascii.eqb_spec a sep) as [->|Hne]; simpl; [intros H; inversion H|].
  intros [->|Hc]%elem_of_cons; [done|by apply IH].
Qed.

Lemma framework_observations_file fw files :
  framework_observations fw files <> [] ->
  exists f, f ∈ files /\ framework_of f = fw /\ observations_of f <> [].
Proof.
  unfold framework_observations.
  induction files as [|f files IH]; simpl; [done|].
  destruct (String.eqb_spec (framework_of f) fw) as [Heq|Hne]; simpl.
  - destruct (observations_of f) as [|s l] eqn:Hobs.
    + intros (f' & Hf' & ? & ?)%IH. exists f'.
      split; [apply elem_of_cons; by right|done].
    + intros _. exists f. rewrite Hobs.
      split; [apply elem_of_cons; by left|done].
  - intros (f' & Hf' & ? & ?)%IH. exists f'.
    split; [apply elem_of_cons; by right|done].
Qed.

(** The whole of [process_all_pcaps] in terms of the invariant. *)
Lemma process_all_pcaps_spec files :
  exists g results,
    process_all_pcaps files = Val results
    /\ group_inv files g
    /\ results.*1 = g.*1
    /\ forall k e, (k, e) ∈ results -> exists l, (k, l) ∈ g /\ analyze l = Some e.
Proof.
  pose proof (group_inv_fold files [] [] group_inv_init) as Hinv. simpl in Hinv.
  destruct (analyze_groups_spec (fold_left group_step files []) [])
    as (res & Hfold & Hkeys & Hres).
  { simpl. apply Hinv. }
  { apply Hinv. }
  exists (fold_left group_step files []), res.
  unfold process_all_pcaps. rewrite group_files_fold. simpl.
  by rewrite Hfold.
Qed.

(** X19: [process_all_pcaps] never raises, whatever the files hold.
    Its result has one entry per framework for which some file yields
    an observation, the framework being the part of the file stem
    before the first underscore (so no framework name contains one);
    the entry is the analysis of all the observations of the files of
    that framework, in file order, and its total is their number. *)
Theorem x_results_per_framework (files : list PcapFile) :
  exists results,
    process_all_pcaps files = Val results
    /\ NoDup results.*1
    /\ (forall fw, fw ∈ results.*1 <-> framework_observations fw files <> [])
    /\ (forall fw e, (fw, e) ∈ results ->
          analyze (framework_observations fw files) = Some e
          /\ res_total e = len (framework_observations fw files)
          /\ "_"%char ∉ list_ascii_of_string fw).
Proof.
  destruct (process_all_pcaps_spec files)
    as (g & results & Hrun & [Hnd Hne Hget] & Hkeys & Hres).
  exists results. split; [done|]. split; [by rewrite Hkeys|].
  assert (Hin : forall fw, fw ∈ g.*1 <-> framework_observations fw files <> []).
  { intros fw. rewrite <- Hget. split.
    - intros ([k l] & -> & Hkl)%list_elem_of_fmap. simpl.
      rewrite (group_get_elem _ _ _ Hnd Hkl).
      rewrite Forall_forall in Hne. apply (Hne _ Hkl).
    - intros Hn. destruct (decide (fw ∈ g.*1)) as [|Hnin]; [done|].
      by rewrite group_get_notin in Hn. }
  split; [intros fw; by rewrite Hkeys|].
  intros fw e Hfe. destruct (Hres _ _ Hfe) as (l & Hl & Ha).
  rewrite <- Hget, (group_get_elem _ _ _ Hnd Hl).
  split; [done|]. split.
  - by apply AggregateFacts.analyze_inv in Ha as (b & _ & _ & ->).
  - assert (Hfw : fw ∈ g.*1) by (apply list_elem_of_fmap; by exists (fw, l)).
    apply Hin, framework_observations_file in Hfw as (f & _ & <- & _).
    intros Hc. by apply split_first_no_sep in Hc.
Qed.

(** Five sample files: the two "openai" files give one entry with two
    observations, "google_gemini_..." is filed under "google", and the
    file without a handshake and the unreadable file give no entry. *)
Example sample_results :
  exists e1 e2,
    process_all_pcaps sample_files = Val [("openai"%string, e1); ("google"%string, e2)]
    /\ res_total e1 = 2 /\ res_class e1 = Full /\ res_total e2 = 1.
Proof. do 2 eexists. split; [vm_compute; reflexivity|]. repeat split. Qed.

End BatchFacts.

(** ** The database update *)

Module DatabaseFacts.
Import DatabaseSpec.
Import Aggregate Database.

Lemma same_framework_matches lower e name :
  same_framework lower e name = true <-> matches lower name (name_of e).
Proof. unfold same_framework, matches, name_of. apply String.eqb_eq. Qed.

(** An update never touches the name of a row. *)
Lemma update_entry_name today e data e' :
  update_entry today e data = Returns e' -> name_of e' = name_of e.
Proof.
  unfold update_entry. destruct (consistency_note data) as [note| |]; [|done|done].
  simpl. intros [= <-]. unfold name_of, entry in *. by rewrite !lookup_insert_ne.
Qed.

Lemma name_of_new_entry today name data :
  name_of (new_entry today name data) = Some name.
Proof. unfold name_of, new_entry. apply lookup_insert_eq. Qed.

(** The inner loop: [found] is set exactly when some row matches, and
    then the rows keep their names and their places. *)
Lemma update_first_spec lower today name data l : forall r,
  update_first lower today name data l = Returns r ->
  match r with
  | None => Forall (fun e => ~ matches lower name (name_of e)) l
  | Some l' =>
      Exists (fun e => matches lower name (name_of e)) l
      /\ map name_of l' = map name_of l
  end.
Proof.
  induction l as [|e rest IH]; intros r; simpl.
  - intros [= <-]. constructor.
  - destruct (same_framework lower e name) eqn:Hm.
    + destruct (update_entry today e data) as [e'| |] eqn:He; [|done|done].
      simpl. intros [= <-]. split.
      * apply Exists_cons. left. by apply same_framework_matches.
      * simpl. f_equal. by eapply update_entry_name.
    + destruct (update_first lower today name data rest) as [found| |]; [|done|done].
      simpl. intros [= <-]. specialize (IH found eq_refl).
      assert (Hne : ~ matches lower name (name_of e)).
      { rewrite <- same_framework_matches. by rewrite Hm. }
      destruct found as [l'|]; simpl.
      * destruct IH as [Hex Hnames]. split; [apply Exists_cons; by right|].
        by rewrite Hnames.
      * by constructor.
Qed.

(** One turn of the outer loop, on the names of the rows. *)
Lemma update_one_spec lower title today l u a item l' u' a' :
  update_one lower title today (l, u, a) item = Returns (l', u', a') ->
  exists new,
    map name_of l' = map name_of l ++ new
    /\ a' = a + len new /\ u' = u + (1 - len new) /\ 0 <= len new <= 1
    /\ Exists (matches lower (framework_name title item.1)) (map name_of l').
Proof.
  unfold update_one.
  destruct (update_first lower today (framework_name title item.1) item.2 l)
    as [found| |] eqn:Hf; [|done|done].
  apply update_first_spec in Hf. simpl.
  destruct found as [l1|]; intros [= <- <- <-].
  - destruct Hf as [Hex Hnames]. exists []. rewrite app_nil_r.
    split; [done|]. split; [unfold len; simpl; lia|].
    split; [unfold len; simpl; lia|]. split; [unfold len; simpl; lia|].
    rewrite Hnames. by apply (proj2 (Exists_fmap _ _ _)).
  - exists [Some (framework_name title item.1)].
    rewrite map_app. simpl. rewrite name_of_new_entry.
    split; [done|]. split; [unfold len; simpl; lia|].
    split; [unfold len; simpl; lia|]. split; [unfold len; simpl; lia|].
    apply Exists_app. right. by constructor.
Qed.

Lemma update_all_spec lower title today results : forall l u a l' u' a',
  update_all lower title today (l, u, a) results = Returns (l', u', a') ->
  exists new,
    map name_of l' = map name_of l ++ new
    /\ a' = a + len new /\ u' + a' = u + a + len results
    /\ len new <= len results
    /\ Forall (fun item => Exists (matches lower (framework_name title item.1))
                                  (map name_of l')) results.
Proof.
  induction results as [|item results IH]; intros l u a l' u' a'.
  - simpl. intros [= <- <- <-]. exists []. rewrite app_nil_r.
    unfold len. simpl. repeat split; try lia. constructor.
  - cbn [update_all].
    destruct (update_one lower title today (l, u, a) item)
      as [[[l1 u1] a1]| |] eqn:Hone; [|by simpl|by simpl].
    apply update_one_spec in Hone as (new1 & Hn1 & -> & -> & Hlen1 & Hex1).
    simpl. intros (new & Hn & -> & Hsum & Hlen & Hall)%IH.
    exists (new1 ++ new).
    split; [by rewrite Hn, Hn1, <- app_assoc|].
    unfold len in *. rewrite length_app. simpl length.
    split; [lia|]. split; [lia|]. split; [lia|].
    constructor; [|done].
    rewrite Hn. apply Exists_app. by left.
Qed.

(** When every framework of the results already has a row, nothing is
    added. *)
Lemma update_all_found lower title today results : forall l u a l' u' a',
  Forall (fun item => Exists (matches lower (framework_name title item.1))
                             (map name_of l)) results ->
  update_all lower title today (l, u, a) results = Returns (l', u', a') ->
  map name_of l' = map name_of l /\ a' = a /\ u' = u + len results.
Proof.
  induction results as [|item results IH]; intros l u a l' u' a' Hall; simpl.
  - intros [= <- <- <-]. unfold len. simpl. split; [done|lia].
  - apply Forall_cons in Hall as [Hitem Hall].
    unfold update_one.
    destruct (update_first lower today (framework_name title item.1) item.2 l)
      as [found| |] eqn:Hf; [|done|done].
    apply update_first_spec in Hf. simpl.
    destruct found as [l1|].
    + destruct Hf as [_ Hnames]. simpl.
      rewrite <- Hnames in Hall.
      intros (Hn & -> & ->)%(IH _ _ _ _ _ _ Hall).
      rewrite Hn, Hnames. unfold len. simpl length. split; [done|lia].
    + exfalso. apply (proj1 (Exists_fmap _ _ _)), Exists_exists in Hitem
        as (e & He & Hm).
      rewrite Forall_forall in Hf. by apply (Hf e He).
Qed.

(** X20: the accounting of a database update, over the loop of lines
    117-160, which has completed whenever [update_database] returns.
    Every result is either counted as updated or as added; the
    database grows by the number added; the rows that were there keep
    their places and their framework names, new rows going to the end;
    and afterwards every framework of the results has a row. *)
Theorem x_update_accounting
    (lower title : string -> string) (today : string)
    (rows : list entry) (results : list (string * result_entry))
    (rows' : list entry) (updated added : Z) :
  update_rows lower title today rows results = Returns (rows', updated, added) ->
  updated + added = len results
  /\ 0 <= updated /\ 0 <= added
  /\ len rows' = len rows + added
  /\ map name_of (take (length rows) rows') = map name_of rows
  /\ Forall (fun item =>
               exists e, e ∈ rows'
                 /\ same_framework lower e (framework_name title item.1) = true)
            results.
Proof.
  intros (new & Hn & -> & Hsum & Hlen & Hall)%update_all_spec.
  pose proof (f_equal length Hn) as Hl. rewrite length_app, !length_map in Hl.
  assert (0 <= len new) by (unfold len; lia).
  split; [lia|]. split; [lia|]. split; [lia|]. split; [unfold len; lia|]. split.
  - change (name_of <$> take (length rows) rows' = name_of <$> rows).
    change (name_of <$> rows' = (name_of <$> rows) ++ new) in Hn.
    rewrite fmap_take, Hn.
    rewrite <- (length_fmap name_of rows). apply take_app_length.
  - eapply Forall_impl; [exact Hall|]. intros item Hex. simpl in Hex.
    apply (proj1 (Exists_fmap _ _ _)), Exists_exists in Hex as (e & He & Hm).
    exists e. split; [done|]. by apply same_framework_matches.
Qed.

Lemma x_update_accounting_witness :
  exists rows' updated added,
    update_rows ascii_lower ascii_title "2025-12-28" [] [new_result]
    = Returns (rows', updated, added)
    /\ updated + added = len [new_result]
    /\ len rows' = len (@nil entry) + added.
Proof.
  eexists _, _, _. split; [reflexivity|].
  edestruct (x_update_accounting ascii_lower ascii_title "2025-12-28" [] [new_result])
    as (H1 & _ & _ & H2 & _); [reflexivity|].
  split; [exact H1|exact H2].
Defined.

(** X21: running the update loop again on the rows it produced, with
    the same results, adds no row: every result is counted as updated,
    and the rows keep their names and their number. *)
Theorem x_second_update_adds_nothing
    (lower title : string -> string) (today today' : string)
    (rows : list entry) (results : list (string * result_entry))
    (rows1 : list entry) (updated1 added1 : Z)
    (rows2 : list entry) (updated2 added2 : Z) :
  update_rows lower title today rows results = Returns (rows1, updated1, added1) ->
  update_rows lower title today' rows1 results = Returns (rows2, updated2, added2) ->
  added2 = 0 /\ updated2 = len results
  /\ map name_of rows2 = map name_of rows1.
Proof.
  intros (new & _ & _ & _ & _ & Hall)%update_all_spec.
  intros (Hn & -> & ->)%(update_all_found _ _ _ _ _ _ _ _ _ _ Hall).
  split; [done|]. split; [lia|done].
Qed.

Lemma x_second_update_adds_nothing_witness :
  exists rows1 updated1 added1 rows2 updated2 added2,
    update_rows ascii_lower ascii_title "2025-12-28" [] [new_result]
    = Returns (rows1, updated1, added1)
    /\ update_rows ascii_lower ascii_title "2025-12-29" rows1 [new_result]
       = Returns (rows2, updated2, added2)
    /\ added1 = 1 /\ added2 = 0 /\ updated2 = len [new_result].
Proof.
  eexists _, _, _, _, _, _. split; [reflexivity|]. split; [reflexivity|].
  edestruct (x_second_update_adds_nothing ascii_lower ascii_title
               "2025-12-28" "2025-12-29" [] [new_result]) as (H1 & H2 & _);
    [reflexivity|reflexivity|].
  split; [reflexivity|]. split; [exact H1|exact H2].
Defined.

(** *** The write-back *)

Lemma writable_spec (e : entry) :
  writable e = true <-> forall col v, e !! col = Some v -> col ∈ fieldnames.
Proof.
  unfold writable. rewrite forallb_forall. split.
  - intros H col v Hcol.
    assert (Hin : In col (map_to_list e).*1).
    { apply (proj1 (list_elem_of_In _ _)), list_elem_of_fmap.
      exists (col, v). split; [done|]. by apply elem_of_map_to_list. }
    apply H, existsb_exists in Hin as (x & Hx & ->%String.eqb_eq).
    by apply (proj2 (list_elem_of_In _ _)).
  - intros H k Hk.
    apply (proj2 (list_elem_of_In _ _)), list_elem_of_fmap in Hk
      as ([k' v] & -> & Hkv).
    apply elem_of_map_to_list, H in Hkv.
    apply existsb_exists. exists k'.
    split; [by apply (proj1 (list_elem_of_In _ _))|apply String.eqb_refl].
Qed.

Lemma writable_insert k v (e : entry) :
  k ∈ fieldnames -> writable (<[k:=v]> e) = writable e.
Proof.
  intros Hk. apply eq_true_iff_eq. rewrite !writable_spec. unfold entry in *.
  split; intros H col v' Hcol.
  - destruct (decide (k = col)) as [<-|Hne]; [done|].
    apply (H col v'). by rewrite lookup_insert_ne.
  - destruct (decide (k = col)) as [<-|Hne]; [done|].
    rewrite lookup_insert_ne in Hcol by done. by apply (H col v').
Qed.

Lemma update_entry_writable today e data e' :
  update_entry today e data = Returns e' -> writable e' = writable e.
Proof.
  unfold update_entry. destruct (consistency_note data) as [note| |]; [|done|done].
  simpl. intros [= <-].
  rewrite !writable_insert; [done|..]; unfold fieldnames;
    apply (proj2 (list_elem_of_In _ _)); simpl; tauto.
Qed.

Lemma new_entry_writable today name data :
  writable (new_entry today name data) = true.
Proof.
  unfold new_entry.
  rewrite !writable_insert
    by (unfold fieldnames; apply (proj2 (list_elem_of_In _ _)); simpl; tauto).
  apply writable_spec. intros col v [<- _]%lookup_singleton_Some.
  unfold fieldnames. apply (proj2 (list_elem_of_In _ _)). simpl. tauto.
Qed.

Lemma lookup_written_rec (f : string -> string) (l : list string) col :
  (foldr (fun key (row : gmap string string) => <[key := f key]> row) ∅ l) !! col
  = if decide (col ∈ l) then Some (f col) else None.
Proof.
  induction l as [|a l IH]; cbn [foldr].
  - rewrite lookup_empty. destruct (decide (col ∈ [])) as [H|_]; [|done].
    by apply elem_of_nil in H.
  - destruct (decide (a = col)) as [->|Hne].
    + rewrite lookup_insert_eq.
      destruct (decide (col ∈ col :: l)) as [_|H]; [done|].
      destruct H. by apply elem_of_cons; left.
    + rewrite lookup_insert_ne, IH by done.
      destruct (decide (col ∈ l)) as [Hl|Hl];
        destruct (decide (col ∈ a :: l)) as [Hal|Hal]; try done.
      * destruct Hal. by apply elem_of_cons; right.
      * apply elem_of_cons in Hal as [->|?]; done.
Qed.

(** What is written of a row that is accepted reads back with the same
    cells, a missing cell being the empty string. *)
Lemma cell_written e col : writable e = true -> cell (written e) col = cell e col.
Proof.
  intros Hw. unfold cell, written. rewrite lookup_written_rec.
  destruct (decide (col ∈ fieldnames)) as [Hin|Hnin]; [done|]. simpl.
  destruct (e !! col) as [v|] eqn:Hcol; [|done].
  destruct Hnin. by apply (proj1 (writable_spec e) Hw col v).
Qed.

(** The rows are written up to the first one that is refused. *)
Lemma writerows_spec rows :
  exists i : nat,
    (writerows rows).1 = map written (take i rows)
    /\ Forall (fun e => writable e = true) (take i rows)
    /\ (if (writerows rows).2 then i = length rows
        else exists e, rows !! i = Some e /\ writable e = false).
Proof.
  induction rows as [|e rows (i & Hw & Hall & Hend)]; simpl.
  - exists 0%nat. split; [done|]. split; [constructor|done].
  - destruct (writable e) eqn:He.
    + destruct (writerows rows) as [w ok]. simpl in *.
      exists (S i). simpl. rewrite Hw. split; [done|].
      split; [by constructor|]. destruct ok; [by rewrite Hend|done].
    + exists 0%nat. simpl. split; [done|]. split; [constructor|by exists e].
Qed.

(** *** What an update does to the rows *)

Lemma keeps_refl e : keeps e e.
Proof. by intros col _. Qed.

Lemma keeps_trans e1 e2 e3 : keeps e1 e2 -> keeps e2 e3 -> keeps e1 e3.
Proof. intros H12 H23 col Hcol. by rewrite H23, H12. Qed.

Lemma update_entry_keeps today e data e' :
  update_entry today e data = Returns e' -> keeps e e'.
Proof.
  unfold update_entry. destruct (consistency_note data) as [note| |]; [|done|done].
  simpl. intros [= <-] col Hcol. unfold updated_columns in Hcol.
  apply not_elem_of_cons in Hcol as [H1 Hcol].
  apply not_elem_of_cons in Hcol as [H2 Hcol].
  apply not_elem_of_cons in Hcol as [H3 Hcol].
  apply not_elem_of_cons in Hcol as [H4 _].
  unfold entry in *. by rewrite !lookup_insert_ne.
Qed.

Lemma row_update_refl lower names (l : list entry) :
  Forall2 (row_update lower names) l l.
Proof.
  apply Forall_Forall2_diag, Forall_forall. intros e _.
  split; [apply keeps_refl|done].
Qed.

Lemma update_first_rows lower today name data l : forall l',
  update_first lower today name data l = Returns (Some l') ->
  Forall2 (row_update lower [name]) l l'.
Proof.
  induction l as [|e rest IH]; intros l'; simpl; [done|].
  destruct (same_framework lower e name) eqn:Hm.
  - destruct (update_entry today e data) as [e'| |] eqn:He; [|done|done].
    simpl. intros [= <-]. constructor; [|apply row_update_refl].
    split; [by eapply update_entry_keeps|].
    split; [by eapply update_entry_writable|].
    intros [Hn _]%Forall_cons. congruence.
  - destruct (update_first lower today name data rest) as [[l1|]| |]; [|done|done|done].
    simpl. intros [= <-]. constructor; [|by apply IH].
    split; [apply keeps_refl|done].
Qed.

Lemma row_update_step lower name names e e1 e2 :
  name_of e1 = name_of e ->
  row_update lower [name] e e1 -> row_update lower names e1 e2 ->
  row_update lower (name :: names) e e2.
Proof.
  intros Hname (Hk1 & Hw1 & Hu1) (Hk2 & Hw2 & Hu2).
  split; [by eapply keeps_trans|]. split; [congruence|].
  intros [Hn Hns]%Forall_cons.
  assert (He1 : e1 = e) by (apply Hu1; by constructor).
  subst e1. by apply Hu2.
Qed.

Lemma update_all_rows lower title today results : forall l u a l' u' a',
  update_all lower title today (l, u, a) results = Returns (l', u', a') ->
  exists l1 new,
    l' = l1 ++ new
    /\ Forall2 (row_update lower (map (fun item => framework_name title item.1) results))
               l l1
    /\ Forall (fun e => writable e = true) new.
Proof.
  induction results as [|item results IH]; intros l u a l' u' a'.
  - simpl. intros [= <- <- <-]. exists l, []. rewrite app_nil_r.
    split; [done|]. split; [apply row_update_refl|constructor].
  - cbn [update_all]. unfold update_one.
    destruct (update_first lower today (framework_name title item.1) item.2 l)
      as [found| |] eqn:Hf; [|done|done].
    pose proof (update_first_spec _ _ _ _ _ _ Hf) as Hspec.
    simpl. destruct found as [l2|].
    + apply update_first_rows in Hf. destruct Hspec as [_ Hnames].
      intros (l1 & new & -> & Hrows & Hnew)%IH. exists l1, new.
      split; [done|]. split; [|done].
      cbn [map]. clear IH.
      revert l1 Hrows Hnames. induction Hf as [|e e2 l l2 He Hf IHf];
        intros l1 Hrows Hnames.
      * by apply Forall2_nil_inv_l in Hrows as ->.
      * apply Forall2_cons_inv_l in Hrows as (e1 & l1' & He1 & Hrows & ->).
        simpl in Hnames. injection Hnames as Hn Hnames.
        constructor; [|by apply IHf].
        by apply (row_update_step lower _ _ e e2 e1).
    + intros (l1 & new & -> & Hrows & Hnew)%IH.
      apply Forall2_app_inv_l in Hrows as (k1 & k2 & Hk1 & Hk2 & ->).
      exists k1, (k2 ++ new). rewrite <- app_assoc. split; [done|]. split.
      * eapply Forall2_impl; [exact Hk1|].
        intros e e' (Hk & Hw & Hu). split; [done|]. split; [done|].
        cbn [map]. intros [_ Hns]%Forall_cons. by apply Hu.
      * apply Forall_app. split; [|done].
        apply Forall2_cons_inv_l in Hk2 as (e' & k2' & (_ & Hw & _) & Hnil & ->).
        apply Forall2_nil_inv_l in Hnil as ->.
        constructor; [|constructor]. by rewrite Hw, new_entry_writable.
Qed.

(** A row that survives the update and the write-back. *)
Lemma row_kept_written lower title results e e' :
  row_update lower (map (fun item => framework_name title item.1) results) e e' ->
  writable e' = true ->
  row_kept lower title results e (written e').
Proof.
  intros (Hk & Hw & Hu) He'. split.
  - intros col Hcol. rewrite cell_written by done. unfold cell. by rewrite Hk.
  - intros Hall col. rewrite cell_written by done.
    rewrite Hu; [done|]. by apply Forall_fmap.
Qed.



(** The write-back after a loop that completed: either every row of
    the file could be written and is at its place afterwards, or the
    write stopped at the first row of the file that could not. *)
Lemma write_back_cases lower title today file results rows u a w ok :
  update_all lower title today (file, 0, 0) results = Returns (rows, u, a) ->
  writerows rows = (w, ok) ->
  if ok
  then Forall (fun e => writable e = true) file
       /\ forall (i : nat) (e : entry), file !! i = Some e ->
            exists e', w !! i = Some e' /\ row_kept lower title results e e'
  else exists (i : nat) (e : entry),
         file !! i = Some e /\ writable e = false /\ length w = i
         /\ forall (j : nat) (e0 : entry), (j < i)%nat -> file !! j = Some e0 ->
              exists e', w !! j = Some e' /\ row_kept lower title results e0 e'.
Proof.
  intros (l1 & new & -> & Hrows & Hnew)%update_all_rows Hwr.
  destruct (writerows_spec (l1 ++ new)) as (i & Hw & Hall & Hend).
  rewrite Hwr in Hw, Hend. simpl in Hw, Hend.
  pose proof (Forall2_length _ _ _ Hrows) as Hlen.
  destruct ok.
  - subst i. rewrite take_ge in Hw, Hall by done. subst w.
    apply Forall_app in Hall as [Hall1 _]. split.
    + apply Forall_forall. intros e He.
      apply list_elem_of_lookup in He as [j Hj].
      destruct (Forall2_lookup_l _ _ _ _ _ Hrows Hj) as (e' & Hj' & _ & Hwe & _).
      rewrite <- Hwe. rewrite Forall_forall in Hall1.
      apply Hall1. by eapply list_elem_of_lookup_2.
    + intros j e Hj.
      destruct (Forall2_lookup_l _ _ _ _ _ Hrows Hj) as (e' & Hj' & He').
      exists (written e'). split.
      * change (map written (l1 ++ new)) with (written <$> (l1 ++ new)).
        rewrite list_lookup_fmap, (lookup_app_l_Some _ _ _ _ Hj'). done.
      * apply row_kept_written; [done|]. rewrite Forall_forall in Hall1.
        apply Hall1. by eapply list_elem_of_lookup_2.
  - destruct Hend as (bad & Hbad & Hnw).
    assert (Hi : (i < length l1)%nat).
    { destruct (Nat.lt_ge_cases i (length l1)) as [|Hge]; [done|]. exfalso.
      rewrite lookup_app_r in Hbad by done.
      rewrite Forall_forall in Hnew.
      rewrite (Hnew bad) in Hnw; [done|]. by eapply list_elem_of_lookup_2. }
    rewrite lookup_app_l in Hbad by done.
    destruct (Forall2_lookup_r _ _ _ _ _ Hrows Hbad) as (e & He & _ & Hwe & _).
    exists i, e. split; [done|]. split; [congruence|].
    subst w. split.
    { rewrite length_map, length_take. apply lookup_lt_Some in Hbad.
      rewrite length_app. lia. }
    intros j e0 Hj Hj0.
    destruct (Forall2_lookup_l _ _ _ _ _ Hrows Hj0) as (e' & Hj' & He').
    assert (Hjt : take i (l1 ++ new) !! j = Some e').
    { rewrite lookup_take_lt by done. by apply lookup_app_l_Some. }
    exists (written e'). split.
    + change (map written (take i (l1 ++ new)))
        with (written <$> take i (l1 ++ new)).
      by rewrite list_lookup_fmap, Hjt.
    + apply row_kept_written; [done|]. rewrite Forall_forall in Hall.
      apply Hall. by eapply list_elem_of_lookup_2.
Qed.

(** When the whole function returns, its loop completed with the same
    counts, and the file holds what was written of the rows in memory. *)
Lemma update_database_returns lower title today file results file' updated added :
  update_database lower title today file results = (file', Returns (updated, added)) ->
  exists rows',
    update_rows lower title today file results = Returns (rows', updated, added)
    /\ file' = map written rows'
    /\ Forall (fun e => writable e = true) rows'.
Proof.
  unfold update_database.
  destruct (update_rows lower title today file results)
    as [[[rows u] a]| |]; [|done|done].
  destruct (writerows_spec rows) as (i & Hw & Hall & Hend).
  destruct (writerows rows) as [w []]; [|done]. simpl in *. subst i.
  rewrite take_ge in Hw, Hall by done.
  intros [= <- <- <-]. by exists rows.
Qed.



(** *** After [process_all_pcaps] *)

Lemma consistency_note_returns data :
  res_total data <> 0 -> exists note, consistency_note data = Returns note.
Proof.
  intros Ht. unfold consistency_note.
  destruct (res_unique data =? 1); [by eexists|].
  destruct (Z.eqb_spec (res_total data) 0); [done|].
  destruct (PrimFloat.leb _ _); by eexists.
Qed.

Lemma update_first_returns lower today name data l :
  res_total data <> 0 ->
  exists r, update_first lower today name data l = Returns r.
Proof.
  intros Ht. induction l as [|e rest [r IH]]; simpl; [by eexists|].
  destruct (same_framework lower e name).
  - unfold update_entry.
    destruct (consistency_note_returns data Ht) as [note ->]. by eexists.
  - rewrite IH. by eexists.
Qed.

Lemma update_all_returns lower title today results : forall st,
  Forall (fun item => res_total item.2 <> 0) results ->
  exists st', update_all lower title today st results = Returns st'.
Proof.
  induction results as [|item results IH]; intros st Hall; simpl; [by eexists|].
  apply Forall_cons in Hall as [Ht Hall].
  destruct st as [[l u] a]. unfold update_one.
  destruct (update_first_returns lower today (framework_name title item.1)
              item.2 l Ht) as [r ->].
  simpl. destruct r; apply IH, Hall.
Qed.

(** X22: [update_database] on the results of [process_all_pcaps].
    Every total is at least 1, so the division of line 133 never raises
    and the loop over the results always completes.  The function then
    returns when every row of the file has only columns among the
    fieldnames; when some row has another column, the write-back raises
    [ValueError] and the file is left with fewer rows than it had. *)
Theorem x_update_after_analysis
    (lower title : string -> string) (today : string)
    (file : list entry) (files : list Batch.PcapFile)
    (results : list (string * result_entry)) :
  Batch.process_all_pcaps files = Val results ->
  Forall (fun item => 1 <= res_total item.2) results
  /\ (exists rows updated added,
        update_rows lower title today file results = Returns (rows, updated, added))
  /\ (Forall (fun e => writable e = true) file ->
      exists file' updated added,
        update_database lower title today file results
        = (file', Returns (updated, added)))
  /\ (Exists (fun e => writable e = false) file ->
      exists file',
        update_database lower title today file results = (file', ValueError)
        /\ (length file' < length file)%nat).
Proof.
  intros Hrun.
  destruct (BatchFacts.process_all_pcaps_spec files)
    as (g & results' & Hrun' & [_ Hne _] & _ & Hres).
  rewrite Hrun in Hrun'. injection Hrun' as <-.
  assert (Htot : Forall (fun item => 1 <= res_total item.2) results).
  { apply Forall_forall. intros [k e] Hke.
    destruct (Hres _ _ Hke) as (l & Hl & Ha).
    rewrite Forall_forall in Hne. specialize (Hne _ Hl). simpl in Hne.
    apply AggregateFacts.analyze_inv in Ha as (b & _ & _ & ->). simpl.
    destruct l; [done|]. unfold len. simpl. lia. }
  split; [done|].
  destruct (update_all_returns lower title today results (file, 0, 0))
    as [[[rows u] a] Hst].
  { eapply Forall_impl; [exact Htot|]. simpl. lia. }
  split; [by exists rows, u, a|].
  destruct (writerows rows) as [w ok] eqn:Hwr.
  pose proof (write_back_cases _ _ _ _ _ _ _ _ _ _ Hst Hwr) as Hcases.
  unfold update_database, update_rows. rewrite Hst, Hwr.
  split.
  - intros Hall. destruct ok; [by exists w, u, a|]. exfalso.
    destruct Hcases as (i & e & Hi & Hnw & _).
    rewrite Forall_forall in Hall.
    rewrite (Hall e) in Hnw; [done|]. by eapply list_elem_of_lookup_2.
  - intros Hex. destruct ok.
    + exfalso. destruct Hcases as [Hall _].
      apply Exists_exists in Hex as (e & He & Hnw).
      rewrite Forall_forall in Hall. by rewrite (Hall e He) in Hnw.
    + exists w. split; [done|].
      destruct Hcases as (i & e & Hi & _ & <- & _).
      by apply lookup_lt_Some in Hi.
Qed.

Lemma x_update_after_analysis_witness :
  exists results,
    Batch.process_all_pcaps [BatchSpec.sample_file] = Val results
    /\ Forall (fun item => 1 <= res_total item.2) results
    /\ (exists file' updated added,
          update_database ascii_lower ascii_title "2025-12-28" [other_row] results
          = (file', Returns (updated, added)))
    /\ (exists file',
          update_database ascii_lower ascii_title "2025-12-28" [legacy_row] results
          = (file', ValueError)
          /\ (length file' < length [legacy_row])%nat).
Proof.
  eexists. split; [vm_compute; reflexivity|].
  edestruct (x_update_after_analysis ascii_lower ascii_title "2025-12-28"
               [other_row] [BatchSpec.sample_file]) as (Htot & _ & Hok & _);
    [vm_compute; reflexivity|].
  edestruct (x_update_after_analysis ascii_lower ascii_title "2025-12-28"
               [legacy_row] [BatchSpec.sample_file]) as (_ & _ & _ & Hbad);
    [vm_compute; reflexivity|].
  split; [exact Htot|]. split.
  - apply Hok. by repeat constructor.
  - apply Hbad. by constructor.
Defined.

(** A sample update: "openai" and "cohere" are found (the second under
    another case), "ai21" is added under its title-cased name. *)
Example sample_update :
  match update_rows ascii_lower ascii_title "2025-12-28"
          sample_rows sample_analysis with
  | Returns (rows', updated, added) => (map name_of rows', updated, added)
  | _ => ([], 0, 0)
  end
  = ([Some "OpenAI"; Some "COHERE"; Some "Ai21"]%string, 2, 1).
Proof. vm_compute. reflexivity. Qed.

(** A database whose rows have the column [simplified_ja4], which other
    scripts of the repository write: the update raises [ValueError]
    and the file is left without any row. *)
Example legacy_database_lost :
  update_database ascii_lower ascii_title "2025-12-28"
    [legacy_row; legacy_row] sample_analysis
  = ([], ValueError).
Proof. vm_compute. reflexivity. Qed.

End DatabaseFacts.
